(** * electron-view-renderer: a shallow embedding of [src/index.js]

    The development follows the second (current) revision of the module:
    the class [ElectronViewRenderer] with its renderer registry
    ([_renderers]), its view-data store ([_views]), the request handler
    [renderTemplate] and the two protocol handlers.

    Conventions of the embedding.
    - JavaScript strings are [string]s of 8-bit code units.
    - The two objects used as maps ([_renderers], [_views]) are [store]s:
      the own properties, a finite map from property names to values, and
      the prototype once an assignment has replaced it. Neither object
      ever has an own property [__proto__]: assigning to that name
      replaces the prototype, and reading it returns the prototype. Reads
      follow the prototype chain ([read_renderer], [lookup_viewData]): the
      own properties, then the properties of a replaced prototype, then
      the members of [Object.prototype].
    - Objects that the caller shares with the module (the [query] option of
      [load], object payloads) live in a heap and are named by a location,
      so that mutation in place is visible through every alias.
    - Node's [url] and [path] modules, the platform test and the EJS engine
      are the interface [Runtime]; [NodeUrl] and [PosixPath] give a concrete
      instance. *)

From Stdlib Require Import ZArith String Ascii List Lia Bool.
From stdpp Require Import base option list strings pretty gmap.

Local Open Scope string_scope.
Local Open Scope Z_scope.

(** ** JavaScript values *)

Module JS.

Abbreviation loc := nat (only parsing).

(** A value of a query object built by [url.parse(u, true)]: a string, or
    the array of the values of a repeated key. *)
Inductive qvalue : Type :=
  | QStr (s : string)
  | QArr (l : list string).

#[global] Instance qvalue_eq_dec : EqDecision qvalue.
Proof. solve_decision. Defined.

Abbreviation querymap := (gmap string qvalue) (only parsing).

Inductive jsval : Type :=
  | VUndef
  | VNull
  | VBool (b : bool)
  | VNum (n : Z)  (* the Number value of the integer [n] *)
  | VStr (s : string)
  | VRef (l : loc)
  | VQuery (q : querymap)
  | VArr (l : list string).

#[global] Instance jsval_eq_dec : EqDecision jsval.
Proof. solve_decision. Defined.

(** ToBoolean. Objects are always truthy. *)
Definition truthy (v : jsval) : bool :=
  match v with
  | VUndef | VNull => false
  | VBool b => b
  | VNum n => negb (n =? 0)
  | VStr s => negb (String.eqb s "")
  | VRef _ | VQuery _ | VArr _ => true
  end.

(** A plain object: its own properties in the order [Object.keys] lists
    them. *)
Abbreviation obj := (list (string * jsval)) (only parsing).
Abbreviation heap := (gmap loc obj) (only parsing).

Fixpoint obj_get (k : string) (o : obj) : option jsval :=
  match o with
  | [] => None
  | (k', v) :: o' => if String.eqb k k' then Some v else obj_get k o'
  end.

(** [o[k] = v] for a key that is no array index: an existing property
    keeps its place, a new one goes last. *)
Fixpoint obj_set (k : string) (v : jsval) (o : obj) : obj :=
  match o with
  | [] => [(k, v)]
  | (k', v') :: o' =>
      if String.eqb k k' then (k', v) :: o' else (k', v') :: obj_set k v o'
  end.

(** The double quote, for messages that carry one. *)
Definition dquote : ascii := ascii_of_nat 34.

Inductive js_error : Type :=
  | Error (msg : string)
  | TypeError (msg : string)
  | URIError (msg : string).

Inductive result (A : Type) : Type :=
  | Ok (a : A)
  | Throw (e : js_error).
Arguments Ok {A} a.
Arguments Throw {A} e.

Fixpoint string_drop (n : nat) (s : string) : string :=
  match n, s with
  | O, _ => s
  | S n', String _ s' => string_drop n' s'
  | S _, EmptyString => EmptyString
  end.

(** [s.substr(start)]: a negative [start] counts from the end, and the
    start is clamped to the string. *)
Definition substr (s : string) (start : Z) : string :=
  let len := Z.of_nat (String.length s) in
  let from := if start <? 0 then Z.max (len + start) 0 else Z.min start len in
  string_drop (Z.to_nat from) s.

(** The property key of [o[x]] where [x] is the value of a query key:
    an absent key reads [undefined], an array is joined with commas. *)
Definition to_key (x : option qvalue) : string :=
  match x with
  | None => "undefined"
  | Some (QStr s) => s
  | Some (QArr l) => String.concat "," l
  end.

(** Code units matched by the regular expression class [\s]. *)
Definition is_space (c : ascii) : bool :=
  let n := nat_of_ascii c in
  ((9 <=? n) && (n <=? 13) || (n =? 32) || (n =? 160))%nat.

(** [s.replace(/(?:\s|%20)/g, ' ')] *)
Fixpoint replace_spaces (s : string) : string :=
  match s with
  | EmptyString => EmptyString
  | String c rest =>
      if is_space c then String " " (replace_spaces rest)
      else
        match c, rest with
        | "%"%char, String "2" (String "0" rest') =>
            String " " (replace_spaces rest')
        | _, _ => String c (replace_spaces rest)
        end
  end.

(** An object literal [{}] used as a map from names to objects: its own
    properties, and the object an assignment has made its prototype;
    until then the prototype is [Object.prototype]. *)
Record store (A : Type) : Type := {
  own : gmap string A;
  prototype : option A;
}.
Arguments own {A} _.
Arguments prototype {A} _.

(** [o[k]] as far as [o] and a replaced prototype answer it by themselves:
    an own property, and under [__proto__] the prototype. Where this is
    [None] the read goes on up the prototype chain. *)
#[global] Instance store_lookup {A : Type} : Lookup string A (store A) :=
  fun k o => if String.eqb k "__proto__" then prototype o else own o !! k.

(** [o[k] = v] for an object [v]: an own property is created or
    overwritten, except under [__proto__], where [v] becomes the
    prototype and no property is created. *)
#[global] Instance store_insert {A : Type} : Insert string A (store A) :=
  fun k v o =>
    if String.eqb k "__proto__"
    then {| own := own o; prototype := Some v |}
    else {| own := <[k := v]> (own o); prototype := prototype o |}.

#[global] Instance store_empty {A : Type} : Empty (store A) :=
  {| own := ∅; prototype := None |}.

End JS.
Import JS.

(** ** The module's environment *)

(** The fields of [url.parse(u)] the module reads. [hostname] and
    [pathname] are [null] when the URL has none; [query] is the object built
    when the second argument of [url.parse] is [true]. [url.parse] decodes
    the credentials of a URL and throws a [URIError] when they cannot be
    decoded: parsing is fallible. *)
Record Url : Type := {
  hostname : option string;
  pathname : option string;
  query : querymap;
}.

(** The object [load] hands to [url.format]. *)
Record UrlObject : Type := {
  o_pathname : string;
  o_protocol : string;
  o_query : obj;
  o_slashes : bool;
}.

(** What calling [rendererAction(filePath, viewData, callback)] leads to:
    the callback receives the rendered HTML, the action throws before it
    returns, or the callback is never called. *)
Inductive action_outcome : Type :=
  | Calls (renderedHTML : string)
  | Throws (e : js_error)
  | Never.

Definition action := string -> jsval -> heap -> action_outcome.

Class Runtime : Type := {
  url_parse : string -> result Url;
  url_format : UrlObject -> string;
  (** [path.join] of the platform *)
  path_join : list string -> string;
  (** [process.platform === 'win32'] *)
  win32 : bool;
  (** the action built on [ejs.renderFile] *)
  ejs_action : action;
  (** the [name] property of a function given as a renderer action *)
  function_name : action -> string;
}.

(** ** Data of an instance *)

Record descriptor : Type := {
  extension : option string;
  rendererAction : option action;
  name : string;
}.

(** The second argument of [add], before destructuring: a property that is
    absent is [None]. *)
Record renderer_data : Type := {
  d_extension : option string;
  d_rendererAction : option action;
}.

(** The values [_currentRenderer] takes: the [{}] of the constructor, a
    registered descriptor, the [undefined] read from a missing name, and
    what a read finds further up the prototype chain of the registry: a
    property of the descriptor that replaced its prototype (the [null] or
    the string of [extension], the function of [rendererAction], the string
    of [name]), a function that [Object.prototype] holds, or
    [Object.prototype] itself. *)
Inductive current : Type :=
  | CurEmpty
  | CurUndefined
  | CurDescriptor (d : descriptor)
  | CurNull
  | CurString (s : string)
  | CurAction (a : action)
  | CurBuiltin (member : string)
  | CurObjectPrototype.

Record view_entry : Type := { viewData : jsval }.

Record instance : Type := {
  _renderers : store descriptor;
  _currentRenderer : current;
  _views : store view_entry;
  _viewProtcolName : string;
  _useAssets : bool;
  _assetsPath : string;
  _assetsProtocolName : string;
  _viewPath : string;
  _ingnoreExtensions : list string;
  (** how many ['ready'] listeners [use] has attached to the application *)
  ready_listeners : nat;
}.

Record options : Type := {
  opt_viewPath : option string;
  opt_viewProtcolName : option string;
  opt_useAssets : option bool;
  opt_assetsPath : option string;
  opt_assetsProtocolName : option string;
  opt_ignoreExtensions : option (list string);
}.

Definition no_options : options :=
  {| opt_viewPath := None; opt_viewProtcolName := None; opt_useAssets := None;
     opt_assetsPath := None; opt_assetsProtocolName := None;
     opt_ignoreExtensions := None |}.

Record response : Type := {
  mimeType : string;
  data : string;
}.

Inductive promise (A : Type) : Type :=
  | Resolved (a : A)
  | Rejected (e : js_error)
  | Pending.
Arguments Resolved {A} a.
Arguments Rejected {A} e.
Arguments Pending {A}.

(** One call of a renderer action: the file path and the view data. *)
Definition invocation : Type := string * jsval.

(** What the host sees of a request to the view protocol. *)
Inductive host_reply : Type :=
  | Replied (r : response)
  | LoggedOnly (e : js_error)
  | NoReply.

Definition set_renderers (f : store descriptor -> store descriptor)
    (st : instance) : instance :=
  {| _renderers := f (_renderers st);
     _currentRenderer := _currentRenderer st;
     _views := _views st;
     _viewProtcolName := _viewProtcolName st;
     _useAssets := _useAssets st;
     _assetsPath := _assetsPath st;
     _assetsProtocolName := _assetsProtocolName st;
     _viewPath := _viewPath st;
     _ingnoreExtensions := _ingnoreExtensions st;
     ready_listeners := ready_listeners st |}.

Definition set_views (f : store view_entry -> store view_entry)
    (st : instance) : instance :=
  {| _renderers := _renderers st;
     _currentRenderer := _currentRenderer st;
     _views := f (_views st);
     _viewProtcolName := _viewProtcolName st;
     _useAssets := _useAssets st;
     _assetsPath := _assetsPath st;
     _assetsProtocolName := _assetsProtocolName st;
     _viewPath := _viewPath st;
     _ingnoreExtensions := _ingnoreExtensions st;
     ready_listeners := ready_listeners st |}.

Definition set_current (c : current) (st : instance) : instance :=
  {| _renderers := _renderers st;
     _currentRenderer := c;
     _views := _views st;
     _viewProtcolName := _viewProtcolName st;
     _useAssets := _useAssets st;
     _assetsPath := _assetsPath st;
     _assetsProtocolName := _assetsProtocolName st;
     _viewPath := _viewPath st;
     _ingnoreExtensions := _ingnoreExtensions st;
     ready_listeners := ready_listeners st |}.

(** [app.on('ready', ...)] *)
Definition on_ready (st : instance) : instance :=
  {| _renderers := _renderers st;
     _currentRenderer := _currentRenderer st;
     _views := _views st;
     _viewProtcolName := _viewProtcolName st;
     _useAssets := _useAssets st;
     _assetsPath := _assetsPath st;
     _assetsProtocolName := _assetsProtocolName st;
     _viewPath := _viewPath st;
     _ingnoreExtensions := _ingnoreExtensions st;
     ready_listeners := S (ready_listeners st) |}.

(** ** The operations of [ElectronViewRenderer] *)

Section Operations.

Context {R : Runtime}.

(** [parseFilePath]: what [url.parse] throws goes to the caller; reading
    [substr] or [replace] off a [null] pathname throws. *)
Definition parseFilePath (urlString : string) : result string :=
  match url_parse urlString with
  | Throw e => Throw e
  | Ok parsedUrl =>
      match pathname parsedUrl with
      | None =>
          if win32
          then Throw (TypeError
                        "Cannot read properties of null (reading 'substr')")
          else Throw (TypeError
                        "Cannot read properties of null (reading 'replace')")
      | Some fileName =>
          let fileName := if win32 then substr fileName 1 else fileName in
          Ok (replace_spaces fileName)
      end
  end.

(** [add(name, {extension = null, rendererAction})]. The parameter is
    destructured before the body runs; [!name] holds of an absent and of an
    empty name. [this._renderers[name] = data] creates or overwrites the
    own property [name]; for the name [__proto__] it makes [data] the
    prototype of the registry. *)
Definition add (name : option string) (d : option renderer_data)
    (st : instance) : result instance :=
  match d with
  | None =>
      Throw (TypeError
               ("Cannot destructure property 'extension' of 'undefined'"
                +:+ " as it is undefined."))
  | Some d =>
      match name with
      | None => Throw (Error "Renderer name required")
      | Some n =>
          if String.eqb n "" then Throw (Error "Renderer name required")
          else
            let data := {| extension := d_extension d;
                           rendererAction := d_rendererAction d;
                           name := n |} in
            Ok (set_renderers <[n := data]> st)
      end
  end.

Definition _populateEJSRenderer (st : instance) : result instance :=
  add (Some "ejs")
      (Some {| d_extension := Some ".ejs";
               d_rendererAction := Some ejs_action |}) st.

Definition _populateHAMLRenderer (st : instance) : result instance := Ok st.

Definition _populatePugRenderer (st : instance) : result instance := Ok st.

Definition _populateDefaultRenderers (st : instance) : result instance :=
  match _populateEJSRenderer st with
  | Throw e => Throw e
  | Ok st1 =>
      match _populateHAMLRenderer st1 with
      | Throw e => Throw e
      | Ok st2 => _populatePugRenderer st2
      end
  end.

Definition constructor (o : options) : result instance :=
  let this :=
    {| _renderers := ∅;
       _currentRenderer := CurEmpty;
       _views := ∅;
       _viewProtcolName := default "view" (opt_viewProtcolName o);
       _useAssets := default false (opt_useAssets o);
       _assetsPath := default "assets" (opt_assetsPath o);
       _assetsProtocolName := default "asset" (opt_assetsProtocolName o);
       _viewPath := default "views" (opt_viewPath o);
       _ingnoreExtensions := default [] (opt_ignoreExtensions o);
       ready_listeners := O |} in
  _populateDefaultRenderers this.

(** The names [Object.prototype] binds to functions. [constructor] is the
    function [Object]; the others are named as the property. *)
Definition object_prototype_functions : list string :=
  ["constructor"; "__defineGetter__"; "__defineSetter__"; "hasOwnProperty";
   "__lookupGetter__"; "__lookupSetter__"; "isPrototypeOf";
   "propertyIsEnumerable"; "toString"; "valueOf"; "toLocaleString"].

Definition inherited (name : string) : bool :=
  String.eqb name "__proto__"
  || existsb (String.eqb name) object_prototype_functions.

Definition builtin_name (member : string) : string :=
  if String.eqb member "constructor" then "Object" else member.

(** [this.renderers[name]]: an own property; else, for [__proto__], the
    prototype, which is [Object.prototype] unless it was replaced; else a
    property of the descriptor that replaced the prototype; else a member
    of [Object.prototype]; else [undefined]. *)
Definition read_renderer (st : instance) (name : string) : current :=
  match _renderers st !! name with
  | Some d => CurDescriptor d
  | None =>
      if String.eqb name "__proto__" then CurObjectPrototype
      else
        let further :=
          if existsb (String.eqb name) object_prototype_functions
          then CurBuiltin name else CurUndefined in
        match prototype (_renderers st) with
        | Some proto =>
            if String.eqb name "extension" then
              match extension proto with
              | Some e => CurString e
              | None => CurNull
              end
            else if String.eqb name "rendererAction" then
              match rendererAction proto with
              | Some a => CurAction a
              | None => CurUndefined
              end
            else if String.eqb name "name" then
              let '{| name := n |} := proto in CurString n
            else further
        | None => further
        end
  end.

(** [use(name)]: the selection becomes whatever [this.renderers[name]]
    reads, and a ['ready'] listener is attached. *)
Definition use (name : string) (st : instance) : result instance :=
  let st' := set_current (read_renderer st name) st in
  Ok (on_ready st').

(** [load(browserWindow, view, viewData, {query = {}} = {})]. A missing
    [query] is a fresh empty object. [this._views[view] = {viewData}]
    creates or overwrites the own property [view]; for the id [__proto__]
    it makes the new entry the prototype of the store. The result carries
    the window and the URL handed to its [loadURL]. *)
Definition load (browserWindow : nat) (view : string) (viewData : jsval)
    (query : option loc) (st : instance) (h : heap)
    : instance * heap * (nat * string) :=
  let st' := set_views <[view := {| viewData := viewData |}]> st in
  let q := match query with Some l => l | None => fresh (dom h) end in
  let h' := <[q := obj_set "_view" (VStr view) (default [] (h !! q))]> h in
  let u := url_format {| o_pathname := view;
                         o_protocol := "view:";
                         o_query := default [] (h' !! q);
                         o_slashes := true |} in
  (st', h', (browserWindow, u)).

(** [renderer.extension || `.${renderer.name}`]. A string, a function and
    [Object.prototype] have no [extension]; of these only a function has a
    [name]. *)
Definition renderer_extension (renderer : current) : result string :=
  match renderer with
  | CurUndefined =>
      Throw (TypeError
               "Cannot read properties of undefined (reading 'extension')")
  | CurNull =>
      Throw (TypeError "Cannot read properties of null (reading 'extension')")
  | CurEmpty | CurString _ | CurObjectPrototype => Ok ".undefined"
  | CurDescriptor d =>
      match extension d with
      | Some e => if String.eqb e "" then Ok ("." +:+ name d) else Ok e
      | None => Ok ("." +:+ name d)
      end
  | CurAction a => Ok ("." +:+ function_name a)
  | CurBuiltin member => Ok ("." +:+ builtin_name member)
  end.

(** The callee of [renderer.rendererAction(...)]. *)
Definition renderer_action (renderer : current) : result action :=
  match renderer with
  | CurUndefined =>
      Throw (TypeError
               "Cannot read properties of undefined (reading 'rendererAction')")
  | CurNull =>
      Throw (TypeError
               "Cannot read properties of null (reading 'rendererAction')")
  | CurDescriptor d =>
      match rendererAction d with
      | Some a => Ok a
      | None => Throw (TypeError "renderer.rendererAction is not a function")
      end
  | CurEmpty | CurString _ | CurAction _ | CurBuiltin _
  | CurObjectPrototype =>
      Throw (TypeError "renderer.rendererAction is not a function")
  end.

(** [x.viewData] for a value [x] that is not [null] or [undefined]: an own
    property of an object; the primitives and the arrays have none. *)
Definition value_viewData (h : heap) (x : jsval) : jsval :=
  match x with
  | VRef l => default VUndef (h !! l ≫= obj_get "viewData")
  | VQuery q =>
      match q !! "viewData" with
      | Some (QStr s) => VStr s
      | Some (QArr l) => VArr l
      | None => VUndef
      end
  | _ => VUndef
  end.

(** [(this._views[k] && this._views[k].viewData) ? this._views[k].viewData
    : undefined] for [k = parsedUrl.query._view]. [this._views[k]] is the
    entry stored under [k], the prototype included; for [k = 'viewData']
    with no such entry it is the payload of the entry that replaced the
    prototype; any other [k] reads a member of [Object.prototype] or
    [undefined], none of which has a [viewData]. *)
Definition lookup_viewData (st : instance) (h : heap) (parsedUrl : Url)
    : jsval :=
  let k := to_key (query parsedUrl !! "_view") in
  match _views st !! k with
  | Some e => if truthy (viewData e) then viewData e else VUndef
  | None =>
      if String.eqb k "viewData" then
        match prototype (_views st) with
        | Some proto =>
            let x := viewData proto in
            if truthy x && truthy (value_viewData h x)
            then value_viewData h x else VUndef
        | None => VUndef
        end
      else VUndef
  end.

(** [filePath.substr(filePath.length - ext.length) === ext] *)
Definition ignore_test (filePath ext : string) : bool :=
  String.eqb
    (substr filePath
       (Z.of_nat (String.length filePath) - Z.of_nat (String.length ext)))
    ext.

(** The [some] loop: its callback returns nothing, so every entry is
    visited and [foundIgnore] is set when any of them matches. *)
Definition foundIgnore (st : instance) (filePath : string) : bool :=
  (0 <? length (_ingnoreExtensions st))%nat
  && existsb (ignore_test filePath) (_ingnoreExtensions st).

Definition empty_response : response :=
  {| mimeType := "text/html"; data := "" |}.

(** [renderTemplate(request)]: the state of the returned promise and the
    calls made to the renderer action. Whatever the body throws before the
    action runs is caught and rejects the promise. *)
Definition renderTemplate (st : instance) (h : heap) (request_url : string)
    : promise response * list invocation :=
  let renderer := _currentRenderer st in
  match url_parse request_url with
  | Throw ex => (Rejected ex, [])
  | Ok parsedUrl =>
      match parseFilePath request_url with
      | Throw ex => (Rejected ex, [])
      | Ok fileName =>
          match renderer_extension renderer with
          | Throw ex => (Rejected ex, [])
          | Ok extension =>
              let filePath :=
                path_join [_viewPath st; fileName +:+ extension] in
              let viewData := lookup_viewData st h parsedUrl in
              if foundIgnore st filePath then (Resolved empty_response, [])
              else
                match renderer_action renderer with
                | Throw ex => (Rejected ex, [])
                | Ok act =>
                    let call := (filePath, viewData) in
                    match act filePath viewData h with
                    | Calls renderedHTML =>
                        (Resolved {| mimeType := "text/html";
                                     data := renderedHTML |}, [call])
                    | Throws ex => (Rejected ex, [call])
                    | Never => (Pending, [call])
                    end
                end
          end
      end
  end.

(** The handler [setupViewProtocol] registers: a resolution goes to the
    host's callback, a rejection is logged and the callback is not called. *)
Definition view_handler (st : instance) (h : heap) (request_url : string)
    : host_reply :=
  match fst (renderTemplate st h request_url) with
  | Resolved resolution => Replied resolution
  | Rejected error => LoggedOnly error
  | Pending => NoReply
  end.

(** The handler [setupAssetsProtocol] registers: the [path] it gives to the
    callback. [path.join] throws on an argument that is not a string. *)
Definition asset_handler (st : instance) (request_url : string)
    : result string :=
  match url_parse request_url with
  | Throw e => Throw e
  | Ok parsedUrl =>
      let hostName := hostname parsedUrl in
      match parseFilePath request_url with
      | Throw e => Throw e
      | Ok fileName =>
          match hostName with
          | None =>
              Throw (TypeError
                       ("The " +:+ String dquote "path"
                        +:+ String dquote
                              " argument must be of type string. Received null"))
          | Some hostName =>
              Ok (path_join [_assetsPath st; hostName; fileName])
          end
      end
  end.

(** The path [renderTemplate] composes for a request, when nothing throws
    on the way. *)
Definition candidate_path (st : instance) (request_url : string)
    : result string :=
  match parseFilePath request_url with
  | Throw ex => Throw ex
  | Ok fileName =>
      match renderer_extension (_currentRenderer st) with
      | Throw ex => Throw ex
      | Ok extension => Ok (path_join [_viewPath st; fileName +:+ extension])
      end
  end.

(** Calls of the public methods, and their effect on an instance and the
    heap. A call that throws leaves both as they were. *)
Inductive call : Type :=
  | CallAdd (name : option string) (d : option renderer_data)
  | CallUse (name : string)
  | CallLoad (browserWindow : nat) (view : string) (viewData : jsval)
             (query : option loc).

Definition step (c : call) (s : instance * heap) : instance * heap :=
  let '(st, h) := s in
  match c with
  | CallAdd n d =>
      match add n d st with Ok st' => (st', h) | Throw _ => (st, h) end
  | CallUse n =>
      match use n st with Ok st' => (st', h) | Throw _ => (st, h) end
  | CallLoad w v d q =>
      let '(st', h', _) := load w v d q st h in (st', h')
  end.

Definition steps (cs : list call) (s : instance * heap) : instance * heap :=
  fold_left (fun s c => step c s) cs s.

Definition is_use (c : call) : bool :=
  match c with CallUse _ => true | _ => false end.

Definition loads (v : string) (c : call) : bool :=
  match c with CallLoad _ v' _ _ => String.eqb v v' | _ => false end.

End Operations.

(** ** A concrete runtime

    [NodeUrl] follows the legacy parser of Node's [url] module
    ([url.parse], [url.format]) and its [querystring] module, as Node 20
    has them, on strings of 8-bit code units. Two things are outside such
    strings and are cut short: a code unit above 255 that decoding a query
    produces is written [?], and the IDNA conversion of a host name is
    the encoding of RFC 3492 label by label, without the mapping and the
    validation a build of Node adds to it. [PosixPath] follows
    [path.posix.join]. *)

Module NodeUrl.

Definition code (c : ascii) : Z := Z.of_nat (nat_of_ascii c).

Definition in_range (lo hi : nat) (c : ascii) : bool :=
  let n := nat_of_ascii c in ((lo <=? n) && (n <=? hi))%nat.

Definition is_alnum (c : ascii) : bool :=
  in_range 48 57 c || in_range 65 90 c || in_range 97 122 c.

Definition char_in (cs : string) (c : ascii) : bool :=
  existsb (Ascii.eqb c) (list_ascii_of_string cs).

(** [toLowerCase] on a code unit: the capital letters of ASCII and of
    Latin-1. *)
Definition lower_char (c : ascii) : ascii :=
  if in_range 65 90 c || in_range 192 214 c || in_range 216 222 c
  then ascii_of_nat (nat_of_ascii c + 32) else c.

Fixpoint lower (s : string) : string :=
  match s with
  | EmptyString => EmptyString
  | String c s' => String (lower_char c) (lower s')
  end.

(** The longest prefix free of [stop] characters, and what follows it. *)
Fixpoint break_at (stop : ascii -> bool) (s : string) : string * string :=
  match s with
  | EmptyString => (EmptyString, EmptyString)
  | String c s' =>
      if stop c then (EmptyString, s)
      else let '(a, b) := break_at stop s' in (String c a, b)
  end.

Fixpoint split_on (sep : ascii) (s : string) : list string :=
  match s with
  | EmptyString => [EmptyString]
  | String c s' =>
      if Ascii.eqb c sep then EmptyString :: split_on sep s'
      else
        match split_on sep s' with
        | [] => [String c EmptyString]
        | w :: ws => String c w :: ws
        end
  end.

Fixpoint split_last (sep : ascii) (s : string) : option (string * string) :=
  match s with
  | EmptyString => None
  | String c s' =>
      match split_last sep s' with
      | Some (a, b) => Some (String c a, b)
      | None => if Ascii.eqb c sep then Some (EmptyString, s') else None
      end
  end.

Definition string_forall (p : ascii -> bool) (s : string) : bool :=
  forallb p (list_ascii_of_string s).

Definition string_exists (p : ascii -> bool) (s : string) : bool :=
  existsb p (list_ascii_of_string s).

(** *** Trimming and back slashes *)

(** The code units [url.parse] takes for white space at the ends of a
    URL: those below 33 and the no-break space. *)
Definition is_ws (c : ascii) : bool :=
  (nat_of_ascii c <? 33)%nat || (nat_of_ascii c =? 160)%nat.

Fixpoint ltrim (s : string) : string :=
  match s with
  | EmptyString => EmptyString
  | String c s' => if is_ws c then ltrim s' else s
  end.

Fixpoint rtrim (s : string) : string :=
  match s with
  | EmptyString => EmptyString
  | String c s' =>
      match rtrim s' with
      | EmptyString => if is_ws c then EmptyString else String c EmptyString
      | t => String c t
      end
  end.

Definition split_char (c : ascii) : bool :=
  Ascii.eqb c "?" || Ascii.eqb c "#".

(** Back slashes become slashes as long as no [?] or [#] has been seen. *)
Fixpoint slashes_forward (s : string) : string :=
  match s with
  | EmptyString => EmptyString
  | String c s' =>
      if split_char c then s
      else String (if Ascii.eqb c "\" then "/"%char else c)
                  (slashes_forward s')
  end.

Definition hasHash (s : string) : bool := string_exists (Ascii.eqb "#") s.

(** An [@] before the first [?] or [#]. *)
Definition hasAt (s : string) : bool :=
  string_exists (Ascii.eqb "@") (break_at split_char s).1.

(** [simplePathPattern]: a URL that is only a path, with one or two
    slashes at its head, not three, and no white space in it, gives its
    path and its search string at once. *)
Definition simplePath (rest : string) : option (string * string) :=
  match rest with
  | String "/" (String "/" (String "/" _)) => None
  | String "/" _ =>
      if string_exists is_space rest then None
      else Some (break_at (Ascii.eqb "?") rest)
  | _ => None
  end.

(** *** The scheme *)

(** [protocolPattern], [/^([a-z0-9.+-]+:)/i]: the scheme with its colon,
    and the rest. *)
Fixpoint scheme_tail (s : string) : option (string * string) :=
  match s with
  | EmptyString => None
  | String c s' =>
      if Ascii.eqb c ":" then Some (":"%string, s')
      else if is_alnum c || char_in ".+-" c then
        match scheme_tail s' with
        | Some (p, r) => Some (String c p, r)
        | None => None
        end
      else None
  end.

Definition scheme (s : string) : option (string * string) :=
  match s with
  | String ":" _ => None
  | _ => scheme_tail s
  end.

(** The scheme, lower-cased, and what follows it. *)
Definition after_scheme (urlString : string) : option string * string :=
  match scheme urlString with
  | Some (p, r) => (Some (lower p), r)
  | None => (None, urlString)
  end.

Definition hostlessProtocol (p : string) : bool :=
  String.eqb p "javascript:".

Definition unsafeProtocol (p : string) : bool :=
  String.eqb p "javascript:".

Definition slashedProtocol (p : string) : bool :=
  existsb (String.eqb p)
    ["http:"; "https:"; "ftp:"; "gopher:"; "file:"; "ws:"; "wss:"].

(** *** [decodeURIComponent] *)

Definition hex_value (c : ascii) : option Z :=
  if in_range 48 57 c then Some (code c - 48)
  else if in_range 65 70 c then Some (code c - 55)
  else if in_range 97 102 c then Some (code c - 87)
  else None.

(** A code unit as a character of the embedding. *)
Definition unit_char (u : Z) : ascii :=
  if u <? 256 then ascii_of_nat (Z.to_nat u) else "?"%char.

(** The code units of a code point: two from [0x10000] on. *)
Definition code_units (cp : Z) : list Z :=
  if cp <? 65536 then [cp]
  else [55296 + (cp - 65536) / 1024; 56320 + (cp - 65536) mod 1024].

Definition string_of_points (cps : list Z) : string :=
  string_of_list_ascii (map unit_char (List.concat (map code_units cps))).

(** A string as [decodeURIComponent] reads it: characters and escaped
    octets. An escape needs two hexadecimal digits. *)
Inductive uri_token : Type :=
  | Literal (c : ascii)
  | Octet (b : Z).

Fixpoint uri_tokens (s : string) : option (list uri_token) :=
  match s with
  | EmptyString => Some []
  | String c s' =>
      if Ascii.eqb c "%" then
        match s' with
        | String a (String b rest) =>
            match hex_value a, hex_value b, uri_tokens rest with
            | Some x, Some y, Some ts => Some (Octet (16 * x + y) :: ts)
            | _, _, _ => None
            end
        | _ => None
        end
      else
        match uri_tokens s' with
        | Some ts => Some (Literal c :: ts)
        | None => None
        end
  end.

Definition continuation (b : Z) : bool := (128 <=? b) && (b <=? 191).

(** The escaped octets must spell UTF-8: an octet from [0x80] on opens a
    sequence of two to four escapes whose code point is in the range of
    that length and is no surrogate. *)
Fixpoint decode_octets (ts : list uri_token) : option (list Z) :=
  match ts with
  | [] => Some []
  | Literal c :: ts' => cons (code c) <$> decode_octets ts'
  | Octet b :: ts' =>
      if b <? 128 then cons b <$> decode_octets ts'
      else if b <? 194 then None
      else if b <? 224 then
        match ts' with
        | Octet b1 :: ts2 =>
            if continuation b1
            then cons ((b - 192) * 64 + (b1 - 128)) <$> decode_octets ts2
            else None
        | _ => None
        end
      else if b <? 240 then
        match ts' with
        | Octet b1 :: Octet b2 :: ts3 =>
            let value := (b - 224) * 4096 + (b1 - 128) * 64 + (b2 - 128) in
            if continuation b1 && continuation b2
               && (2048 <=? value)
               && negb ((55296 <=? value) && (value <=? 57343))
            then cons value <$> decode_octets ts3
            else None
        | _ => None
        end
      else if b <? 248 then
        match ts' with
        | Octet b1 :: Octet b2 :: Octet b3 :: ts4 =>
            let value :=
              (b - 240) * 262144 + (b1 - 128) * 4096 + (b2 - 128) * 64
              + (b3 - 128) in
            if continuation b1 && continuation b2 && continuation b3
               && (65536 <=? value) && (value <=? 1114111)
            then cons value <$> decode_octets ts4
            else None
        | _ => None
        end
      else None
  end.

(** [decodeURIComponent(s)]; [None] when it throws a [URIError]. *)
Definition decodeURIComponent (s : string) : option string :=
  ts ← uri_tokens s; cps ← decode_octets ts; Some (string_of_points cps).

(** *** The host *)

(** The first [/], [?] or [#] ends the authority of a URL. *)
Definition hostEndingChar (c : ascii) : bool := char_in "/?#" c.

(** Tabs, line feeds and carriage returns are deleted from the
    authority. *)
Definition deleted (c : ascii) : bool :=
  existsb (Nat.eqb (nat_of_ascii c)) [9; 10; 13]%nat.

Fixpoint delete_controls (s : string) : string :=
  match s with
  | EmptyString => EmptyString
  | String c s' =>
      if hostEndingChar c then s
      else if deleted c then delete_controls s'
      else String c (delete_controls s')
  end.

(** Characters that end the host name: the host-ending ones, and those
    never allowed in a host name. *)
Definition nonHostChar (c : ascii) : bool :=
  char_in "{}|\^`<>'%/?;# " c || Ascii.eqb c (ascii_of_nat 34).

Definition is_digit (c : ascii) : bool := in_range 48 57 c.

(** [parseHost]: a port, [/:[0-9]*$/], is cut off the host. *)
Definition parseHost (host : string) : string :=
  match split_last ":" host with
  | Some (h, port) => if string_forall is_digit port then h else host
  | None => host
  end.

Definition last_char (s : string) : option ascii :=
  match rev (list_ascii_of_string s) with
  | c :: _ => Some c
  | [] => None
  end.

Definition isIpv6Hostname (hostname : string) : bool :=
  match hostname with
  | String "[" _ => bool_decide (last_char hostname = Some "]"%char)
  | _ => false
  end.

(** [getHostname]: the host name ends before the first of [/ \ # ? :]
    in it; what follows goes to the front of the path, after a [/]. *)
Definition getHostname (hostname rest : string) : string * string :=
  let '(h, tail) := break_at (char_in "/\#?:") hostname in
  if String.eqb tail "" then (hostname, rest)
  else (h, "/" +:+ tail +:+ rest).

Definition hostnameMaxLen : nat := 255.

Definition control_or (cs : string) (c : ascii) : bool :=
  existsb (Nat.eqb (nat_of_ascii c)) [0; 9; 10; 13]%nat || char_in cs c.

(** [forbiddenHostChars] and [forbiddenHostCharsIpv6] *)
Definition forbiddenHostChar (c : ascii) : bool :=
  control_or " #%/:<>?@[\]^|" c.

Definition forbiddenHostCharIpv6 (c : ascii) : bool :=
  control_or " #%/<>?@\^|" c.

(** **** The encoding of RFC 3492 *)

Definition puny_digit (d : Z) : ascii :=
  ascii_of_nat (Z.to_nat (if d <? 26 then 97 + d else 22 + d)).

Fixpoint adapt_loop (fuel : nat) (delta k : Z) : Z :=
  match fuel with
  | S fuel' =>
      if 455 <? delta then adapt_loop fuel' (delta / 35) (k + 36)
      else k + 36 * delta / (delta + 38)
  | O => k + 36 * delta / (delta + 38)
  end.

Definition adapt (delta numPoints : Z) (firstTime : bool) : Z :=
  let delta := if firstTime then delta / 700 else delta / 2 in
  let delta := delta + delta / numPoints in
  adapt_loop (Z.to_nat delta) delta 0.

(** A delta as a generalized variable-length integer. *)
Fixpoint puny_integer (fuel : nat) (q k bias : Z) : string :=
  let t := if k <=? bias then 1 else if bias + 26 <=? k then 26 else k - bias in
  match fuel with
  | S fuel' =>
      if q <? t then String (puny_digit q) ""
      else String (puny_digit (t + (q - t) mod (36 - t)))
                  (puny_integer fuel' ((q - t) / (36 - t)) (k + 36) bias)
  | O => String (puny_digit q) ""
  end.

Record puny_state : Type := {
  p_delta : Z;
  p_bias : Z;
  p_handled : Z;
  p_output : string;
}.

(** One pass over the input for the code point [n]. *)
Definition puny_pass (basic n : Z) (input : list Z) (st : puny_state)
    : puny_state :=
  fold_left
    (fun st c =>
       if c <? n then
         {| p_delta := p_delta st + 1; p_bias := p_bias st;
            p_handled := p_handled st; p_output := p_output st |}
       else if c =? n then
         {| p_delta := 0;
            p_bias := adapt (p_delta st) (p_handled st + 1)
                        (p_handled st =? basic);
            p_handled := p_handled st + 1;
            p_output :=
              p_output st
              +:+ puny_integer (Z.to_nat (p_delta st) + 1) (p_delta st) 36
                    (p_bias st) |}
       else st)
    input st.

Fixpoint puny_loop (fuel : nat) (basic n : Z) (input : list Z)
    (st : puny_state) : string :=
  match fuel with
  | S fuel' =>
      match List.filter (Z.leb n) input with
      | [] => p_output st
      | c :: cs =>
          let m := fold_left Z.min cs c in
          let st :=
            {| p_delta := p_delta st + (m - n) * (p_handled st + 1);
               p_bias := p_bias st; p_handled := p_handled st;
               p_output := p_output st |} in
          let st := puny_pass basic m input st in
          puny_loop fuel' basic (m + 1) input
            {| p_delta := p_delta st + 1; p_bias := p_bias st;
               p_handled := p_handled st; p_output := p_output st |}
      end
  | O => p_output st
  end.

Definition puny_encode (label : string) : string :=
  let input := map code (list_ascii_of_string label) in
  let basic := List.filter (fun c => c <? 128) input in
  let b := Z.of_nat (length basic) in
  puny_loop (length input) b 128 input
    {| p_delta := 0; p_bias := 72; p_handled := b;
       p_output :=
         string_of_list_ascii (map unit_char basic)
         +:+ (if 0 <? b then "-" else "") |}.

(** [toASCII]: a label with a character above 127 is encoded; a label
    written in ASCII is kept, also one that begins with [xn--], which Node
    decodes and checks. *)
Definition toASCII (hostname : string) : string :=
  String.concat "."
    (map (fun label =>
            if string_exists (fun c => 127 <? code c) label
            then "xn--" +:+ puny_encode label else label)
         (split_on "." hostname)).

Definition invalid_url : js_error := TypeError "Invalid URL".

(** The host name, from the host to the checks on it; the path gets a
    leading [/] after an IPv6 address. *)
Definition host_name (rest : string) : result (option string * string) :=
  let '(host, rest) := break_at nonHostChar rest in
  let hostname := parseHost host in
  let ipv6Hostname := isIpv6Hostname hostname in
  let '(hostname, rest) :=
    if ipv6Hostname then (hostname, rest) else getHostname hostname rest in
  let hostname :=
    if (hostnameMaxLen <? String.length hostname)%nat then ""
    else lower hostname in
  if String.eqb hostname "" then
    Ok (Some "",
        if ipv6Hostname && negb (String.prefix "/" rest)
        then "/" +:+ rest else rest)
  else if ipv6Hostname then
    if string_exists forbiddenHostCharIpv6 hostname then Throw invalid_url
    else
      Ok (Some (string_drop 1
                  (string_of_list_ascii
                     (removelast (list_ascii_of_string hostname)))),
          if String.prefix "/" rest then rest else "/" +:+ rest)
  else
    let hostname := toASCII hostname in
    if String.eqb hostname "" || string_exists forbiddenHostChar hostname
    then Throw invalid_url
    else Ok (Some hostname, rest).

(** [hostPattern], [/^\/\/[^@\/]+@[^@\/]+/] *)
Definition hostPattern (rest : string) : bool :=
  match rest with
  | String "/" (String "/" r) =>
      let '(user, r') := break_at (char_in "@/") r in
      match r' with
      | String "@" (String c _) =>
          negb (String.eqb user "") && negb (char_in "@/" c)
      | _ => false
      end
  | _ => false
  end.

(** The host: present after [//], and for every scheme that is neither
    host-less nor one of the slashed ones. Credentials are what precedes
    the last [@] of the authority; they are cut off and decoded, which
    throws when they cannot be decoded. *)
Definition take_host (proto : option string) (rest : string)
    : result (option string * string) :=
  let hostless := from_option hostlessProtocol false proto in
  let slashed := from_option slashedProtocol false proto in
  let slashes :=
    (bool_decide (is_Some proto) || hostPattern rest)
    && String.prefix "//" rest in
  let rest := if slashes && negb hostless then string_drop 2 rest else rest in
  if negb hostless && (slashes || (bool_decide (is_Some proto) && negb slashed))
  then
    let rest := delete_controls rest in
    match split_last "@" (break_at hostEndingChar rest).1 with
    | Some (auth, _) =>
        match decodeURIComponent auth with
        | Some _ => host_name (string_drop (S (String.length auth)) rest)
        | None => Throw (URIError "URI malformed")
        end
    | None => host_name rest
    end
  else Ok (None, rest).

(** *** The path and the query *)

Definition hex_digit (n : nat) : ascii :=
  if (n <? 10)%nat then ascii_of_nat (48 + n) else ascii_of_nat (55 + n).

Definition percent_octet (n : nat) : string :=
  String "%" (String (hex_digit (n / 16)) (String (hex_digit (n mod 16)) "")).

Definition percent (c : ascii) : string := percent_octet (nat_of_ascii c).

(** The characters [url.parse] escapes wherever they stand after the
    host: tab, line feed, carriage return, space, the double quote, and
    [' < > \ ^ ` { | }]. *)
Definition autoEscapeChar (c : ascii) : bool :=
  char_in "'<>\^`{|} " c
  || existsb (Nat.eqb (nat_of_ascii c)) [9; 10; 13; 34]%nat.

Fixpoint autoEscapeStr (rest : string) : string :=
  match rest with
  | EmptyString => EmptyString
  | String c s =>
      if autoEscapeChar c then percent c +:+ autoEscapeStr s
      else String c (autoEscapeStr s)
  end.

(** The path and the search string: the hash is cut off first. *)
Definition take_path (rest : string) : string * string :=
  break_at (Ascii.eqb "?") (break_at (Ascii.eqb "#") rest).1.

(** **** [querystring.parse] *)

Definition is_hex (c : ascii) : bool :=
  match hex_value c with Some _ => true | None => false end.

(** Whether the scan of a key or of a value meets an escape, [%] and two
    hexadecimal digits. In a value a [+] is passed over; in a key it
    interrupts an escape. *)
Fixpoint escape_seen (in_key : bool) (encodeCheck : nat) (s : string) : bool :=
  match s with
  | EmptyString => false
  | String c s' =>
      if Ascii.eqb c "%" then escape_seen in_key 1 s'
      else if Ascii.eqb c "+" && negb in_key
      then escape_seen in_key encodeCheck s'
      else
        match encodeCheck with
        | O => escape_seen in_key 0 s'
        | S O =>
            if is_hex c then escape_seen in_key 2 s'
            else escape_seen in_key 0 s'
        | _ => is_hex c || escape_seen in_key 0 s'
        end
  end.

Fixpoint plus_spaces (s : string) : string :=
  match s with
  | EmptyString => EmptyString
  | String c s' =>
      String (if Ascii.eqb c "+" then " "%char else c) (plus_spaces s')
  end.

(** [unescapeBuffer(s, true)]: the octets of [s], with an escape taken
    for an octet where two hexadecimal digits follow the [%]. *)
Fixpoint unescapeBuffer (s : string) : list Z :=
  match s with
  | EmptyString => []
  | String c s' =>
      if Ascii.eqb c "+" then 32 :: unescapeBuffer s'
      else if Ascii.eqb c "%" then
        match s' with
        | String a (String b rest as t) =>
            match hex_value a, hex_value b with
            | None, _ => 37 :: unescapeBuffer s'
            | Some _, None => 37 :: code a :: unescapeBuffer t
            | Some hi, Some lo => 16 * hi + lo :: unescapeBuffer rest
            end
        | _ => 37 :: unescapeBuffer s'
        end
      else code c :: unescapeBuffer s'
  end.

(** What the first octet of a UTF-8 sequence opens: a code point by
    itself, or a sequence with so many octets to come, the bits read so
    far and the bounds of the next octet. *)
Definition utf8_lead (b : Z) : Z + (nat * Z * Z * Z) :=
  if b <? 128 then inl b
  else if (194 <=? b) && (b <=? 223) then inr (1%nat, b - 192, 128, 191)
  else if (224 <=? b) && (b <=? 239)
  then inr (2%nat, b - 224,
            if b =? 224 then 160 else 128, if b =? 237 then 159 else 191)
  else if (240 <=? b) && (b <=? 244)
  then inr (3%nat, b - 240,
            if b =? 240 then 144 else 128, if b =? 244 then 143 else 191)
  else inl 65533.

(** [buffer.toString()]: the octets decoded as UTF-8, each ill-formed
    piece giving U+FFFD. *)
Fixpoint utf8_decode (pending : option (nat * Z * Z * Z)) (bs : list Z)
    : list Z :=
  match bs with
  | [] => match pending with Some _ => [65533] | None => [] end
  | b :: bs' =>
      let fresh_octet :=
        match utf8_lead b with
        | inl cp => cp :: utf8_decode None bs'
        | inr st => utf8_decode (Some st) bs'
        end in
      match pending with
      | None => fresh_octet
      | Some (n, cp, lo, hi) =>
          if (lo <=? b) && (b <=? hi) then
            match n with
            | S (S n') =>
                utf8_decode (Some (S n', cp * 64 + (b - 128), 128, 191)) bs'
            | _ => cp * 64 + (b - 128) :: utf8_decode None bs'
            end
          else 65533 :: fresh_octet
      end
  end.

(** [querystring.unescape]: [decodeURIComponent], and the lenient
    decoding where that throws. *)
Definition qs_unescape (s : string) : string :=
  match decodeURIComponent s with
  | Some t => t
  | None => string_of_points (utf8_decode None (unescapeBuffer s))
  end.

(** A key or a value: each [+] is a space, and the result is decoded
    when the scan met an escape. *)
Definition qs_decode (in_key : bool) (s : string) : string :=
  if escape_seen in_key 0 s then qs_unescape (plus_spaces s)
  else plus_spaces s.

(** One [key=value] piece of a query string added to the object: a
    repeated key collects its values in an array. *)
Definition qs_add (piece : string) (q : querymap) : querymap :=
  let '(k, v) := break_at (Ascii.eqb "=") piece in
  let k := qs_decode true k in
  let v := qs_decode false (string_drop 1 v) in
  match q !! k with
  | None => <[k := QStr v]> q
  | Some (QStr old) => <[k := QArr [old; v]]> q
  | Some (QArr olds) => <[k := QArr (olds ++ [v])]> q
  end.

Definition maxKeys : nat := 1000.

(** The pieces between [&]s, of which the first [maxKeys] count; an
    empty piece adds nothing. *)
Definition qs_parse (qs : string) : querymap :=
  fold_left (fun q piece => if String.eqb piece "" then q else qs_add piece q)
            (take maxKeys (split_on "&" qs)) ∅.

(** *** [url.parse] *)

(** A URL that has a scheme, a host or a hash. *)
Definition parse_full (rest : string) : result Url :=
  let '(proto, rest) := after_scheme rest in
  match take_host proto rest with
  | Throw e => Throw e
  | Ok (host, rest) =>
      let rest :=
        if from_option unsafeProtocol false proto then rest
        else autoEscapeStr rest in
      let '(path, search) := take_path rest in
      Ok {| hostname := host;
            pathname :=
              if String.eqb path "" then
                if from_option slashedProtocol false proto
                   && negb (String.eqb (default "" host) "")
                then Some "/"
                else None
              else Some path;
            query := qs_parse (string_drop 1 search) |}
  end.

Definition parse (urlString : string) : result Url :=
  let rest := slashes_forward (rtrim (ltrim urlString)) in
  match (if hasHash rest || hasAt rest then None else simplePath rest) with
  | Some (path, search) =>
      Ok {| hostname := None; pathname := Some path;
            query := qs_parse (string_drop 1 search) |}
  | None => parse_full rest
  end.

(** *** [querystring.stringify] *)

(** [querystring.escape]: everything but letters, digits and
    [-_.!~*'()] is percent-encoded, octet by octet of its UTF-8. *)
Definition unreserved (c : ascii) : bool :=
  is_alnum c || char_in "-_.!~*'()" c.

Definition escape_char (c : ascii) : string :=
  let n := nat_of_ascii c in
  if (n <? 128)%nat then percent_octet n
  else percent_octet (192 + n / 64) +:+ percent_octet (128 + n mod 64).

Fixpoint qs_escape (s : string) : string :=
  match s with
  | EmptyString => EmptyString
  | String c s' =>
      if unreserved c then String c (qs_escape s')
      else escape_char c +:+ qs_escape s'
  end.

(** **** Numbers as strings *)

(** The Number value of the integer [n >= 0]: [n] itself when 53 bits
    hold it, else [n] rounded to 53 bits, a tie going to the even one;
    [None] is [Infinity]. *)
Definition to_double (n : Z) : option Z :=
  let e := Z.log2 n in
  if e <? 53 then Some n
  else
    let s := e - 52 in
    let q := Z.shiftr n s in
    let r := n - Z.shiftl q s in
    let half := Z.shiftl 1 (s - 1) in
    let q := if (half <? r) || ((r =? half) && Z.odd q) then q + 1 else q in
    if Z.shiftl q s <? 2 ^ 1024 then Some (Z.shiftl q s) else None.

(** Whether the decimal [c] reads back as the double [d], for [d] from
    [2^53] on: [c] is no further from [d] than half the way to the next
    double, the half way included when the mantissa of [d] is even. *)
Definition reads_as (d c : Z) : bool :=
  let e := Z.log2 d in
  let up := 2 ^ (e - 52) in
  let down := if d =? 2 ^ e then 2 ^ (e - 53) else up in
  let gap := if c <? d then down else up in
  if Z.even (Z.shiftr d (e - 52)) then 2 * Z.abs (d - c) <=? gap
  else 2 * Z.abs (d - c) <? gap.

(** The decimal with the fewest significant digits that reads back as
    [d], and of those the one nearest to [d]: the multiples of [10^p]
    around [d], from the largest [p] down. *)
Fixpoint shortest (d : Z) (p : nat) : Z :=
  match p with
  | O => d
  | S p' =>
      let step := 10 ^ Z.of_nat p in
      let lo := d / step * step in
      let hi := lo + step in
      let lo_ok := (0 <? lo) && reads_as d lo in
      let hi_ok := reads_as d hi in
      if lo_ok && hi_ok then
        if d - lo <? hi - d then lo
        else if hi - d <? d - lo then hi
        else if Z.even (lo / step) then lo else hi
      else if lo_ok then lo
      else if hi_ok then hi
      else shortest d p'
  end.

Fixpoint strip_zeros (digits : list ascii) : list ascii :=
  match digits with
  | "0"%char :: rest => strip_zeros rest
  | _ => digits
  end.

(** A positive integer as [Number::toString] writes it: in full up to
    21 digits, else with an exponent. *)
Definition number_digits (c : Z) : string :=
  let full := pretty c in
  let n := String.length full in
  if (n <=? 21)%nat then full
  else
    match rev (strip_zeros (rev (list_ascii_of_string full))) with
    | [] => full
    | d :: ds =>
        String d
          (match ds with
           | [] => ""
           | _ => String "." (string_of_list_ascii ds)
           end)
        +:+ "e+" +:+ pretty (Z.of_nat n - 1)
    end.

(** ['' + v] for the number [n]; [None] when it is not finite. *)
Definition number_to_string (n : Z) : option string :=
  match to_double (Z.abs n) with
  | None => None
  | Some d =>
      let c :=
        if d <? 2 ^ 53 then d else shortest d (String.length (pretty d)) in
      Some (if c =? 0 then "0"
            else (if n <? 0 then "-" else "") +:+ number_digits c)
  end.

(** [stringifyPrimitive] *)
Definition qs_primitive (v : jsval) : string :=
  match v with
  | VStr s => s
  | VNum n => default "" (number_to_string n)
  | VBool b => if b then "true" else "false"
  | _ => ""
  end.

(** The fields a property gives: one, or one for each element of an
    array. *)
Definition qs_fields (kv : string * jsval) : list string :=
  let ks := qs_escape kv.1 +:+ "=" in
  match kv.2 with
  | VArr l => map (fun x => ks +:+ qs_escape x) l
  | v => [ks +:+ qs_escape (qs_primitive v)]
  end.

(** [querystring.stringify]: the fields of the properties in order,
    with [&] between them. *)
Definition qs_stringify (o : obj) : string :=
  String.concat "&" (List.concat (map qs_fields o)).

(** *** [url.format] *)

(** The loop over the path name: [#] and [?] are escaped. *)
Fixpoint escape_path (s : string) : string :=
  match s with
  | EmptyString => EmptyString
  | String c s' =>
      if Ascii.eqb c "?" || Ascii.eqb c "#" then percent c +:+ escape_path s'
      else String c (escape_path s')
  end.

Definition last_is_colon (s : string) : bool :=
  String.eqb (substr s (-1)) ":".

Definition format (o : UrlObject) : string :=
  let protocol := o_protocol o in
  let pathname := o_pathname o in
  let query := qs_stringify (o_query o) in
  let search := if String.eqb query "" then "" else "?" +:+ query in
  let protocol :=
    if negb (String.eqb protocol "") && negb (last_is_colon protocol)
    then protocol +:+ ":" else protocol in
  let '(host, pathname) :=
    if o_slashes o then
      ("//",
       if negb (String.eqb pathname "") && negb (String.prefix "/" pathname)
       then "/" +:+ pathname else pathname)
    else if slashedProtocol protocol && String.prefix "file" protocol
    then ("//", pathname)
    else ("", pathname) in
  protocol +:+ host +:+ escape_path pathname +:+ search.

End NodeUrl.

Module PosixPath.

(** [normalizeString]: the segments of a path read left to right onto a
    stack; [..] pops a segment, or is kept when the path may climb above
    its start. *)
Fixpoint normalize_segments (allowAboveRoot : bool) (segs : list string)
    (acc : list string) : list string :=
  match segs with
  | [] => rev acc
  | seg :: segs' =>
      if String.eqb seg "" || String.eqb seg "." then
        normalize_segments allowAboveRoot segs' acc
      else if String.eqb seg ".." then
        match acc with
        | top :: acc' =>
            if String.eqb top ".." then
              normalize_segments allowAboveRoot segs' (seg :: acc)
            else normalize_segments allowAboveRoot segs' acc'
        | [] =>
            normalize_segments allowAboveRoot segs'
              (if allowAboveRoot then [seg] else [])
        end
      else normalize_segments allowAboveRoot segs' (seg :: acc)
  end.

Definition normalize (path : string) : string :=
  if String.eqb path "" then "."
  else
    let isAbsolute := String.prefix "/" path in
    let trailingSeparator := String.eqb (substr path (-1)) "/" in
    let path :=
      String.concat "/"
        (normalize_segments (negb isAbsolute) (NodeUrl.split_on "/" path) []) in
    let path :=
      if String.eqb path "" && negb isAbsolute then "." else path in
    let path :=
      if negb (String.eqb path "") && trailingSeparator then path +:+ "/"
      else path in
    if isAbsolute then "/" +:+ path else path.

Definition nonempty (a : string) : bool := negb (String.eqb a "").

(** [path.join]: the non-empty arguments joined by [/], then normalized. *)
Definition join (args : list string) : string :=
  let joined := String.concat "/" (List.filter nonempty args) in
  if String.eqb joined "" then "." else normalize joined.

End PosixPath.

(** The EJS engine is outside the module; the concrete runtimes take its
    action as given, together with the platform and the [path.join] that
    belongs to it. The actions of the examples are written as the
    [rendererAction] property of an object literal, which names them. *)
Definition node_runtime (platform_win32 : bool)
    (join : list string -> string) (ejs : action) : Runtime :=
  {| url_parse := NodeUrl.parse;
     url_format := NodeUrl.format;
     path_join := join;
     win32 := platform_win32;
     ejs_action := ejs;
     function_name := fun _ => "rendererAction" |}.

Definition posix_runtime (ejs : action) : Runtime :=
  node_runtime false PosixPath.join ejs.

(** Characters of a path that needs no encoding: letters, digits and
    [- _ . /]. *)
Definition plain_char (c : ascii) : bool :=
  NodeUrl.is_alnum c || NodeUrl.char_in "-_./" c.

Fixpoint plain (s : string) : bool :=
  match s with
  | EmptyString => true
  | String c s' => plain_char c && plain s'
  end.

(** Characters [url.parse] leaves where and as they are: it neither trims
    them nor turns them nor escapes them. *)
Definition tidy_char (c : ascii) : bool :=
  negb (NodeUrl.is_ws c) && negb (NodeUrl.autoEscapeChar c).

Definition tidy (s : string) : bool := NodeUrl.string_forall tidy_char s.

(** Tidy characters that do not end the path of a URL. *)
Definition path_char (c : ascii) : bool :=
  tidy_char c && negb (NodeUrl.split_char c).

Definition path_chars (s : string) : bool :=
  NodeUrl.string_forall path_char s.

(** Tidy characters that do not end the query of a URL. *)
Definition query_char (c : ascii) : bool :=
  tidy_char c && negb (Ascii.eqb c "#").

Definition query_chars (s : string) : bool :=
  NodeUrl.string_forall query_char s.

(** A segment of a normalized relative path: plain characters other than
    [/], and not [.] or [..]. *)
Definition segment_char (c : ascii) : bool :=
  plain_char c && negb (Ascii.eqb c "/").

Fixpoint segment_chars (s : string) : bool :=
  match s with
  | EmptyString => true
  | String c s' => segment_char c && segment_chars s'
  end.

Definition proper_segment (s : string) : bool :=
  segment_chars s
  && negb (String.eqb s "") && negb (String.eqb s ".")
  && negb (String.eqb s "..").

(** A host that [url.parse] reads back as it is written: lower-case
    letters, digits and [-]. *)
Definition host_char (c : ascii) : bool :=
  NodeUrl.in_range 97 122 c || NodeUrl.in_range 48 57 c || Ascii.eqb c "-".

Fixpoint host_chars (s : string) : bool :=
  match s with
  | EmptyString => true
  | String c s' => host_char c && host_chars s'
  end.

(** [url.format({pathname: view, protocol: 'view:', query, slashes: true})]
    as [load] calls it. *)
Definition view_url (view : string) (q : obj) : string :=
  NodeUrl.format {| o_pathname := view; o_protocol := "view:";
                    o_query := q; o_slashes := true |}.

(** A renderer for examples: it renders the [title] property of an object
    payload between [<h1>] tags, and fails on anything else. *)
Definition title_action : action := fun _ viewData h =>
  match viewData with
  | VRef l =>
      match h !! l ≫= obj_get "title" with
      | Some (VStr t) => Calls ("<h1>" +:+ t +:+ "</h1>")
      | _ => Calls "<h1>undefined</h1>"
      end
  | _ =>
      Throws
        (TypeError "Cannot read properties of undefined (reading 'title')")
  end.

(** The instance a constructor call leaves: the EJS renderer registered,
    nothing selected, no view data. *)
Definition initial_instance {R : Runtime} (o : options) : instance :=
  {| _renderers :=
       <["ejs" := {| extension := Some ".ejs";
                     rendererAction := Some ejs_action;
                     name := "ejs" |}]> ∅;
     _currentRenderer := CurEmpty;
     _views := ∅;
     _viewProtcolName := default "view" (opt_viewProtcolName o);
     _useAssets := default false (opt_useAssets o);
     _assetsPath := default "assets" (opt_assetsPath o);
     _assetsProtocolName := default "asset" (opt_assetsProtocolName o);
     _viewPath := default "views" (opt_viewPath o);
     _ingnoreExtensions := default [] (opt_ignoreExtensions o);
     ready_listeners := O |}.

Definition with_ignore (l : list string) : options :=
  {| opt_viewPath := None; opt_viewProtcolName := None; opt_useAssets := None;
     opt_assetsPath := None; opt_assetsProtocolName := None;
     opt_ignoreExtensions := Some l |}.

(** The instance after [new ElectronViewRenderer()] and [use('ejs')]. *)
Definition ejs_instance {R : Runtime} : instance :=
  (steps [CallUse "ejs"] (initial_instance no_options, ∅)).1.

(** The names [add] refuses: [!name] holds of [undefined] and of the
    empty string. *)
Definition empty_name (name : option string) : Prop :=
  name = None \/ name = Some "".

Definition segment_or_empty (s : string) : Prop :=
  s = "" \/ proper_segment s = true.

(** ** The ['ready'] listeners

    Each [use] attaches one listener to the application's ['ready'] event.
    When the event fires, a listener calls [setupViewProtocol] and, when
    [useAssets] is set, [setupAssetsProtocol]: it asks the host to register
    a buffer protocol under the view scheme and a file protocol under the
    asset scheme. *)
Inductive registration : Type :=
  | BufferProtocol (scheme : string)
  | FileProtocol (scheme : string).

Definition ready_listener (st : instance) : list registration :=
  BufferProtocol (_viewProtcolName st)
  :: (if _useAssets st then [FileProtocol (_assetsProtocolName st)] else []).

(** The registrations asked of the host when ['ready'] fires. *)
Definition fire_ready (st : instance) : list registration :=
  List.concat (repeat (ready_listener st) (ready_listeners st)).

Definition count_uses (cs : list call) : nat :=
  length (List.filter is_use cs).

(** ** Decoded paths

    A path on which [parseFilePath]'s replacement has nothing left to do:
    its white space is the space character and [%20] occurs nowhere. *)
Fixpoint decoded (s : string) : bool :=
  match s with
  | EmptyString => true
  | String c rest =>
      if is_space c then Ascii.eqb c " " && decoded rest
      else
        match c, rest with
        | "%"%char, String "2" (String "0" _) => false
        | _, _ => decoded rest
        end
  end.

(** The head of a path is the escape [%20]. *)
Definition pct20 (c : ascii) (rest : string) : Prop :=
  c = "%"%char /\ exists rest', rest = String "2" (String "0" rest').

(** ** View ids that need no encoding

    Letters, digits and [- _ .]: [querystring.escape] and [url.format]
    leave them as they are. *)
Definition id_char (c : ascii) : bool :=
  NodeUrl.is_alnum c || NodeUrl.char_in "-_." c.

Fixpoint id_chars (s : string) : bool :=
  match s with
  | EmptyString => true
  | String c s' => id_char c && id_chars s'
  end.

(** ** Data that travels in a query string

    Pairs of a key and a string value, all made of characters that need no
    encoding; the object that holds them, the piece of query string each
    gives, and the entry [url.parse] reads back. *)
Definition plain_pair (kv : string * string) : bool :=
  id_chars kv.1 && id_chars kv.2.

Definition data_object (kvs : list (string * string)) : obj :=
  map (fun kv => (kv.1, VStr kv.2)) kvs.

Definition query_piece (kv : string * string) : string :=
  kv.1 +:+ "=" +:+ kv.2.

Definition query_object (kvs : list (string * string)) : querymap :=
  list_to_map (map (fun kv => (kv.1, QStr kv.2)) kvs).

(** ** The first revision of the module

    The file also carries the earlier revision of the class (its first 167
    lines). It differs where it matters: [parseFilePath] reads an
    undeclared variable on [win32]; [add] keeps the caller's object and
    writes the name into it; there is no view-data store, [load] sends
    the data as the query of the URL and [renderTemplate] hands the parsed
    query to the renderer; there is no ignore list. *)

Module FirstRevision.

Inductive error1 : Type :=
  | ReferenceError (msg : string)
  | JsError (e : js_error).

Inductive result1 (A : Type) : Type :=
  | Ok1 (a : A)
  | Throw1 (e : error1).
Arguments Ok1 {A} a.
Arguments Throw1 {A} e.

Inductive promise1 (A : Type) : Type :=
  | Resolved1 (a : A)
  | Rejected1 (e : error1)
  | Pending1.
Arguments Resolved1 {A} a.
Arguments Rejected1 {A} e.
Arguments Pending1 {A}.

(** A renderer object as the caller built it, seen through the three
    properties the module reads or writes: [add] writes its [name]. *)
Record renderer_obj : Type := {
  ro_extension : option string;
  ro_rendererAction : option action;
  ro_name : option string;
}.

Definition set_name (n : string) (o : renderer_obj) : renderer_obj :=
  {| ro_extension := ro_extension o;
     ro_rendererAction := ro_rendererAction o;
     ro_name := Some n |}.

(** The values [_currentRenderer] takes: the [{}] of the constructor, the
    [undefined] of a missing name, a reference to a renderer object, and
    what a read finds further up the prototype chain of the registry: a
    string or a function held by the object that replaced its prototype,
    a function that [Object.prototype] holds, or [Object.prototype]
    itself. *)
Inductive current1 : Type :=
  | Cur1Empty
  | Cur1Undefined
  | Cur1Ref (l : loc)
  | Cur1String (s : string)
  | Cur1Action (a : action)
  | Cur1Builtin (member : string)
  | Cur1ObjectPrototype.

(** The registry maps a name to what [add] was given: a reference, or
    [undefined]; its prototype, once replaced, is a reference to the
    object [add] was given. The renderer objects live in their own heap.
    [object_prototype_name1] is the [name] property of [Object.prototype],
    which [add] can come to write. *)
Record instance1 : Type := {
  renderers1 : store (option loc);
  currentRenderer1 : current1;
  viewPath1 : string;
  viewProtcolName1 : string;
  useAssets1 : bool;
  assetsPath1 : string;
  assetsProtocolName1 : string;
  listeners1 : nat;
  objects1 : gmap loc renderer_obj;
  object_prototype_name1 : option string;
}.

Definition with_registry (f : store (option loc) -> store (option loc))
    (g : gmap loc renderer_obj -> gmap loc renderer_obj)
    (st : instance1) : instance1 :=
  {| renderers1 := f (renderers1 st);
     currentRenderer1 := currentRenderer1 st;
     viewPath1 := viewPath1 st;
     viewProtcolName1 := viewProtcolName1 st;
     useAssets1 := useAssets1 st;
     assetsPath1 := assetsPath1 st;
     assetsProtocolName1 := assetsProtocolName1 st;
     listeners1 := listeners1 st;
     objects1 := g (objects1 st);
     object_prototype_name1 := object_prototype_name1 st |}.

(** [Object.prototype.name = n] *)
Definition name_object_prototype (n : string) (st : instance1) : instance1 :=
  {| renderers1 := renderers1 st;
     currentRenderer1 := currentRenderer1 st;
     viewPath1 := viewPath1 st;
     viewProtcolName1 := viewProtcolName1 st;
     useAssets1 := useAssets1 st;
     assetsPath1 := assetsPath1 st;
     assetsProtocolName1 := assetsProtocolName1 st;
     listeners1 := listeners1 st;
     objects1 := objects1 st;
     object_prototype_name1 := Some n |}.

Section Operations1.

Context {R : Runtime}.

(** [parseFilePath]: on [win32] the assignment reads [pathname], a
    variable declared nowhere. *)
Definition parseFilePath1 (urlString : string) : result1 string :=
  match url_parse urlString with
  | Throw e => Throw1 (JsError e)
  | Ok parsedUrl =>
      let fileName := pathname parsedUrl in
      if win32 then Throw1 (ReferenceError "pathname is not defined")
      else
        match fileName with
        | None =>
            Throw1
              (JsError
                 (TypeError
                    "Cannot read properties of null (reading 'replace')"))
        | Some fileName => Ok1 (replace_spaces fileName)
        end
  end.

(** [add(name, data)]: the registry keeps [data] itself, then [name] is
    written into it. With [data] undefined the write throws, after the
    registry was changed. Under the name [__proto__] the registry takes
    [data] as its prototype; an undefined [data] leaves the prototype as it
    is, and the name is written into that prototype: the object that
    replaced it, or [Object.prototype]. *)
Definition add1 (name : option string) (data : option loc) (st : instance1)
    : instance1 * option error1 :=
  match name with
  | None => (st, Some (JsError (Error "Renderer name required")))
  | Some n =>
      if String.eqb n "" then
        (st, Some (JsError (Error "Renderer name required")))
      else
        match data with
        | None =>
            if String.eqb n "__proto__" then
              match prototype (renderers1 st) with
              | Some (Some l) =>
                  (with_registry id (alter (set_name n) l) st, None)
              | _ => (name_object_prototype n st, None)
              end
            else
              (with_registry <[n := None]> id st,
               Some (JsError
                       (TypeError
                          "Cannot set properties of undefined (setting 'name')")))
        | Some l =>
            (with_registry <[n := Some l]> (alter (set_name n) l) st, None)
        end
  end.

(** [this.renderers[name]]: an own property; else, for [__proto__], the
    prototype; else a property of the object that replaced the prototype;
    else a member of [Object.prototype]; else [undefined]. *)
Definition read_renderer1 (st : instance1) (name : string) : current1 :=
  match renderers1 st !! name with
  | Some (Some l) => Cur1Ref l
  | Some None => Cur1Undefined
  | None =>
      if String.eqb name "__proto__" then Cur1ObjectPrototype
      else
        let further :=
          if existsb (String.eqb name) object_prototype_functions
          then Cur1Builtin name
          else if String.eqb name "name" then
            match object_prototype_name1 st with
            | Some s => Cur1String s
            | None => Cur1Undefined
            end
          else Cur1Undefined in
        match
          match prototype (renderers1 st) with
          | Some (Some l) => objects1 st !! l
          | _ => None
          end
        with
        | Some proto =>
            if String.eqb name "extension" then
              match ro_extension proto with
              | Some e => Cur1String e
              | None => further
              end
            else if String.eqb name "rendererAction" then
              match ro_rendererAction proto with
              | Some a => Cur1Action a
              | None => further
              end
            else if String.eqb name "name" then
              match ro_name proto with
              | Some s => Cur1String s
              | None => further
              end
            else further
        | None => further
        end
  end.

(** [use(name)] *)
Definition use1 (name : string) (st : instance1) : instance1 :=
  {| renderers1 := renderers1 st;
     currentRenderer1 := read_renderer1 st name;
     viewPath1 := viewPath1 st;
     viewProtcolName1 := viewProtcolName1 st;
     useAssets1 := useAssets1 st;
     assetsPath1 := assetsPath1 st;
     assetsProtocolName1 := assetsProtocolName1 st;
     listeners1 := S (listeners1 st);
     objects1 := objects1 st;
     object_prototype_name1 := object_prototype_name1 st |}.

(** [load(browserWindow, view, viewData)]: the data is the query of the
    URL; nothing is stored. *)
Definition load1 (browserWindow : nat) (view : string) (viewData : option loc)
    (h : heap) : nat * string :=
  (browserWindow,
   url_format {| o_pathname := view;
                 o_protocol := "view:";
                 o_query := default [] (viewData ≫= (h !!.));
                 o_slashes := true |}).

(** [renderer.extension || `.${renderer.name}`], read from the renderer
    object as it is when the request arrives. *)
Definition renderer_extension1 (st : instance1) : result1 string :=
  let inherited_name := default "undefined" (object_prototype_name1 st) in
  match currentRenderer1 st with
  | Cur1Undefined =>
      Throw1 (JsError
                (TypeError
                   "Cannot read properties of undefined (reading 'extension')"))
  | Cur1Empty | Cur1String _ | Cur1ObjectPrototype =>
      Ok1 ("." +:+ inherited_name)
  | Cur1Ref l =>
      match objects1 st !! l with
      | None => Ok1 ("." +:+ inherited_name)
      | Some o =>
          let dot_name := "." +:+ default inherited_name (ro_name o) in
          match ro_extension o with
          | Some e => if String.eqb e "" then Ok1 dot_name else Ok1 e
          | None => Ok1 dot_name
          end
      end
  | Cur1Action a => Ok1 ("." +:+ function_name a)
  | Cur1Builtin member => Ok1 ("." +:+ builtin_name member)
  end.

Definition renderer_action1 (st : instance1) : result1 action :=
  match currentRenderer1 st with
  | Cur1Undefined =>
      Throw1 (JsError
                (TypeError
                   "Cannot read properties of undefined (reading 'rendererAction')"))
  | Cur1Ref l =>
      match objects1 st !! l ≫= ro_rendererAction with
      | Some a => Ok1 a
      | None =>
          Throw1 (JsError
                    (TypeError "renderer.rendererAction is not a function"))
      end
  | Cur1Empty | Cur1String _ | Cur1Action _ | Cur1Builtin _
  | Cur1ObjectPrototype =>
      Throw1 (JsError (TypeError "renderer.rendererAction is not a function"))
  end.

(** [renderTemplate(request)]: what the executor throws rejects the
    promise; the view data is the parsed query. *)
Definition renderTemplate1 (st : instance1) (h : heap) (request_url : string)
    : promise1 response * list invocation :=
  match url_parse request_url with
  | Throw ex => (Rejected1 (JsError ex), [])
  | Ok parsedUrl =>
      match parseFilePath1 request_url with
      | Throw1 ex => (Rejected1 ex, [])
      | Ok1 fileName =>
          match renderer_extension1 st with
          | Throw1 ex => (Rejected1 ex, [])
          | Ok1 extension =>
              let filePath :=
                path_join [viewPath1 st; fileName +:+ extension] in
              let viewData := VQuery (query parsedUrl) in
              match renderer_action1 st with
              | Throw1 ex => (Rejected1 ex, [])
              | Ok1 act =>
                  let call := (filePath, viewData) in
                  match act filePath viewData h with
                  | Calls renderedHTML =>
                      (Resolved1 {| mimeType := "text/html";
                                    data := renderedHTML |}, [call])
                  | Throws ex => (Rejected1 (JsError ex), [call])
                  | Never => (Pending1, [call])
                  end
              end
          end
      end
  end.

(** The constructor destructures its argument, which has no default:
    called without one it throws. Then the EJS renderer is registered
    from a new object. *)
Definition constructor1 (o : option options) : result1 instance1 :=
  match o with
  | None =>
      Throw1
        (JsError
           (TypeError
              ("Cannot destructure property 'viewPath' of 'undefined'"
               +:+ " as it is undefined.")))
  | Some o =>
      let this :=
        {| renderers1 := ∅;
           currentRenderer1 := Cur1Empty;
           viewPath1 := default "views" (opt_viewPath o);
           viewProtcolName1 := default "view" (opt_viewProtcolName o);
           useAssets1 := default false (opt_useAssets o);
           assetsPath1 := default "assets" (opt_assetsPath o);
           assetsProtocolName1 := default "asset" (opt_assetsProtocolName o);
           listeners1 := O;
           objects1 := ∅;
           object_prototype_name1 := None |} in
      let ejs := fresh (dom (objects1 this)) in
      let this :=
        with_registry id
          <[ejs := {| ro_extension := Some ".ejs";
                      ro_rendererAction := Some ejs_action;
                      ro_name := None |}]> this in
      match add1 (Some "ejs") (Some ejs) this with
      | (this, None) => Ok1 this
      | (_, Some e) => Throw1 e
      end
  end.

(** The instance [new ElectronViewRenderer(o)] leaves: the EJS renderer
    object, named by [add], is the only object and the only entry. *)
Definition initial_instance1 (o : options) : instance1 :=
  {| renderers1 := <["ejs" := Some 0%nat]> ∅;
     currentRenderer1 := Cur1Empty;
     viewPath1 := default "views" (opt_viewPath o);
     viewProtcolName1 := default "view" (opt_viewProtcolName o);
     useAssets1 := default false (opt_useAssets o);
     assetsPath1 := default "assets" (opt_assetsPath o);
     assetsProtocolName1 := default "asset" (opt_assetsProtocolName o);
     listeners1 := O;
     objects1 := {[ 0%nat := {| ro_extension := Some ".ejs";
                                ro_rendererAction := Some ejs_action;
                                ro_name := Some "ejs" |} ]};
     object_prototype_name1 := None |}.

(** The calls of the first revision that change an instance. *)
Inductive call1 : Type :=
  | Call1Add (name : option string) (data : option loc)
  | Call1Use (name : string).

Definition step1 (c : call1) (st : instance1) : instance1 :=
  match c with
  | Call1Add n d => (add1 n d st).1
  | Call1Use n => use1 n st
  end.

Definition steps1 (cs : list call1) (st : instance1) : instance1 :=
  fold_left (fun st c => step1 c st) cs st.

End Operations1.

End FirstRevision.

(** * Properties *)

(** ** Objects used as maps *)

Section Store.

Context {A : Type}.

Implicit Types (o : store A) (k : string) (v : A).

Lemma store_lookup_proto o : o !! "__proto__" = prototype o.
Proof. reflexivity. Qed.

Lemma store_lookup_own o k : k <> "__proto__" -> o !! k = own o !! k.
Proof.
  intros Hk. unfold lookup, store_lookup.
  apply String.eqb_neq in Hk. now rewrite Hk.
Qed.

Lemma store_lookup_empty k : (∅ : store A) !! k = None.
Proof.
  unfold lookup, store_lookup. destruct (String.eqb k "__proto__");
    [reflexivity | apply lookup_empty].
Qed.

Lemma store_lookup_insert_eq o k v : <[k := v]> o !! k = Some v.
Proof.
  unfold lookup, insert, store_lookup, store_insert.
  destruct (String.eqb k "__proto__"); [reflexivity | apply lookup_insert_eq].
Qed.

Lemma store_lookup_insert_ne o k k' v :
  k <> k' -> <[k := v]> o !! k' = o !! k'.
Proof.
  intros Hk. unfold lookup, insert, store_lookup, store_insert.
  destruct (String.eqb_spec k "__proto__") as [->|Hp];
    destruct (String.eqb_spec k' "__proto__") as [->|Hp']; cbn [own prototype];
    try reflexivity; try congruence.
  now apply lookup_insert_ne.
Qed.

Lemma store_insert_insert_eq o k v v' :
  <[k := v']> (<[k := v]> o) = <[k := v']> o.
Proof.
  unfold insert, store_insert.
  destruct (String.eqb k "__proto__"); cbn [own prototype]; [reflexivity|].
  now rewrite insert_insert_eq.
Qed.

(** An assignment under another name leaves the prototype in place. *)
Lemma store_prototype_insert_ne o k v :
  k <> "__proto__" -> prototype (<[k := v]> o) = prototype o.
Proof.
  intros Hk. rewrite <- !store_lookup_proto. now apply store_lookup_insert_ne.
Qed.

Lemma store_lookup_insert_is_Some o k k' v :
  is_Some (o !! k') -> is_Some (<[k := v]> o !! k').
Proof.
  intros H. destruct (decide (k = k')) as [->|Hk].
  - rewrite store_lookup_insert_eq. eauto.
  - now rewrite store_lookup_insert_ne.
Qed.

End Store.

(** ** Strings *)

Lemma string_drop_app (a b : string) :
  string_drop (String.length a) (a +:+ b) = b.
Proof. induction a as [|c a IH]; simpl; [reflexivity | exact IH]. Qed.

Lemma string_length_app (a b : string) :
  String.length (a +:+ b) = (String.length a + String.length b)%nat.
Proof. induction a as [|c a IH]; simpl; [reflexivity | now rewrite IH]. Qed.

(** The test of the ignore loop holds exactly of the suffixes of the path. *)
Lemma ignore_test_suffix (filePath ext : string) :
  ignore_test filePath ext = true <-> exists pre, filePath = pre +:+ ext.
Proof.
  unfold ignore_test, substr. split.
  - intros H. apply String.eqb_eq in H.
    set (len := Z.of_nat (String.length filePath)) in *.
    set (from := if (len - Z.of_nat (String.length ext) <? 0)
                 then Z.max (len + (len - Z.of_nat (String.length ext))) 0
                 else Z.min (len - Z.of_nat (String.length ext)) len) in *.
    clearbody from. clear len.
    revert H. generalize (Z.to_nat from). clear from.
    intros n; revert filePath; induction n as [|n IH]; intros p H; simpl in H.
    + exists ""%string. now subst.
    + destruct p as [|c p].
      * exists ""%string. now subst.
      * destruct (IH p H) as [pre ->]. now exists (String c pre).
  - intros [pre ->]. apply String.eqb_eq.
    rewrite string_length_app.
    replace (Z.of_nat (String.length pre + String.length ext)
             - Z.of_nat (String.length ext)) with (Z.of_nat (String.length pre))
      by lia.
    destruct (Z.ltb_spec (Z.of_nat (String.length pre)) 0) as [Hneg|_]; [lia|].
    rewrite Z.min_l by lia. rewrite Nat2Z.id. apply string_drop_app.
Qed.

Lemma existsb_ignore (filePath : string) (l : list string) :
  existsb (ignore_test filePath) l = true <->
  exists ext pre, ext ∈ l /\ filePath = pre +:+ ext.
Proof.
  rewrite existsb_exists. split.
  - intros (ext & Hin & Ht). apply ignore_test_suffix in Ht as [pre ->].
    exists ext, pre. split; [now apply list_elem_of_In | reflexivity].
  - intros (ext & pre & Hin & ->). exists ext. split.
    + now apply list_elem_of_In.
    + apply ignore_test_suffix. now exists pre.
Qed.

(** ** The registry and the dispatcher *)

Section Dispatcher.

Context {R : Runtime}.

Lemma constructor_ok (o : options) : constructor o = Ok (initial_instance o).
Proof. reflexivity. Qed.

Lemma foundIgnore_true (st : instance) (filePath : string) :
  foundIgnore st filePath = true <->
  exists ext pre, ext ∈ _ingnoreExtensions st /\ filePath = pre +:+ ext.
Proof.
  unfold foundIgnore. rewrite andb_true_iff, existsb_ignore. split.
  - intros [_ H]. exact H.
  - intros (ext & pre & Hin & Hp). split; [|now exists ext, pre].
    destruct (_ingnoreExtensions st); [inversion Hin | reflexivity].
Qed.

(** A path is resolved only from a URL that [url.parse] accepts. *)
Lemma parseFilePath_parsed (request_url fileName : string) :
  parseFilePath request_url = Ok fileName ->
  exists parsedUrl, url_parse request_url = Ok parsedUrl.
Proof.
  unfold parseFilePath.
  destruct (url_parse request_url) as [parsedUrl|]; [eauto | discriminate].
Qed.

(** The resolver throws what [url.parse] throws, or a [TypeError] of its
    own on a URL without a path. *)
Lemma parseFilePath_throws (request_url : string) (e : js_error) :
  parseFilePath request_url = Throw e ->
  url_parse request_url = Throw e
  \/ exists parsedUrl msg,
       url_parse request_url = Ok parsedUrl
       /\ pathname parsedUrl = None /\ e = TypeError msg.
Proof.
  unfold parseFilePath.
  destruct (url_parse request_url) as [parsedUrl|ex].
  - destruct (pathname parsedUrl) eqn:Hp; [discriminate|].
    destruct win32; intros [= <-]; right; eauto.
  - intros [= <-]. now left.
Qed.

Lemma candidate_path_parsed (st : instance) (request_url p : string) :
  candidate_path st request_url = Ok p ->
  exists parsedUrl, url_parse request_url = Ok parsedUrl.
Proof.
  unfold candidate_path.
  destruct (parseFilePath request_url) as [fileName|] eqn:E; [|discriminate].
  intros _. now apply (parseFilePath_parsed request_url fileName).
Qed.

(** The short circuit of [renderTemplate]. *)
Lemma renderTemplate_ignored
    (st : instance) (h : heap) (request_url p : string) :
  candidate_path st request_url = Ok p ->
  foundIgnore st p = true ->
  renderTemplate st h request_url = (Resolved empty_response, []).
Proof.
  intros Hp Hf.
  destruct (candidate_path_parsed st request_url p Hp) as [parsedUrl Hu].
  unfold candidate_path in Hp. unfold renderTemplate. rewrite Hu.
  destruct (parseFilePath request_url) as [fileName|]; [|discriminate].
  destruct (renderer_extension (_currentRenderer st)) as [e|]; [|discriminate].
  injection Hp as ->. now rewrite Hf.
Qed.

(** C5. A request whose composed candidate path ends with a configured
    ignore suffix resolves at once with the empty [text/html] response, the
    renderer action is not called, and the host receives that response;
    this holds in every state of the instance in which the path is
    composed, the one before any [use] included. *)
Theorem ignored_path_short_circuits
    (st : instance) (h : heap) (request_url p ext pre : string) :
  candidate_path st request_url = Ok p ->
  ext ∈ _ingnoreExtensions st ->
  p = pre +:+ ext ->
  renderTemplate st h request_url = (Resolved empty_response, [])
  /\ view_handler st h request_url = Replied empty_response
  /\ mimeType empty_response = "text/html"
  /\ data empty_response = "".
Proof.
  intros Hp Hin Hsuf.
  assert (Hf : foundIgnore st p = true).
  { apply foundIgnore_true. exists ext, pre. auto. }
  pose proof (renderTemplate_ignored st h request_url p Hp Hf) as Hr.
  unfold view_handler. rewrite Hr. simpl. auto.
Qed.

End Dispatcher.

(** The short circuit at work before any renderer is selected. *)
Lemma ignored_path_short_circuits_witness :
  let R := posix_runtime title_action in
  let st := initial_instance (with_ignore [".map.undefined"]) in
  _currentRenderer st = CurEmpty
  /\ renderTemplate st ∅ "view:///app.js.map" = (Resolved empty_response, []).
Proof.
  intros R st. split; [reflexivity|].
  apply (ignored_path_short_circuits (R := R) st ∅ "view:///app.js.map"
           "views/app.js.map.undefined" ".map.undefined" "views/app.js").
  - vm_compute. reflexivity.
  - vm_compute. left.
  - reflexivity.
Defined.

Section Registry.

Context {R : Runtime}.

(** C6. [add] throws at once, with the error "Renderer name required", for
    an absent and for an empty name; for every other name it succeeds and
    the registry then reads under that name a descriptor with the given
    extension and action and with that name, whatever was registered under
    it before. The selection and the view data are left alone, and so is
    what the registry reads under every other name, unless the name is
    [__proto__], whose registration replaces the prototype of the
    registry. *)
Theorem add_registers_last_wins
    (name : option string) (d : renderer_data) (st : instance) :
  (empty_name name ->
     add name (Some d) st = Throw (Error "Renderer name required"))
  /\ (forall n : string, name = Some n -> n <> "" ->
        exists st',
          add name (Some d) st = Ok st'
          /\ read_renderer st' n
             = CurDescriptor {| extension := d_extension d;
                                rendererAction := d_rendererAction d;
                                name := n |}
          /\ (n <> "__proto__" ->
              forall n', n' <> n -> read_renderer st' n' = read_renderer st n')
          /\ _currentRenderer st' = _currentRenderer st
          /\ _views st' = _views st).
Proof.
  split.
  - intros [-> | ->]; reflexivity.
  - intros n -> Hn. unfold add.
    destruct (String.eqb n "") eqn:E.
    + apply String.eqb_eq in E. contradiction.
    + eexists. split; [reflexivity|].
      split.
      { unfold read_renderer, set_renderers. cbn [_renderers].
        now rewrite store_lookup_insert_eq. }
      split; [|auto].
      intros Hproto n' Hn'. unfold read_renderer, set_renderers.
      cbn [_renderers]. rewrite store_lookup_insert_ne by congruence.
      now rewrite store_prototype_insert_ne by exact Hproto.
Qed.

(** A name that is neither registered nor found up the prototype chain
    reads [undefined]. *)
Lemma read_renderer_missing (st : instance) (name : string) :
  _renderers st !! name = None ->
  inherited name = false ->
  prototype (_renderers st) = None ->
  read_renderer st name = CurUndefined.
Proof.
  intros Hnone Hinh Hproto. unfold read_renderer. rewrite Hnone, Hproto.
  unfold inherited in Hinh. apply orb_false_iff in Hinh as [-> ->].
  reflexivity.
Qed.

(** C4, as the code has it. [use] never throws: the selection becomes what
    the registry reads under the name, which is the descriptor registered
    under it, or [undefined] when the name is neither registered nor
    inherited from [Object.prototype] in a registry that kept its
    prototype; with [undefined] selected, every request rejects before any
    renderer is called, with a [TypeError] or with what [url.parse]
    throws. *)
Theorem use_selects_without_check (name : string) (st : instance) :
  exists st',
    use name st = Ok st'
    /\ _currentRenderer st' = read_renderer st name
    /\ (forall d, _renderers st !! name = Some d ->
          _currentRenderer st' = CurDescriptor d)
    /\ _renderers st' = _renderers st
    /\ _views st' = _views st
    /\ (_renderers st !! name = None ->
        inherited name = false ->
        prototype (_renderers st) = None ->
        _currentRenderer st' = CurUndefined
        /\ forall (h : heap) (request_url : string),
             (exists msg,
                renderTemplate st' h request_url
                = (Rejected (TypeError msg), []))
             \/ (exists ex,
                   url_parse request_url = Throw ex
                   /\ renderTemplate st' h request_url = (Rejected ex, []))).
Proof.
  eexists. split; [reflexivity|].
  cbn [on_ready set_current _currentRenderer _renderers _views].
  split; [reflexivity|].
  split; [intros d Hd; unfold read_renderer; now rewrite Hd|].
  split; [reflexivity|]. split; [reflexivity|].
  intros Hnone Hinh Hproto.
  pose proof (read_renderer_missing st name Hnone Hinh Hproto) as Hread.
  split; [exact Hread|].
  intros h request_url. unfold renderTemplate.
  cbn [on_ready set_current _currentRenderer]. rewrite Hread.
  destruct (url_parse request_url) as [parsedUrl|ex] eqn:Hu.
  - left. destruct (parseFilePath request_url) as [fileName|e] eqn:Hf.
    + cbn [renderer_extension]. eauto.
    + destruct (parseFilePath_throws request_url e Hf)
        as [Hthrow | (parsedUrl' & msg & _ & _ & ->)].
      * rewrite Hu in Hthrow. discriminate Hthrow.
      * eauto.
  - right. eauto.
Qed.

End Registry.

(** Registering twice under one name: the second descriptor is the one the
    registry reads. *)
Lemma add_registers_last_wins_witness :
  let R := posix_runtime title_action in
  let d := {| d_extension := Some ".tpl"; d_rendererAction := None |} in
  exists st',
    add (Some "ejs") (Some d) (initial_instance no_options) = Ok st'
    /\ read_renderer st' "ejs"
       = CurDescriptor {| extension := Some ".tpl"; rendererAction := None;
                          name := "ejs" |}.
Proof.
  intros R d.
  destruct (add_registers_last_wins (Some "ejs") d
              (initial_instance no_options)) as [_ H].
  destruct (H "ejs" eq_refl ltac:(discriminate)) as (st' & H1 & H2 & _).
  exists st'. split; [exact H1 | exact H2].
Defined.

(** The name [pug], which nothing registers, is selected without an error,
    and the next request is rejected. *)
Lemma use_selects_without_check_witness :
  let R := posix_runtime title_action in
  exists st',
    use "pug" (initial_instance no_options) = Ok st'
    /\ _currentRenderer st' = CurUndefined
    /\ renderTemplate st' ∅ "view:///index"
       = (Rejected
            (TypeError "Cannot read properties of undefined (reading 'extension')"), []).
Proof.
  intros R.
  destruct (use_selects_without_check (R := R) "pug"
              (initial_instance no_options))
    as (st' & Huse & _ & _ & _ & _ & Hmissing).
  exists st'. split; [exact Huse|].
  destruct (Hmissing eq_refl eq_refl eq_refl) as [Hcur Hreq].
  split; [exact Hcur|].
  injection Huse as <-. reflexivity.
Defined.

(** A name nobody registered is selected without an error. *)
Lemma use_unregistered_counterexample :
  ~ (forall (st : instance) (name : string),
       _renderers st !! name = None -> exists e, use name st = Throw e).
Proof.
  intros H.
  destruct (H (initial_instance (R := posix_runtime title_action) no_options)
              "pug" eq_refl) as [e He].
  discriminate He.
Qed.

(** ** Histories of calls *)

Section Histories.

Context {R : Runtime}.

Lemma step_current (c : call) (s : instance * heap) :
  is_use c = false ->
  _currentRenderer (step c s).1 = _currentRenderer s.1.
Proof.
  destruct s as [st h]. destruct c as [n d| n| w v d q]; simpl; intros Hc.
  - destruct (add n d st) as [st'|] eqn:E; [|reflexivity].
    unfold add in E. destruct d as [d|]; [|discriminate].
    destruct n as [n|]; [|discriminate].
    destruct (String.eqb n ""); [discriminate|].
    injection E as <-. reflexivity.
  - discriminate.
  - reflexivity.
Qed.

Lemma steps_current (cs : list call) (s : instance * heap) :
  Forall (fun c => is_use c = false) cs ->
  _currentRenderer (steps cs s).1 = _currentRenderer s.1.
Proof.
  intros H. revert s. induction H as [|c cs Hc _ IH]; intros s.
  - reflexivity.
  - simpl. rewrite IH. now apply step_current.
Qed.

Lemma step_views (v : string) (c : call) (s : instance * heap) :
  loads v c = false ->
  _views (step c s).1 !! v = _views s.1 !! v.
Proof.
  destruct s as [st h]. destruct c as [n d| n| w v' d q]; simpl; intros Hc.
  - destruct (add n d st) as [st'|] eqn:E; [|reflexivity].
    unfold add in E. destruct d as [d|]; [|discriminate].
    destruct n as [n|]; [|discriminate].
    destruct (String.eqb n ""); [discriminate|].
    injection E as <-. reflexivity.
  - reflexivity.
  - apply store_lookup_insert_ne. intros ->.
    rewrite String.eqb_refl in Hc. discriminate.
Qed.

Lemma steps_views (v : string) (cs : list call) (s : instance * heap) :
  Forall (fun c => loads v c = false) cs ->
  _views (steps cs s).1 !! v = _views s.1 !! v.
Proof.
  intros H. revert s. induction H as [|c cs Hc _ IH]; intros s.
  - reflexivity.
  - simpl. rewrite IH. now apply step_views.
Qed.

(** An id that is loaded, and not loaded again, is bound to the entry of
    that load. *)
Lemma steps_views_loaded
    (w : nat) (v : string) (payload : jsval) (q : option loc)
    (cs : list call) (st0 st : instance) (h0 h : heap) :
  steps (CallLoad w v payload q :: cs) (st0, h0) = (st, h) ->
  Forall (fun c => loads v c = false) cs ->
  _views st !! v = Some {| viewData := payload |}.
Proof.
  intros Hst Hcs.
  pose proof (steps_views v cs (step (CallLoad w v payload q) (st0, h0)) Hcs)
    as H.
  change (steps cs (step (CallLoad w v payload q) (st0, h0)) = (st, h)) in Hst.
  rewrite Hst in H. cbn [fst] in H. rewrite H.
  unfold step, load. cbn [fst set_views _views].
  apply store_lookup_insert_eq.
Qed.

(** What [renderTemplate] does once the path is composed and no ignore
    suffix matches it. *)
Lemma renderTemplate_dispatch
    (st : instance) (h : heap) (request_url p : string) (parsedUrl : Url) :
  url_parse request_url = Ok parsedUrl ->
  candidate_path st request_url = Ok p ->
  foundIgnore st p = false ->
  renderTemplate st h request_url
  = match renderer_action (_currentRenderer st) with
    | Throw ex => (Rejected ex, [])
    | Ok act =>
        let viewData := lookup_viewData st h parsedUrl in
        match act p viewData h with
        | Calls renderedHTML =>
            (Resolved {| mimeType := "text/html"; data := renderedHTML |},
             [(p, viewData)])
        | Throws ex => (Rejected ex, [(p, viewData)])
        | Never => (Pending, [(p, viewData)])
        end
    end.
Proof.
  unfold candidate_path, renderTemplate. intros Hu Hp Hf. rewrite Hu.
  destruct (parseFilePath request_url) as [fileName|]; [|discriminate].
  destruct (renderer_extension (_currentRenderer st)) as [e|]; [|discriminate].
  injection Hp as ->. now rewrite Hf.
Qed.

(** The entry a view id is bound to, when the id was loaded and not loaded
    again, is what a request correlated to the id reads. *)
Lemma lookup_viewData_bound
    (st : instance) (h : heap) (parsedUrl : Url) (v : string) (x : jsval) :
  to_key (query parsedUrl !! "_view") = v ->
  _views st !! v = Some {| viewData := x |} ->
  lookup_viewData st h parsedUrl = if truthy x then x else VUndef.
Proof.
  intros Hv Hx. unfold lookup_viewData. rewrite Hv. cbv zeta.
  now rewrite Hx.
Qed.

(** With no entry under the id and the prototype of the store in place,
    the request reads [undefined]. *)
Lemma lookup_viewData_unbound
    (st : instance) (h : heap) (parsedUrl : Url) :
  _views st !! to_key (query parsedUrl !! "_view") = None ->
  prototype (_views st) = None ->
  lookup_viewData st h parsedUrl = VUndef.
Proof.
  intros Hv Hproto. unfold lookup_viewData. cbv zeta.
  rewrite Hv, Hproto. now destruct (String.eqb _ "viewData").
Qed.

End Histories.

(** ** Requests *)

Section Requests.

Context {R : Runtime}.

(** C3, as the code has it. Before any [use], whatever has been registered
    or loaded, no request reaches a renderer action: either its path ends
    with an ignore suffix and it resolves empty, or [renderTemplate] rejects,
    with a [TypeError] or with what [url.parse] throws, which the protocol
    handler logs without calling the host's callback. *)
Theorem request_before_use_rejects
    (o : options) (cs : list call) (h0 h : heap) (st0 st : instance)
    (request_url : string) :
  constructor o = Ok st0 ->
  Forall (fun c => is_use c = false) cs ->
  steps cs (st0, h0) = (st, h) ->
  snd (renderTemplate st h request_url) = []
  /\ ((exists p, candidate_path st request_url = Ok p
                 /\ foundIgnore st p = true
                 /\ fst (renderTemplate st h request_url)
                    = Resolved empty_response)
      \/ (exists msg,
            fst (renderTemplate st h request_url) = Rejected (TypeError msg)
            /\ view_handler st h request_url = LoggedOnly (TypeError msg))
      \/ (exists ex,
            url_parse request_url = Throw ex
            /\ fst (renderTemplate st h request_url) = Rejected ex
            /\ view_handler st h request_url = LoggedOnly ex)).
Proof.
  intros Hnew Hcs Hst.
  rewrite constructor_ok in Hnew. injection Hnew as <-.
  assert (Hcur : _currentRenderer st = CurEmpty).
  { pose proof (steps_current cs (initial_instance o, h0) Hcs) as H.
    rewrite Hst in H. exact H. }
  unfold view_handler, candidate_path, renderTemplate. rewrite Hcur.
  destruct (url_parse request_url) as [parsedUrl|ex] eqn:Hu.
  - destruct (parseFilePath request_url) as [fileName|e] eqn:Hfile.
    + cbn [renderer_extension renderer_action].
      destruct (foundIgnore st _) eqn:Hf.
      * split; [reflexivity|]. left. eexists. split; [reflexivity|].
        split; [exact Hf | reflexivity].
      * split; [reflexivity|]. right. left. eexists. split; reflexivity.
    + destruct (parseFilePath_throws request_url e Hfile)
        as [Hthrow | (parsedUrl' & msg & _ & _ & ->)].
      * rewrite Hu in Hthrow. discriminate Hthrow.
      * split; [reflexivity|]. right. left. eexists. split; reflexivity.
  - split; [reflexivity|]. right. right. exists ex. auto.
Qed.

(** C7, as the code has it. A request is correlated to the view id its
    [_view] key names, and to the id [undefined] when it has no such key.
    When no call has loaded that id, nor the id [__proto__], the request
    does not fail for want of data. With a renderer selected whose action
    is callable and the path composed: if the path ends with an ignore
    suffix the request resolves empty; otherwise the action is called
    exactly once, with [undefined] as view data, the host is answered with
    what the action renders, and the promise rejects only with what the
    action throws. *)
Theorem unloaded_view_renders_undefined
    (o : options) (cs : list call) (h0 h : heap) (st0 st : instance)
    (request_url v p : string) (parsedUrl : Url) (d : descriptor)
    (act : action) :
  constructor o = Ok st0 ->
  Forall (fun c => loads v c = false) cs ->
  Forall (fun c => loads "__proto__" c = false) cs ->
  steps cs (st0, h0) = (st, h) ->
  url_parse request_url = Ok parsedUrl ->
  to_key (query parsedUrl !! "_view") = v ->
  _currentRenderer st = CurDescriptor d ->
  rendererAction d = Some act ->
  candidate_path st request_url = Ok p ->
  lookup_viewData st h parsedUrl = VUndef
  /\ (foundIgnore st p = true ->
      renderTemplate st h request_url = (Resolved empty_response, []))
  /\ (foundIgnore st p = false ->
      snd (renderTemplate st h request_url) = [(p, VUndef)]
      /\ (forall html, act p VUndef h = Calls html ->
            view_handler st h request_url
            = Replied {| mimeType := "text/html"; data := html |})
      /\ (forall ex, fst (renderTemplate st h request_url) = Rejected ex ->
            act p VUndef h = Throws ex)).
Proof.
  intros Hnew Hcs Hproto Hst Hu Hv Hcur Hact Hp.
  rewrite constructor_ok in Hnew. injection Hnew as <-.
  assert (Hnone : lookup_viewData st h parsedUrl = VUndef).
  { apply lookup_viewData_unbound.
    - rewrite Hv.
      pose proof (steps_views v cs (initial_instance o, h0) Hcs) as H.
      rewrite Hst in H. cbn [fst initial_instance _views] in H.
      now rewrite store_lookup_empty in H.
    - pose proof (steps_views "__proto__" cs (initial_instance o, h0) Hproto)
        as H.
      rewrite Hst in H. exact H. }
  split; [exact Hnone|]. split.
  - intros Hf. now apply (renderTemplate_ignored st h request_url p).
  - intros Hf. unfold view_handler.
    rewrite (renderTemplate_dispatch st h request_url p parsedUrl Hu Hp Hf).
    rewrite Hcur. simpl. rewrite Hact, Hnone.
    destruct (act p VUndef h) as [html|ex|]; simpl.
    + split; [reflexivity|]. split.
      * intros html' [= ->]. reflexivity.
      * intros ex [=].
    + split; [reflexivity|]. split.
      * intros html [=].
      * intros ex' [= ->]. reflexivity.
    + split; [reflexivity|]. split.
      * intros html [=].
      * intros ex [=].
Qed.


(** C2, as the code has it. In a store that kept its prototype (no view
    was loaded under the id [__proto__]), the view data of every call to
    the renderer action is the payload stored under the id of the [_view]
    key when that payload is truthy, and [undefined] otherwise. In every
    store the rest of the query never reaches the renderer: two requests
    with the same path and the same [_view] key are served alike. *)
Theorem view_data_is_stored_or_undefined
    (st : instance) (h : heap) (request_url : string) (parsedUrl : Url) :
  url_parse request_url = Ok parsedUrl ->
  (prototype (_views st) = None ->
   forall c, c ∈ snd (renderTemplate st h request_url) ->
     c.2 = match _views st !! to_key (query parsedUrl !! "_view") with
           | Some e => if truthy (viewData e) then viewData e else VUndef
           | None => VUndef
           end)
  /\ (forall (request_url' : string) (parsedUrl' : Url),
        url_parse request_url' = Ok parsedUrl' ->
        pathname parsedUrl' = pathname parsedUrl ->
        query parsedUrl' !! "_view" = query parsedUrl !! "_view" ->
        renderTemplate st h request_url' = renderTemplate st h request_url).
Proof.
  intros Hu. split.
  - intros Hproto c. unfold renderTemplate. rewrite Hu.
    destruct (parseFilePath request_url) as [fileName|]; [|inversion 1].
    destruct (renderer_extension _) as [e|]; [|inversion 1].
    destruct (foundIgnore _ _); [inversion 1|].
    destruct (renderer_action _) as [act|]; [|inversion 1].
    assert (Hdata : lookup_viewData st h parsedUrl
                    = match _views st !! to_key (query parsedUrl !! "_view")
                      with
                      | Some e => if truthy (viewData e) then viewData e
                                  else VUndef
                      | None => VUndef
                      end).
    { destruct (_views st !! to_key (query parsedUrl !! "_view"))
        as [[x]|] eqn:Hx.
      - now apply (lookup_viewData_bound st h parsedUrl
                     (to_key (query parsedUrl !! "_view")) x).
      - now apply lookup_viewData_unbound. }
    rewrite <- Hdata.
    destruct (act _ _ h); simpl; intros Hc;
      apply list_elem_of_singleton in Hc; subst c; reflexivity.
  - intros u' parsedUrl' Hu' Hpath Hview.
    unfold renderTemplate, parseFilePath, lookup_viewData.
    rewrite Hu, Hu', Hpath, Hview. reflexivity.
Qed.

End Requests.

(** ** Instances on the concrete runtime *)

Lemma request_before_use_rejects_witness :
  let R := posix_runtime title_action in
  let cs := [CallAdd (Some "tpl")
               (Some {| d_extension := Some ".tpl";
                        d_rendererAction := Some title_action |});
             CallLoad 0%nat "index" (VNum 1) None] in
  let s := steps cs (initial_instance no_options, ∅) in
  view_handler s.1 s.2 "view:///index?_view=index"
  = LoggedOnly (TypeError "renderer.rendererAction is not a function")
  /\ view_handler s.1 s.2 "view://%ZZ@host/index"
     = LoggedOnly (URIError "URI malformed").
Proof.
  intros R cs s. split.
  - destruct (request_before_use_rejects (R := R) no_options cs ∅ s.2
                (initial_instance no_options) s.1
                "view:///index?_view=index") as [_ [H|[H|H]]].
    + reflexivity.
    + repeat constructor.
    + exact (surjective_pairing s).
    + destruct H as (p & _ & _ & H). vm_compute in H. discriminate H.
    + destruct H as (msg & H1 & H2). rewrite H2. vm_compute in H1.
      injection H1 as <-. reflexivity.
    + destruct H as (ex & H & _). vm_compute in H. discriminate H.
  - destruct (request_before_use_rejects (R := R) no_options cs ∅ s.2
                (initial_instance no_options) s.1
                "view://%ZZ@host/index") as [_ [H|[H|H]]].
    + reflexivity.
    + repeat constructor.
    + exact (surjective_pairing s).
    + destruct H as (p & H & _). vm_compute in H. discriminate H.
    + destruct H as (msg & H1 & _). vm_compute in H1. discriminate H1.
    + destruct H as (ex & H1 & _ & H2). rewrite H2. vm_compute in H1.
      injection H1 as <-. reflexivity.
Defined.

(** The rejection of a request made before any [use] never reaches the
    host: its callback is not called. *)
Lemma request_before_use_counterexample :
  ~ (forall (R : Runtime) (o : options) (h : heap) (request_url : string),
       exists r, view_handler (initial_instance o) h request_url = Replied r).
Proof.
  intros H.
  destruct (H (posix_runtime title_action) no_options ∅ "view:///index")
    as [r Hr].
  vm_compute in Hr. discriminate Hr.
Qed.

(** The request [view:///missing] carries no [_view] key: it is correlated
    to the id [undefined], which nothing has loaded. *)
Lemma unloaded_view_renders_undefined_witness :
  let R := posix_runtime (fun _ _ _ => Calls "<p></p>") in
  let cs := [CallUse "ejs"; CallLoad 0%nat "home" (VNum 1) None] in
  let s := steps cs (initial_instance no_options, ∅) in
  snd (renderTemplate s.1 s.2 "view:///missing")
  = [("views/missing.ejs", VUndef)]
  /\ snd (renderTemplate s.1 s.2 "view:///missing?_view=missing")
     = [("views/missing.ejs", VUndef)].
Proof.
  intros R cs s. split.
  - refine (proj1 (proj2 (proj2
              (unloaded_view_renders_undefined (R := R) no_options cs ∅ s.2
                 (initial_instance no_options) s.1
                 "view:///missing" "undefined" "views/missing.ejs"
                 {| hostname := Some ""; pathname := Some "/missing";
                    query := ∅ |}
                 {| extension := Some ".ejs";
                    rendererAction := Some ejs_action;
                    name := "ejs" |}
                 ejs_action _ _ _ _ _ _ _ _ _)) _)).
    + reflexivity.
    + repeat constructor.
    + repeat constructor.
    + exact (surjective_pairing s).
    + vm_compute. reflexivity.
    + vm_compute. reflexivity.
    + vm_compute. reflexivity.
    + reflexivity.
    + vm_compute. reflexivity.
    + vm_compute. reflexivity.
  - refine (proj1 (proj2 (proj2
              (unloaded_view_renders_undefined (R := R) no_options cs ∅ s.2
                 (initial_instance no_options) s.1
                 "view:///missing?_view=missing" "missing"
                 "views/missing.ejs"
                 {| hostname := Some ""; pathname := Some "/missing";
                    query := {[ "_view" := QStr "missing" ]} |}
                 {| extension := Some ".ejs";
                    rendererAction := Some ejs_action;
                    name := "ejs" |}
                 ejs_action _ _ _ _ _ _ _ _ _)) _)).
    + reflexivity.
    + repeat constructor.
    + repeat constructor.
    + exact (surjective_pairing s).
    + vm_compute. reflexivity.
    + vm_compute. reflexivity.
    + vm_compute. reflexivity.
    + reflexivity.
    + vm_compute. reflexivity.
    + vm_compute. reflexivity.
Defined.

(** A request names its view in the path and need not carry a [_view]
    key: after a load under the id [undefined], the request for the view
    [missing], which nothing has loaded, is rendered with the data of that
    load. *)
Lemma unloaded_view_counterexample :
  ~ (forall (R : Runtime) (cs : list call) (st : instance) (h : heap)
            (v request_url : string) (parsedUrl : Url) (c : invocation),
       Forall (fun c => loads v c = false) cs ->
       steps cs (ejs_instance, ∅) = (st, h) ->
       url_parse request_url = Ok parsedUrl ->
       pathname parsedUrl = Some ("/" +:+ v) ->
       c ∈ snd (renderTemplate st h request_url) ->
       c.2 = VUndef).
Proof.
  intros H.
  pose (R := posix_runtime title_action).
  pose (cs := [CallLoad 0%nat "undefined" (VNum 7) None]).
  pose (s := steps cs (ejs_instance, ∅)).
  specialize (H R cs s.1 s.2 "missing" "view:///missing"
                {| hostname := Some ""; pathname := Some "/missing";
                   query := ∅ |}
                ("views/missing.ejs", VNum 7)).
  assert (Hc : VNum 7 = VUndef); [|discriminate Hc].
  apply H.
  - repeat constructor.
  - exact (surjective_pairing s).
  - vm_compute. reflexivity.
  - reflexivity.
  - vm_compute. left.
Qed.



(** With no entry for the request, the renderer gets [undefined], not the
    query parameters. *)
Lemma query_not_passed_counterexample :
  ~ (forall (R : Runtime) (st : instance) (h : heap) (request_url : string)
            (parsedUrl : Url) (c : invocation),
       url_parse request_url = Ok parsedUrl ->
       c ∈ snd (renderTemplate st h request_url) ->
       (c.2 = VQuery (query parsedUrl)
        <-> _views st !! to_key (query parsedUrl !! "_view") = None)).
Proof.
  intros H.
  pose (R := posix_runtime title_action).
  destruct (H R ejs_instance ∅ "view:///index?a=1"
              {| hostname := Some ""; pathname := Some "/index";
                 query := {[ "a" := QStr "1" ]} |}
              ("views/index.ejs", VUndef)) as [_ Hback].
  - vm_compute. reflexivity.
  - vm_compute. left.
  - assert (Hc : VUndef = VQuery {[ "a" := QStr "1" ]}); [|discriminate Hc].
    apply Hback. vm_compute. reflexivity.
Qed.

(** The scenario of the registry and the store together: a renderer [tpl]
    is registered and selected, a payload with a title is loaded under
    [home], and the request [load] navigates to is answered with the
    rendered title; the other parameters of its query play no part. *)
Lemma view_data_is_stored_or_undefined_witness :
  let R := posix_runtime title_action in
  let h0 : heap := {[ 7%nat := [("title", VStr "Hi")] ]} in
  let cs := [CallAdd (Some "tpl")
               (Some {| d_extension := Some ".tpl";
                        d_rendererAction := Some title_action |});
             CallUse "tpl";
             CallLoad 0 "home" (VRef 7%nat) None] in
  let s := steps cs (initial_instance no_options, h0) in
  renderTemplate s.1 s.2 "view:///home?_view=home&x=1"
  = (Resolved {| mimeType := "text/html"; data := "<h1>Hi</h1>" |},
     [("views/home.tpl", VRef 7%nat)])
  /\ prototype (_views s.1) = None
  /\ VRef 7%nat
     = match _views s.1 !! "home" with
       | Some e => if truthy (viewData e) then viewData e else VUndef
       | None => VUndef
       end.
Proof.
  intros R h0 cs s.
  assert (Hu : url_parse "view:///home?_view=home"
               = Ok {| hostname := Some ""; pathname := Some "/home";
                       query := {[ "_view" := QStr "home" ]} |})
    by (vm_compute; reflexivity).
  assert (Hu' : url_parse "view:///home?_view=home&x=1"
                = Ok {| hostname := Some ""; pathname := Some "/home";
                        query := {[ "_view" := QStr "home";
                                    "x" := QStr "1" ]} |})
    by (vm_compute; reflexivity).
  destruct (view_data_is_stored_or_undefined (R := R) s.1 s.2
              "view:///home?_view=home" _ Hu) as [Hdata Halike].
  split; [|split].
  - rewrite (Halike "view:///home?_view=home&x=1" _ Hu' eq_refl eq_refl).
    vm_compute. reflexivity.
  - reflexivity.
  - refine (Hdata eq_refl ("views/home.tpl", VRef 7%nat) _).
    vm_compute. left.
Defined.

(** ** Navigation *)

Lemma obj_get_set_eq (k : string) (v : jsval) (o : obj) :
  obj_get k (obj_set k v o) = Some v.
Proof.
  induction o as [|[k' v'] o IH]; simpl.
  - now rewrite String.eqb_refl.
  - destruct (String.eqb k k') eqn:E; simpl; rewrite E; [reflexivity | exact IH].
Qed.

Lemma obj_get_set_ne (k k0 : string) (v : jsval) (o : obj) :
  k0 <> k -> obj_get k0 (obj_set k v o) = obj_get k0 o.
Proof.
  intros Hne. induction o as [|[k' v'] o IH]; simpl.
  - destruct (String.eqb k0 k) eqn:E; [|reflexivity].
    apply String.eqb_eq in E. contradiction.
  - destruct (String.eqb k k') eqn:E; simpl.
    + apply String.eqb_eq in E. subst k'.
      destruct (String.eqb k0 k) eqn:E0; [|reflexivity].
      apply String.eqb_eq in E0. contradiction.
    + now rewrite IH.
Qed.

Section Navigation.

Context {R : Runtime}.

(** Writing [_view] into an object of the heap changes no [viewData]
    property. *)
Lemma value_viewData_set_view
    (h : heap) (q : loc) (view : string) (x : jsval) :
  value_viewData (<[q := obj_set "_view" (VStr view) (default [] (h !! q))]> h)
    x
  = value_viewData h x.
Proof.
  destruct x as [| | | | |l| |]; try reflexivity.
  unfold value_viewData. destruct (decide (l = q)) as [->|Hl].
  - rewrite lookup_insert_eq. cbn [mbind option_bind].
    rewrite obj_get_set_ne by discriminate.
    now destruct (h !! q).
  - now rewrite lookup_insert_ne by congruence.
Qed.

(** [load] under a view id other than [__proto__], with a caller-supplied
    [query] object: [view] is written under the [_view] key of that very
    object, before the URL is composed from it, and its other keys and
    every other object are left alone; the store then reads under [view]
    an entry wrapping the payload, every request correlated to another id
    reads what it read before, and the registry and the selection are
    left alone. *)
Theorem load_frame
    (browserWindow : nat) (view : string) (payload : jsval) (q : loc)
    (o : obj) (st st' : instance) (h h' : heap) (nav : nat * string) :
  h !! q = Some o ->
  view <> "__proto__" ->
  load browserWindow view payload (Some q) st h = (st', h', nav) ->
  let o' := obj_set "_view" (VStr view) o in
  h' !! q = Some o'
  /\ obj_get "_view" o' = Some (VStr view)
  /\ (forall k, k <> "_view" -> obj_get k o' = obj_get k o)
  /\ (forall l, l <> q -> h' !! l = h !! l)
  /\ nav = (browserWindow,
            url_format {| o_pathname := view; o_protocol := "view:";
                          o_query := o'; o_slashes := true |})
  /\ _views st' !! view = Some {| viewData := payload |}
  /\ (forall parsedUrl,
        to_key (query parsedUrl !! "_view") = view ->
        lookup_viewData st' h' parsedUrl
        = if truthy payload then payload else VUndef)
  /\ (forall parsedUrl,
        to_key (query parsedUrl !! "_view") <> view ->
        lookup_viewData st' h' parsedUrl = lookup_viewData st h parsedUrl)
  /\ _renderers st' = _renderers st
  /\ _currentRenderer st' = _currentRenderer st.
Proof.
  intros Hq Hview Hload o'. unfold load in Hload. cbv zeta in Hload.
  injection Hload as <- <- <-.
  rewrite !lookup_insert_eq, Hq. simpl. fold o'.
  split; [reflexivity|].
  split; [apply obj_get_set_eq|].
  split; [intros k Hk; now apply obj_get_set_ne|].
  split; [intros l Hl; now apply lookup_insert_ne|].
  split; [reflexivity|].
  split; [apply store_lookup_insert_eq|].
  split.
  { intros parsedUrl Hk.
    apply (lookup_viewData_bound _ _ parsedUrl view payload Hk).
    apply store_lookup_insert_eq. }
  split; [|split; reflexivity].
  intros parsedUrl Hk. unfold lookup_viewData. cbv zeta.
  cbn [set_views _views].
  rewrite store_lookup_insert_ne by congruence.
  rewrite store_prototype_insert_ne by exact Hview.
  destruct (_views st !! to_key (query parsedUrl !! "_view")); [reflexivity|].
  destruct (String.eqb _ "viewData"); [|reflexivity].
  destruct (prototype (_views st)) as [proto|]; [|reflexivity].
  pose proof (value_viewData_set_view h q view (viewData proto)) as Hval.
  rewrite Hq in Hval. cbn [default from_option] in Hval.
  change (id o) with o in Hval. fold o' in Hval.
  now rewrite Hval.
Qed.

End Navigation.

(** The caller's query object, also kept as the payload, after [load]. *)
Lemma load_frame_witness :
  let R := posix_runtime title_action in
  let h : heap := {[ 3%nat := [("tab", VStr "a")]; 4%nat := [] ]} in
  let r := load 0 "home" (VRef 3%nat) (Some 3%nat) ejs_instance h in
  r.1.2 !! 3%nat = Some [("tab", VStr "a"); ("_view", VStr "home")]
  /\ r.2 = (0%nat, "view:///home?tab=a&_view=home")
  /\ _views r.1.1 !! "home" = Some {| viewData := VRef 3%nat |}.
Proof.
  intros R h r.
  destruct (load_frame (R := R) 0 "home" (VRef 3%nat) 3%nat
              [("tab", VStr "a")] ejs_instance r.1.1 h r.1.2 r.2)
    as (H1 & _ & _ & _ & H5 & H6 & _).
  - reflexivity.
  - discriminate.
  - reflexivity.
  - split; [exact H1|]. split; [|exact H6].
    rewrite H5. vm_compute. reflexivity.
Defined.

(** C10. Under the view id [__proto__] the assignment [load] makes does
    not create an entry: it replaces the prototype of the store. On an
    instance that has loaded nothing, a request correlated to the id
    [viewData] is rendered with [undefined]; after
    [load(w, '__proto__', {viewData: 'inner'})] the store has no more own
    properties than before, and the same request is rendered with
    ['inner'], though nothing was loaded under [viewData]: what the store
    reads under another id has changed. *)
Theorem load_under_proto_changes_another_id :
  let R := posix_runtime title_action in
  let h : heap := {[ 5%nat := [("viewData", VStr "inner")] ]} in
  let r := load 0 "__proto__" (VRef 5%nat) None ejs_instance h in
  own (_views r.1.1) = own (_views ejs_instance)
  /\ prototype (_views ejs_instance) = None
  /\ prototype (_views r.1.1) = Some {| viewData := VRef 5%nat |}
  /\ snd (renderTemplate ejs_instance h "view:///page?_view=viewData")
     = [("views/page.ejs", VUndef)]
  /\ snd (renderTemplate r.1.1 r.1.2 "view:///page?_view=viewData")
     = [("views/page.ejs", VStr "inner")].
Proof.
  intros R h r. repeat split; vm_compute; reflexivity.
Qed.

(** ** The path resolver on the concrete runtime *)

Lemma append_nil (b : string) : "" +:+ b = b.
Proof. reflexivity. Qed.

Lemma append_cons (c : ascii) (a b : string) :
  String c a +:+ b = String c (a +:+ b).
Proof. reflexivity. Qed.

Lemma break_at_free (stop : ascii -> bool) (a b : string) :
  (forall c, In c (list_ascii_of_string a) -> stop c = false) ->
  NodeUrl.break_at stop (a +:+ b)
  = (a +:+ (NodeUrl.break_at stop b).1, (NodeUrl.break_at stop b).2).
Proof.
  induction a as [|c a IH]; intros Hfree.
  - rewrite !append_nil. now destruct (NodeUrl.break_at stop b).
  - rewrite !append_cons. simpl. rewrite (Hfree c) by (simpl; now left).
    rewrite IH by (intros c' Hc'; apply Hfree; simpl; now right).
    reflexivity.
Qed.

Lemma break_at_stop (stop : ascii -> bool) (c : ascii) (b : string) :
  stop c = true -> NodeUrl.break_at stop (String c b) = (""%string, String c b).
Proof. intros H. simpl. now rewrite H. Qed.

Lemma plain_chars (s : string) (c : ascii) :
  plain s = true -> In c (list_ascii_of_string s) -> plain_char c = true.
Proof.
  induction s as [|c' s IH]; simpl; [contradiction|].
  intros H [<-|Hin]; apply andb_true_iff in H as [H1 H2]; auto.
Qed.

(** A plain character is none of [?], [#], [%] and is not white space. *)
Lemma plain_char_ordinary (c : ascii) :
  plain_char c = true ->
  Ascii.eqb c "?" = false /\ Ascii.eqb c "#" = false
  /\ Ascii.eqb c "%" = false /\ is_space c = false.
Proof.
  destruct c as [[] [] [] [] [] [] [] []]; intros H; vm_compute in H;
    try discriminate H; vm_compute; repeat split.
Qed.

Lemma plain_char_no_stop (c : ascii) :
  plain_char c = true ->
  Ascii.eqb "?" c = false /\ Ascii.eqb "#" c = false.
Proof.
  intros H. rewrite !(Ascii.eqb_sym _ c).
  destruct (plain_char_ordinary c H) as (-> & -> & _). auto.
Qed.

Lemma escape_path_plain (s : string) :
  plain s = true -> NodeUrl.escape_path s = s.
Proof.
  induction s as [|c s IH]; simpl; [reflexivity|].
  intros H. apply andb_true_iff in H as [Hc Hs].
  destruct (plain_char_ordinary c Hc) as (-> & -> & _). simpl.
  now rewrite IH.
Qed.

Lemma replace_spaces_plain (s : string) :
  plain s = true -> replace_spaces s = s.
Proof.
  induction s as [|c s IH]; simpl; [reflexivity|].
  intros H. apply andb_true_iff in H as [Hc Hs].
  destruct (plain_char_ordinary c Hc) as (_ & _ & Hpct & ->).
  rewrite (IH Hs).
  destruct c as [[] [] [] [] [] [] [] []]; try reflexivity.
  vm_compute in Hpct. discriminate Hpct.
Qed.

Lemma append_empty (s : string) : s +:+ "" = s.
Proof.
  induction s as [|c s IH]; [reflexivity|].
  rewrite append_cons. now rewrite IH.
Qed.

Lemma in_append (a b : string) (c : ascii) :
  In c (list_ascii_of_string (a +:+ b)) ->
  In c (list_ascii_of_string a) \/ In c (list_ascii_of_string b).
Proof.
  induction a as [|x a IH]; [now right|].
  rewrite append_cons. simpl. intros [<-|H]; [left; now left|].
  destruct (IH H); [left; now right | now right].
Qed.

Lemma break_at_none (stop : ascii -> bool) (s : string) :
  (forall c, In c (list_ascii_of_string s) -> stop c = false) ->
  NodeUrl.break_at stop s = (s, ""%string).
Proof.
  intros H. rewrite <- (append_empty s) at 1.
  rewrite break_at_free by exact H. simpl. now rewrite append_empty.
Qed.

(** *** Strings [url.parse] leaves as they are *)

Lemma string_forall_cons (p : ascii -> bool) (c : ascii) (s : string) :
  NodeUrl.string_forall p (String c s) = p c && NodeUrl.string_forall p s.
Proof. reflexivity. Qed.

Lemma string_forall_app (p : ascii -> bool) (a b : string) :
  NodeUrl.string_forall p (a +:+ b)
  = NodeUrl.string_forall p a && NodeUrl.string_forall p b.
Proof.
  induction a as [|c a IH]; [reflexivity|].
  rewrite append_cons, !string_forall_cons, IH. now rewrite andb_assoc.
Qed.

Lemma string_forall_in (p : ascii -> bool) (s : string) (c : ascii) :
  NodeUrl.string_forall p s = true -> In c (list_ascii_of_string s) ->
  p c = true.
Proof.
  unfold NodeUrl.string_forall. intros H Hc.
  exact (proj1 (forallb_forall p _) H c Hc).
Qed.

Lemma string_forall_impl (p q : ascii -> bool) (s : string) :
  (forall c, p c = true -> q c = true) ->
  NodeUrl.string_forall p s = true -> NodeUrl.string_forall q s = true.
Proof.
  intros Hpq. induction s as [|c s IH]; [reflexivity|].
  rewrite !string_forall_cons. intros H.
  apply andb_true_iff in H as [Hc Hs]. now rewrite (Hpq c Hc), IH.
Qed.

Lemma tidy_char_facts (c : ascii) :
  tidy_char c = true ->
  NodeUrl.is_ws c = false /\ NodeUrl.autoEscapeChar c = false
  /\ Ascii.eqb c "\" = false.
Proof.
  destruct c as [[] [] [] [] [] [] [] []]; intros H; vm_compute in H;
    try discriminate H; vm_compute; repeat split.
Qed.

Lemma path_char_facts (c : ascii) :
  path_char c = true ->
  tidy_char c = true /\ NodeUrl.split_char c = false
  /\ Ascii.eqb "?" c = false /\ Ascii.eqb "#" c = false.
Proof.
  destruct c as [[] [] [] [] [] [] [] []]; intros H; vm_compute in H;
    try discriminate H; vm_compute; repeat split.
Qed.

Lemma query_char_facts (c : ascii) :
  query_char c = true -> tidy_char c = true /\ Ascii.eqb "#" c = false.
Proof.
  destruct c as [[] [] [] [] [] [] [] []]; intros H; vm_compute in H;
    try discriminate H; vm_compute; repeat split.
Qed.

Lemma plain_char_path (c : ascii) : plain_char c = true -> path_char c = true.
Proof.
  destruct c as [[] [] [] [] [] [] [] []]; intros H; vm_compute in H;
    try discriminate H; reflexivity.
Qed.

Lemma plain_path_chars (s : string) : plain s = true -> path_chars s = true.
Proof.
  induction s as [|c s IH]; [reflexivity|]. simpl. intros H.
  apply andb_true_iff in H as [Hc Hs]. unfold path_chars.
  rewrite string_forall_cons, (plain_char_path c Hc). now apply IH.
Qed.

Lemma path_chars_tidy (s : string) : path_chars s = true -> tidy s = true.
Proof.
  apply string_forall_impl. intros c Hc. apply (path_char_facts c Hc).
Qed.

Lemma query_chars_tidy (s : string) : query_chars s = true -> tidy s = true.
Proof.
  apply string_forall_impl. intros c Hc. apply (query_char_facts c Hc).
Qed.

Lemma rtrim_cons (c : ascii) (s : string) :
  NodeUrl.is_ws c = false ->
  NodeUrl.rtrim (String c s) = String c (NodeUrl.rtrim s).
Proof. intros H. simpl. rewrite H. now destruct (NodeUrl.rtrim s). Qed.

Lemma rtrim_tidy_app (a b : string) :
  tidy a = true -> NodeUrl.rtrim (a +:+ b) = a +:+ NodeUrl.rtrim b.
Proof.
  induction a as [|c a IH]; intros H; [reflexivity|].
  unfold tidy in H. rewrite string_forall_cons in H.
  apply andb_true_iff in H as [Hc Ha].
  rewrite !append_cons, rtrim_cons by apply (tidy_char_facts c Hc).
  now rewrite IH.
Qed.

Lemma rtrim_tidy (s : string) : tidy s = true -> NodeUrl.rtrim s = s.
Proof.
  intros H. rewrite <- (append_empty s) at 1.
  rewrite rtrim_tidy_app by exact H. apply append_empty.
Qed.

Lemma slashes_forward_path_app (a b : string) :
  path_chars a = true ->
  NodeUrl.slashes_forward (a +:+ b) = a +:+ NodeUrl.slashes_forward b.
Proof.
  induction a as [|c a IH]; intros H; [reflexivity|].
  unfold path_chars in H. rewrite string_forall_cons in H.
  apply andb_true_iff in H as [Hc Ha].
  destruct (path_char_facts c Hc) as (Ht & Hsplit & _).
  destruct (tidy_char_facts c Ht) as (_ & _ & Hback).
  rewrite !append_cons. cbn [NodeUrl.slashes_forward].
  rewrite Hsplit, Hback. now rewrite IH.
Qed.

Lemma autoEscapeStr_tidy_app (a b : string) :
  tidy a = true ->
  NodeUrl.autoEscapeStr (a +:+ b) = a +:+ NodeUrl.autoEscapeStr b.
Proof.
  induction a as [|c a IH]; intros H; [reflexivity|].
  unfold tidy in H. rewrite string_forall_cons in H.
  apply andb_true_iff in H as [Hc Ha].
  destruct (tidy_char_facts c Hc) as (_ & Hesc & _).
  rewrite !append_cons. cbn [NodeUrl.autoEscapeStr].
  rewrite Hesc. now rewrite IH.
Qed.

Lemma autoEscapeStr_tidy (s : string) :
  tidy s = true -> NodeUrl.autoEscapeStr s = s.
Proof.
  intros H. rewrite <- (append_empty s) at 1.
  rewrite autoEscapeStr_tidy_app by exact H. apply append_empty.
Qed.

(** A search string stays one when it is trimmed and escaped. *)
Lemma search_kept (search : string) :
  (search = "" \/ exists q, search = String "?" q) ->
  NodeUrl.slashes_forward (NodeUrl.rtrim search) = NodeUrl.rtrim search
  /\ (NodeUrl.autoEscapeStr (NodeUrl.rtrim search) = ""
      \/ exists q, NodeUrl.autoEscapeStr (NodeUrl.rtrim search) = String "?" q).
Proof.
  intros [->|[q ->]]; [split; [reflexivity | now left]|].
  rewrite rtrim_cons by reflexivity. split; [reflexivity|].
  right. cbn [NodeUrl.autoEscapeStr].
  change (NodeUrl.autoEscapeChar "?") with false. cbv iota. eauto.
Qed.

Lemma simplePath_none (c : ascii) (s : string) :
  c <> "/"%char -> NodeUrl.simplePath (String c s) = None.
Proof.
  destruct c as [[] [] [] [] [] [] [] []]; intros H; try reflexivity.
  now contradiction H.
Qed.

(** A URL that does not begin with a slash and whose part before the
    search string is left as it is goes through the full parser, with
    its search string trimmed. *)
Lemma parse_tidy (c : ascii) (a search : string) :
  c <> "/"%char ->
  path_chars (String c a) = true ->
  (search = "" \/ exists q, search = String "?" q) ->
  NodeUrl.parse (String c a +:+ search)
  = NodeUrl.parse_full (String c a +:+ NodeUrl.rtrim search).
Proof.
  intros Hc Ha Hs. unfold NodeUrl.parse.
  assert (Hl : NodeUrl.ltrim (String c a +:+ search) = String c a +:+ search).
  { rewrite append_cons. cbn [NodeUrl.ltrim].
    unfold path_chars in Ha. rewrite string_forall_cons in Ha.
    apply andb_true_iff in Ha as [Ha _].
    destruct (path_char_facts c Ha) as (Ht & _).
    now destruct (tidy_char_facts c Ht) as (-> & _). }
  rewrite Hl, (rtrim_tidy_app _ _ (path_chars_tidy _ Ha)).
  rewrite (slashes_forward_path_app _ _ Ha).
  destruct (search_kept search Hs) as [-> _].
  rewrite append_cons, (simplePath_none c _ Hc).
  now destruct (_ || _).
Qed.

Lemma parse_tidy_whole (c : ascii) (a : string) :
  c <> "/"%char ->
  path_chars (String c a) = true ->
  NodeUrl.parse (String c a) = NodeUrl.parse_full (String c a).
Proof.
  intros Hc Ha.
  pose proof (parse_tidy c a "" Hc Ha (or_introl eq_refl)) as H.
  cbn [NodeUrl.rtrim] in H. now rewrite append_empty in H.
Qed.

(** The path of a URL ends at the first [?], its search string at the
    first [#]. *)
Lemma take_path_shape (r search : string) :
  path_chars r = true ->
  (search = "" \/ exists q, search = String "?" q) ->
  NodeUrl.take_path (r +:+ search)
  = (r, (NodeUrl.break_at (Ascii.eqb "#") search).1).
Proof.
  intros Hr Hs. unfold NodeUrl.take_path.
  rewrite break_at_free.
  2:{ intros c Hc. apply (string_forall_in _ r c Hr) in Hc.
      apply (path_char_facts c Hc). }
  cbn [fst].
  rewrite break_at_free.
  2:{ intros c Hc. apply (string_forall_in _ r c Hr) in Hc.
      apply (path_char_facts c Hc). }
  destruct Hs as [-> | [q ->]].
  - cbn. now rewrite append_empty.
  - cbn. destruct (NodeUrl.break_at (Ascii.eqb "#") q) as [x y].
    cbn. now rewrite append_empty.
Qed.

Lemma after_scheme_view (x : string) :
  NodeUrl.after_scheme ("view://" +:+ x) = (Some "view:", "//" +:+ x).
Proof. reflexivity. Qed.

Lemma take_host_empty (x : string) :
  NodeUrl.take_host (Some "view:") ("//" +:+ String "/" x)
  = Ok (Some "", String "/" x).
Proof. reflexivity. Qed.

(** What [url.parse] reads in a view URL without a host. *)
Lemma parse_view (r search : string) :
  path_chars r = true ->
  (search = "" \/ exists q, search = String "?" q) ->
  NodeUrl.parse ("view://" +:+ String "/" r +:+ search)
  = Ok {| hostname := Some ""; pathname := Some (String "/" r);
          query :=
            NodeUrl.qs_parse
              (string_drop 1
                 (NodeUrl.break_at (Ascii.eqb "#")
                    (NodeUrl.autoEscapeStr (NodeUrl.rtrim search))).1) |}.
Proof.
  intros Hr Hs.
  change ("view://" +:+ String "/" r +:+ search)
    with (String "v" ("iew:///" +:+ r) +:+ search).
  rewrite parse_tidy; [|discriminate|exact Hr|exact Hs].
  unfold NodeUrl.parse_full.
  change (String "v" ("iew:///" +:+ r) +:+ NodeUrl.rtrim search)
    with ("view://" +:+ String "/" (r +:+ NodeUrl.rtrim search)).
  rewrite after_scheme_view. cbv beta iota.
  rewrite take_host_empty. cbv beta iota.
  change (from_option NodeUrl.unsafeProtocol false (Some "view:")) with false.
  cbv iota.
  change (String "/" (r +:+ NodeUrl.rtrim search))
    with (String "/" r +:+ NodeUrl.rtrim search).
  assert (Hpath : path_chars (String "/" r) = true) by exact Hr.
  rewrite (autoEscapeStr_tidy_app _ _ (path_chars_tidy _ Hpath)).
  rewrite (take_path_shape _ _ Hpath (proj2 (search_kept search Hs))).
  reflexivity.
Qed.

(** What [url.parse] reads back from a URL of [load]. *)
Lemma parse_slash_path (r search : string) :
  plain r = true ->
  (search = "" \/ exists s, search = String "?" s) ->
  exists u,
    NodeUrl.parse ("view://" +:+ String "/" r +:+ search) = Ok u
    /\ hostname u = Some "" /\ pathname u = Some (String "/" r).
Proof.
  intros Hr Hs. rewrite (parse_view r search (plain_path_chars r Hr) Hs).
  eexists. split; [reflexivity|]. simpl. auto.
Qed.

Lemma search_shape (o : obj) :
  let search := if String.eqb (NodeUrl.qs_stringify o) "" then ""
                else "?" +:+ NodeUrl.qs_stringify o in
  search = "" \/ exists s, search = String "?" s.
Proof.
  simpl. destruct (String.eqb _ _); [now left | right; eauto].
Qed.

Lemma substr_1 (r : string) : substr (String "/" r) 1 = r.
Proof.
  unfold substr. simpl String.length.
  destruct (Z.ltb_spec 1 0) as [H|_]; [lia|].
  rewrite Z.min_l by lia. reflexivity.
Qed.

Lemma prefix_slash_cases (p : string) :
  p <> "" ->
  (String.prefix "/" p = true /\ exists p0, p = String "/" p0)
  \/ String.prefix "/" p = false.
Proof.
  destruct p as [|c p0]; [contradiction|]. intros _.
  cbn [String.prefix]. destruct (ascii_dec "/" c) as [<-|_].
  - left. split; [now destruct p0 | now exists p0].
  - now right.
Qed.

Section Resolver.

Variables (platform_win32 : bool) (join : list string -> string)
          (ejs : action).

Let R : Runtime := node_runtime platform_win32 join ejs.

(** C8, as the code has it. For a non-empty path of plain characters, the
    path resolver applied to the URL [load] composes gives the path back
    without its leading [/] on [win32], and with a leading [/] on every
    other platform. *)
Theorem resolve_format_roundtrip
    (w : nat) (p : string) (payload : jsval) (q : option loc)
    (st : instance) (h : heap) :
  plain p = true ->
  p <> "" ->
  parseFilePath (R := R) (load (R := R) w p payload q st h).2.2
  = Ok (if platform_win32
        then if String.prefix "/" p then string_drop 1 p else p
        else if String.prefix "/" p then p else "/" +:+ p).
Proof.
  intros Hp Hne.
  set (o := default [] (<[match q with Some l => l | None => fresh (dom h) end
                          := obj_set "_view" (VStr p)
                               (default [] (h !! match q with
                                                 | Some l => l
                                                 | None => fresh (dom h)
                                                 end))]> h
                        !! match q with Some l => l | None => fresh (dom h) end)).
  change ((load (R := R) w p payload q st h).2.2) with (view_url p o).
  assert (Hshape : exists r,
             plain r = true
             /\ (if String.prefix "/" p then p else "/" +:+ p) = String "/" r
             /\ (if String.prefix "/" p then string_drop 1 p else p) = r).
  { destruct (prefix_slash_cases p Hne) as [[-> [p0 ->]] | ->].
    - exists p0. simpl in Hp. auto.
    - exists p. auto. }
  destruct Hshape as (r & Hr & Hslash & Hdrop).
  assert (Hurl : view_url p o
                 = "view://" +:+ String "/" r
                   +:+ (if String.eqb (NodeUrl.qs_stringify o) "" then ""
                        else "?" +:+ NodeUrl.qs_stringify o)).
  { unfold view_url, NodeUrl.format.
    cbn [o_protocol o_slashes o_pathname o_query].
    change (negb (String.eqb "view:" "") && negb (NodeUrl.last_is_colon "view:"))
      with false. cbv iota zeta.
    replace (if negb (String.eqb p "") && negb (String.prefix "/" p)
             then "/" +:+ p else p)
      with (String "/" r).
    - rewrite (escape_path_plain (String "/" r)) by (simpl; exact Hr).
      reflexivity.
    - rewrite <- Hslash.
      destruct (String.eqb_spec p "") as [->|_]; [contradiction|].
      now destruct (String.prefix "/" p). }
  destruct (parse_slash_path r _ Hr (search_shape o))
    as (u & Hparse & _ & Hpath).
  unfold parseFilePath. simpl url_parse. rewrite Hurl, Hparse, Hpath.
  simpl win32. rewrite Hslash, Hdrop.
  destruct platform_win32.
  - rewrite substr_1. now rewrite replace_spaces_plain.
  - rewrite (replace_spaces_plain (String "/" r)) by (simpl; exact Hr).
    reflexivity.
Qed.

End Resolver.

Lemma resolve_format_roundtrip_witness :
  let R := node_runtime true PosixPath.join title_action in
  parseFilePath (load 0 "index" VUndef None ejs_instance ∅).2.2 = Ok "index".
Proof.
  intros R.
  exact (resolve_format_roundtrip true PosixPath.join title_action 0 "index"
           VUndef None ejs_instance ∅ eq_refl ltac:(discriminate)).
Defined.

(** Off [win32] the resolver keeps the [/] that [url.format] put in front
    of the path. *)
Lemma resolve_format_counterexample :
  ~ (forall (platform_win32 : bool) (join : list string -> string)
            (p : string) (q : obj),
       plain p = true ->
       parseFilePath (R := node_runtime platform_win32 join title_action)
         (view_url p q) = Ok p).
Proof.
  intros H.
  specialize (H false PosixPath.join "index" [("_view", VStr "index")]
                eq_refl).
  vm_compute in H. discriminate H.
Qed.

(** ** Assets *)

Section Assets.

Context {R : Runtime}.

(** The asset handler answers with [path.join] of the assets root, the
    host of the URL and the path the resolver decodes from it. *)
Lemma asset_handler_composes
    (st : instance) (request_url : string) (parsedUrl : Url)
    (host p : string) :
  url_parse request_url = Ok parsedUrl ->
  hostname parsedUrl = Some host ->
  pathname parsedUrl = Some p ->
  asset_handler st request_url
  = Ok (path_join [_assetsPath st; host;
                   replace_spaces (if win32 then substr p 1 else p)]).
Proof.
  intros Hu Hh Hp. unfold asset_handler, parseFilePath.
  now rewrite Hu, Hh, Hp.
Qed.

End Assets.


(** ** Paths on the concrete runtime *)

Lemma append_assoc (a b c : string) : (a +:+ b) +:+ c = a +:+ (b +:+ c).
Proof.
  induction a as [|x a IH]; [reflexivity|].
  rewrite !append_cons. now rewrite IH.
Qed.

Lemma segment_char_no_slash (c : ascii) :
  segment_char c = true -> Ascii.eqb c "/" = false /\ plain_char c = true.
Proof.
  unfold segment_char. intros H. apply andb_true_iff in H as [H1 H2].
  apply negb_true_iff in H2. auto.
Qed.

Lemma split_on_free (x : string) :
  segment_chars x = true -> NodeUrl.split_on "/" x = [x].
Proof.
  induction x as [|c x IH]; [reflexivity|].
  simpl. intros H. apply andb_true_iff in H as [Hc Hx].
  destruct (segment_char_no_slash c Hc) as [-> _].
  now rewrite (IH Hx).
Qed.

Lemma split_on_cons (x rest : string) :
  segment_chars x = true ->
  NodeUrl.split_on "/" (x +:+ String "/" rest)
  = x :: NodeUrl.split_on "/" rest.
Proof.
  induction x as [|c x IH]; [reflexivity|].
  intros H. simpl in H. apply andb_true_iff in H as [Hc Hx].
  rewrite append_cons. simpl.
  destruct (segment_char_no_slash c Hc) as [-> _].
  now rewrite (IH Hx).
Qed.

Lemma concat_cons (x y : string) (l : list string) :
  String.concat "/" (x :: y :: l) = x +:+ String "/" (String.concat "/" (y :: l)).
Proof. reflexivity. Qed.

Lemma split_concat (segs : list string) :
  segs <> [] ->
  Forall (fun x => segment_chars x = true) segs ->
  NodeUrl.split_on "/" (String.concat "/" segs) = segs.
Proof.
  intros Hne H. induction H as [|x l Hx Hl IH]; [contradiction|].
  destruct l as [|y l].
  - simpl. now apply split_on_free.
  - rewrite concat_cons, split_on_cons by exact Hx.
    now rewrite IH.
Qed.

Lemma concat_app (xs ys : list string) :
  xs <> [] -> ys <> [] ->
  String.concat "/" (xs ++ ys)%list
  = String.concat "/" xs +:+ String "/" (String.concat "/" ys).
Proof.
  intros Hx Hy. induction xs as [|x xs IH]; [contradiction|].
  destruct xs as [|x' xs].
  - destruct ys as [|y ys]; [contradiction|]. reflexivity.
  - change (String.concat "/" ((x :: x' :: xs) ++ ys)%list)
      with (x +:+ String "/" (String.concat "/" ((x' :: xs) ++ ys)%list)).
    rewrite concat_cons.
    rewrite IH by discriminate.
    rewrite append_assoc, append_cons. reflexivity.
Qed.

Lemma proper_segment_tests (s : string) :
  proper_segment s = true ->
  segment_chars s = true /\ String.eqb s "" = false
  /\ String.eqb s "." = false /\ String.eqb s ".." = false.
Proof.
  unfold proper_segment. intros H.
  apply andb_true_iff in H as [H H4]. apply andb_true_iff in H as [H H3].
  apply andb_true_iff in H as [H1 H2].
  apply negb_true_iff in H2, H3, H4. auto.
Qed.

Lemma normalize_segments_proper (b : bool) (segs acc : list string) :
  Forall (fun s => s = "" \/ proper_segment s = true) segs ->
  PosixPath.normalize_segments b segs acc
  = (rev acc ++ List.filter PosixPath.nonempty segs)%list.
Proof.
  intros H. revert acc. induction H as [|s l Hs Hl IH]; intros acc.
  - simpl. now rewrite app_nil_r.
  - simpl. destruct Hs as [-> | Hs].
    + simpl. apply IH.
    + destruct (proper_segment_tests s Hs) as (_ & H1 & H2 & H3).
      unfold PosixPath.nonempty at 1. rewrite H1, H2, H3. simpl.
      rewrite IH. simpl. now rewrite <- app_assoc.
Qed.

Lemma string_drop_add (a b : string) (n : nat) :
  string_drop (String.length a + n) (a +:+ b) = string_drop n b.
Proof. induction a as [|c a IH]; [reflexivity | exact IH]. Qed.

(** The last character of a string is the last character of its
    non-empty tail. *)
Lemma substr_last (a b : string) :
  b <> "" -> substr (a +:+ b) (-1) = substr b (-1).
Proof.
  intros Hb. unfold substr. rewrite string_length_app.
  assert (Hlen : (1 <= String.length b)%nat)
    by (destruct b; [contradiction | simpl; lia]).
  change (-1 <? 0) with true. cbv iota.
  rewrite !Z.max_l by lia.
  replace (Z.to_nat (Z.of_nat (String.length a + String.length b) + -1))
    with (String.length a + (String.length b - 1))%nat by lia.
  replace (Z.to_nat (Z.of_nat (String.length b) + -1))
    with (String.length b - 1)%nat by lia.
  apply string_drop_add.
Qed.

Lemma string_drop_segment (s : string) (n : nat) :
  segment_chars s = true -> (n < String.length s)%nat ->
  exists c t, string_drop n s = String c t /\ segment_char c = true.
Proof.
  revert s. induction n as [|n IH]; intros [|c s] Hs Hn; simpl in Hn;
    try lia; simpl in Hs; apply andb_true_iff in Hs as [Hc Hs].
  - exists c, s. auto.
  - apply (IH s Hs). lia.
Qed.

Lemma eqb_slash (c : ascii) (t : string) :
  segment_char c = true -> String.eqb (String c t) "/" = false.
Proof.
  intros Hc. destruct (segment_char_no_slash c Hc) as [H _].
  simpl. now rewrite H.
Qed.

Lemma prefix_slash_false (c : ascii) (t : string) :
  segment_char c = true -> String.prefix "/" (String c t) = false.
Proof.
  intros Hc. destruct (segment_char_no_slash c Hc) as [H _].
  cbn [String.prefix]. destruct (ascii_dec "/" c) as [<-|_]; [|reflexivity].
  discriminate H.
Qed.

Lemma no_trailing_slash (s : string) :
  proper_segment s = true -> String.eqb (substr s (-1)) "/" = false.
Proof.
  intros H. destruct (proper_segment_tests s H) as (Hs & Hne & _).
  apply String.eqb_neq in Hne.
  assert (Hlen : (1 <= String.length s)%nat)
    by (destruct s; [contradiction | simpl; lia]).
  unfold substr. change (-1 <? 0) with true. cbv iota.
  rewrite Z.max_l by lia.
  destruct (string_drop_segment s (Z.to_nat (Z.of_nat (String.length s) + -1)) Hs)
    as (c & t & -> & Hc); [lia|].
  now apply eqb_slash.
Qed.

Lemma concat_head (x : string) (l : list string) :
  proper_segment x = true ->
  exists c t, String.concat "/" (x :: l) = String c t /\ segment_char c = true.
Proof.
  intros H. destruct (proper_segment_tests x H) as (Hs & Hne & _).
  destruct x as [|c x]; [discriminate Hne|].
  simpl in Hs. apply andb_true_iff in Hs as [Hc _].
  destruct l as [|y l].
  - exists c, x. auto.
  - rewrite concat_cons, append_cons. eauto.
Qed.

Lemma filter_proper (l : list string) :
  Forall (fun s => proper_segment s = true) l ->
  List.filter PosixPath.nonempty l = l.
Proof.
  induction 1 as [|s l Hs _ IH]; [reflexivity|].
  destruct (proper_segment_tests s Hs) as (_ & H1 & _).
  simpl. unfold PosixPath.nonempty at 1. rewrite H1. simpl. now rewrite IH.
Qed.

(** [path.normalize] on a relative path that has no [.] and [..] and does
    not end with a separator: the empty segments go. *)
Lemma normalize_relative (x l : string) (mid : list string) :
  proper_segment x = true ->
  proper_segment l = true ->
  Forall segment_or_empty mid ->
  PosixPath.normalize (String.concat "/" (x :: mid ++ [l])%list)
  = String.concat "/" (x :: List.filter PosixPath.nonempty mid ++ [l])%list.
Proof.
  intros Hx Hl Hmid. unfold PosixPath.normalize.
  destruct (concat_head x (mid ++ [l]) Hx) as (c & t & Hj & Hc).
  destruct (concat_head x (List.filter PosixPath.nonempty mid ++ [l]) Hx)
    as (c' & t' & Hr & Hc').
  assert (Htrail : String.eqb
                     (substr (String.concat "/" (x :: mid ++ [l])%list) (-1))
                     "/" = false).
  { change (x :: mid ++ [l])%list with ((x :: mid) ++ [l])%list.
    rewrite concat_app by discriminate.
    rewrite substr_last by discriminate.
    change (String "/" (String.concat "/" [l])) with ("/" +:+ l).
    rewrite substr_last.
    - now apply no_trailing_slash.
    - destruct (proper_segment_tests l Hl) as (_ & H & _).
      now apply String.eqb_neq. }
  rewrite Htrail.
  assert (Hsegs : NodeUrl.split_on "/" (String.concat "/" (x :: mid ++ [l])%list)
                  = (x :: mid ++ [l])%list).
  { apply split_concat; [discriminate|].
    constructor; [apply (proper_segment_tests x Hx)|].
    apply Forall_app. split.
    - eapply Forall_impl; [exact Hmid|]. intros s [-> | Hs]; [reflexivity|].
      apply (proper_segment_tests s Hs).
    - constructor; [apply (proper_segment_tests l Hl) | constructor]. }
  rewrite Hsegs.
  rewrite normalize_segments_proper.
  2:{ constructor; [now right|]. apply Forall_app. split; [exact Hmid|].
      constructor; [now right | constructor]. }
  assert (Hfilter : List.filter PosixPath.nonempty (x :: mid ++ [l])%list
                    = (x :: List.filter PosixPath.nonempty mid ++ [l])%list).
  { destruct (proper_segment_tests x Hx) as (_ & H1 & _).
    destruct (proper_segment_tests l Hl) as (_ & H2 & _).
    simpl. unfold PosixPath.nonempty at 1. rewrite H1. simpl.
    rewrite List.filter_app. simpl. unfold PosixPath.nonempty at 2.
    rewrite H2. reflexivity. }
  simpl rev. rewrite app_nil_l, Hfilter.
  rewrite Hj, Hr.
  rewrite (prefix_slash_false c t Hc). simpl.
  reflexivity.
Qed.

Lemma normalize_joined (rs hs ps : list string) :
  rs <> [] -> ps <> [] ->
  Forall (fun s => proper_segment s = true) rs ->
  Forall (fun s => proper_segment s = true) hs ->
  Forall (fun s => proper_segment s = true) ps ->
  PosixPath.normalize (String.concat "/" (rs ++ hs ++ "" :: ps)%list)
  = String.concat "/" (rs ++ hs ++ ps)%list.
Proof.
  intros Hrs Hps Frs Fhs Fps.
  destruct rs as [|x rs']; [contradiction|].
  destruct (exists_last Hps) as (ps' & l & ->).
  apply Forall_cons_iff in Frs as [Hx Frs'].
  apply Forall_app in Fps as [Fps' Fl].
  apply Forall_cons_iff in Fl as [Hl _].
  replace ((x :: rs') ++ hs ++ "" :: ps' ++ [l])%list
    with (x :: (rs' ++ hs ++ "" :: ps') ++ [l])%list
    by (simpl; now rewrite <- !app_assoc).
  rewrite normalize_relative; [|exact Hx|exact Hl|].
  - rewrite !List.filter_app. simpl.
    rewrite !filter_proper by assumption.
    simpl. now rewrite <- !app_assoc.
  - apply Forall_app. split.
    + eapply Forall_impl; [exact Frs'|]. intros s Hs. now right.
    + apply Forall_app. split.
      * eapply Forall_impl; [exact Fhs|]. intros s Hs. now right.
      * constructor; [now left|].
        eapply Forall_impl; [exact Fps'|]. intros s Hs. now right.
Qed.

Lemma host_char_facts (c : ascii) :
  host_char c = true ->
  NodeUrl.nonHostChar c = false /\ NodeUrl.lower_char c = c
  /\ segment_char c = true /\ Ascii.eqb c "." = false.
Proof.
  destruct c as [[] [] [] [] [] [] [] []]; intros H; vm_compute in H;
    try discriminate H; vm_compute; repeat split.
Qed.

(** A character of such a host is kept by every step [url.parse] takes
    on a host name. *)
Lemma host_char_kept (c : ascii) :
  host_char c = true ->
  NodeUrl.hostEndingChar c = false /\ NodeUrl.deleted c = false
  /\ Ascii.eqb c ":" = false /\ NodeUrl.char_in "/\#?:" c = false
  /\ (127 <? NodeUrl.code c) = false /\ NodeUrl.forbiddenHostChar c = false
  /\ path_char c = true.
Proof.
  destruct c as [[] [] [] [] [] [] [] []]; intros H; vm_compute in H;
    try discriminate H; vm_compute; repeat split.
Qed.

Lemma host_chars_in (s : string) (c : ascii) :
  host_chars s = true -> In c (list_ascii_of_string s) -> host_char c = true.
Proof.
  induction s as [|c' s IH]; simpl; [contradiction|].
  intros H [<-|Hin]; apply andb_true_iff in H as [H1 H2]; auto.
Qed.

Lemma host_lower (s : string) : host_chars s = true -> NodeUrl.lower s = s.
Proof.
  induction s as [|c s IH]; [reflexivity|]. simpl. intros H.
  apply andb_true_iff in H as [Hc Hs].
  destruct (host_char_facts c Hc) as (_ & -> & _). now rewrite IH.
Qed.

Lemma host_path_chars (s : string) :
  host_chars s = true -> path_chars s = true.
Proof.
  induction s as [|c s IH]; [reflexivity|]. simpl. intros H.
  apply andb_true_iff in H as [Hc Hs]. unfold path_chars.
  rewrite string_forall_cons. destruct (host_char_kept c Hc) as (_ & _ & _ & _ & _ & _ & ->).
  now apply IH.
Qed.

Lemma string_exists_none (p : ascii -> bool) (s : string) :
  (forall c, In c (list_ascii_of_string s) -> p c = false) ->
  NodeUrl.string_exists p s = false.
Proof.
  intros H. unfold NodeUrl.string_exists.
  induction (list_ascii_of_string s) as [|c l IH]; [reflexivity|].
  simpl. rewrite (H c) by now left. apply IH.
  intros c' Hc'. apply H. now right.
Qed.

Lemma split_last_none (sep : ascii) (s : string) :
  (forall c, In c (list_ascii_of_string s) -> Ascii.eqb c sep = false) ->
  NodeUrl.split_last sep s = None.
Proof.
  induction s as [|c s IH]; [reflexivity|]. intros H. simpl.
  rewrite IH by (intros c' Hc'; apply H; now right).
  now rewrite (H c) by now left.
Qed.

Lemma split_on_none (sep : ascii) (s : string) :
  (forall c, In c (list_ascii_of_string s) -> Ascii.eqb c sep = false) ->
  NodeUrl.split_on sep s = [s].
Proof.
  induction s as [|c s IH]; [reflexivity|]. intros H. simpl.
  rewrite (H c) by (simpl; now left).
  rewrite IH by (intros c' Hc'; apply H; simpl; now right).
  reflexivity.
Qed.

Lemma host_not_ipv6 (s : string) :
  host_chars s = true -> NodeUrl.isIpv6Hostname s = false.
Proof.
  destruct s as [|c s]; [reflexivity|]. simpl host_chars. intros H.
  apply andb_true_iff in H as [Hc _].
  destruct c as [[] [] [] [] [] [] [] []]; vm_compute in Hc;
    try discriminate Hc; reflexivity.
Qed.

Lemma delete_controls_host (s x : string) :
  host_chars s = true ->
  NodeUrl.delete_controls (s +:+ String "/" x) = s +:+ String "/" x.
Proof.
  induction s as [|c s IH]; [reflexivity|]. simpl host_chars. intros H.
  apply andb_true_iff in H as [Hc Hs].
  destruct (host_char_kept c Hc) as (He & Hd & _).
  rewrite append_cons. cbn [NodeUrl.delete_controls].
  rewrite He, Hd. now rewrite IH.
Qed.

(** The host name [url.parse] reads where such a host is followed by a
    path. *)
Lemma host_name_kept (host x : string) :
  host_chars host = true ->
  (String.length host <= NodeUrl.hostnameMaxLen)%nat ->
  NodeUrl.host_name (host +:+ String "/" x) = Ok (Some host, String "/" x).
Proof.
  intros Hh Hlen. unfold NodeUrl.host_name.
  rewrite break_at_free.
  2:{ intros c Hc. apply (host_char_facts c (host_chars_in host c Hh Hc)). }
  rewrite break_at_stop by reflexivity. cbn [fst snd].
  rewrite append_empty.
  assert (Hport : NodeUrl.parseHost host = host).
  { unfold NodeUrl.parseHost. rewrite split_last_none; [reflexivity|].
    intros c Hc. apply (host_char_kept c (host_chars_in host c Hh Hc)). }
  rewrite Hport, (host_not_ipv6 host Hh). cbv iota.
  assert (Hget : NodeUrl.getHostname host (String "/" x)
                 = (host, String "/" x)).
  { unfold NodeUrl.getHostname. rewrite break_at_none; [reflexivity|].
    intros c Hc. apply (host_char_kept c (host_chars_in host c Hh Hc)). }
  rewrite Hget. cbv beta iota.
  apply Nat.ltb_ge in Hlen. rewrite Hlen, (host_lower host Hh).
  destruct (String.eqb_spec host "") as [->|Hne]; [reflexivity|].
  cbn [andb].
  assert (Hascii : NodeUrl.toASCII host = host).
  { unfold NodeUrl.toASCII. rewrite split_on_none.
    - cbn [map]. rewrite string_exists_none; [reflexivity|].
      intros c Hc. apply (host_char_kept c (host_chars_in host c Hh Hc)).
    - intros c Hc. apply (host_char_facts c (host_chars_in host c Hh Hc)). }
  rewrite Hascii.
  destruct (String.eqb_spec host "") as [->|_]; [contradiction|].
  rewrite string_exists_none; [reflexivity|].
  intros c Hc. apply (host_char_kept c (host_chars_in host c Hh Hc)).
Qed.

Lemma host_free (s : string) (c : ascii) :
  host_chars s = true -> In c (list_ascii_of_string s) ->
  NodeUrl.nonHostChar c = false.
Proof.
  induction s as [|c' s IH]; simpl; [contradiction|].
  intros H [<-|Hin]; apply andb_true_iff in H as [H1 H2]; auto.
  apply (host_char_facts c' H1).
Qed.

Lemma host_proper (s : string) :
  host_chars s = true -> s <> "" -> proper_segment s = true.
Proof.
  intros H Hne. unfold proper_segment.
  destruct s as [|c s]; [contradiction|].
  simpl in H. apply andb_true_iff in H as [Hc Hs].
  destruct (host_char_facts c Hc) as (_ & _ & Hseg & Hdot).
  assert (Hchars : segment_chars (String c s) = true).
  { simpl. rewrite Hseg. simpl. clear -Hs.
    induction s as [|c' s IH]; [reflexivity|].
    simpl in *. apply andb_true_iff in Hs as [Hc' Hs].
    destruct (host_char_facts c' Hc') as (_ & _ & -> & _). simpl. auto. }
  rewrite Hchars. simpl. now rewrite Hdot.
Qed.

Lemma prefix_slashes (y : string) :
  String.prefix "//" (String "/" (String "/" y)) = true.
Proof. now destruct y. Qed.

Lemma host_char_authority (c : ascii) :
  host_char c = true ->
  NodeUrl.hostEndingChar c = false /\ Ascii.eqb c "@" = false.
Proof.
  destruct c as [[] [] [] [] [] [] [] []]; intros H; vm_compute in H;
    try discriminate H; vm_compute; repeat split.
Qed.

Lemma host_no_credentials (s : string) :
  host_chars s = true -> NodeUrl.split_last "@" s = None.
Proof.
  induction s as [|c s IH]; [reflexivity|]. simpl. intros H.
  apply andb_true_iff in H as [Hc Hs].
  rewrite (IH Hs). now destruct (host_char_authority c Hc) as [_ ->].
Qed.

Lemma host_authority (s x : string) :
  host_chars s = true ->
  (NodeUrl.break_at NodeUrl.hostEndingChar (s +:+ String "/" x)).1 = s.
Proof.
  intros Hs. rewrite break_at_free.
  - rewrite break_at_stop by reflexivity. cbn [fst]. apply append_empty.
  - intros c Hc. induction s as [|c' s IH]; [contradiction|].
    simpl in Hs. apply andb_true_iff in Hs as [Hc' Hs].
    destruct Hc as [<-|Hc]; [apply (host_char_authority c' Hc') | auto].
Qed.

Lemma take_host_asset (host x : string) :
  host_chars host = true ->
  (String.length host <= NodeUrl.hostnameMaxLen)%nat ->
  NodeUrl.take_host (Some "asset:") ("//" +:+ host +:+ String "/" x)
  = Ok (Some host, String "/" x).
Proof.
  intros Hh Hlen. unfold NodeUrl.take_host. cbv zeta.
  change ("//" +:+ host +:+ String "/" x)
    with (String "/" (String "/" (host +:+ String "/" x))).
  rewrite prefix_slashes.
  change (from_option NodeUrl.hostlessProtocol false (Some "asset:")) with false.
  change (bool_decide (is_Some (Some "asset:"))) with true.
  cbn [negb andb orb string_drop].
  rewrite (delete_controls_host host x Hh).
  rewrite (host_authority host x Hh), (host_no_credentials host Hh).
  now apply host_name_kept.
Qed.

Lemma segment_chars_plain (s : string) :
  segment_chars s = true -> plain s = true.
Proof.
  induction s as [|c s IH]; [reflexivity|]. simpl. intros H.
  apply andb_true_iff in H as [Hc Hs].
  destruct (segment_char_no_slash c Hc) as [_ ->]. simpl. auto.
Qed.

Lemma plain_app (a b : string) :
  plain a = true -> plain b = true -> plain (a +:+ b) = true.
Proof.
  intros Ha Hb. induction a as [|c a IH]; [exact Hb|].
  rewrite append_cons. simpl in *.
  apply andb_true_iff in Ha as [-> Ha]. simpl. auto.
Qed.

Lemma plain_concat (l : list string) :
  Forall (fun s => proper_segment s = true) l ->
  plain (String.concat "/" l) = true.
Proof.
  induction 1 as [|s l Hs Hl IH]; [reflexivity|].
  pose proof (segment_chars_plain s (proj1 (proper_segment_tests s Hs))) as Hp.
  destruct l as [|y l]; [exact Hp|].
  rewrite concat_cons. apply plain_app; [exact Hp|]. exact IH.
Qed.

Lemma parse_asset (host rel : string) :
  host_chars host = true ->
  (String.length host <= NodeUrl.hostnameMaxLen)%nat ->
  plain rel = true ->
  exists u,
    NodeUrl.parse ("asset://" +:+ host +:+ String "/" rel) = Ok u
    /\ hostname u = Some host /\ pathname u = Some (String "/" rel).
Proof.
  intros Hh Hlen Hr.
  assert (Hrel : path_chars (String "/" rel) = true)
    by exact (plain_path_chars (String "/" rel) Hr).
  change ("asset://" +:+ host +:+ String "/" rel)
    with (String "a" ("sset://" +:+ host +:+ String "/" rel)).
  rewrite parse_tidy_whole; [|discriminate|].
  2:{ change (path_chars (String "a" ("sset://" +:+ host +:+ String "/" rel)))
        with (path_chars (host +:+ String "/" rel)).
      unfold path_chars. rewrite string_forall_app.
      apply andb_true_iff. split; [now apply host_path_chars | exact Hrel]. }
  unfold NodeUrl.parse_full.
  change (NodeUrl.after_scheme
            (String "a" ("sset://" +:+ host +:+ String "/" rel)))
    with (Some "asset:", "//" +:+ host +:+ String "/" rel).
  cbv beta iota. rewrite take_host_asset by assumption. cbv beta iota.
  change (from_option NodeUrl.unsafeProtocol false (Some "asset:")) with false.
  cbv iota.
  rewrite (autoEscapeStr_tidy _ (path_chars_tidy _ Hrel)).
  pose proof (take_path_shape (String "/" rel) "" Hrel (or_introl eq_refl))
    as Hp.
  rewrite append_empty in Hp. rewrite Hp.
  eexists. split; [reflexivity|]. simpl. auto.
Qed.

Lemma concat_app_nonempty (rs rest : list string) :
  rs <> [] ->
  Forall (fun s => proper_segment s = true) rs ->
  String.eqb (String.concat "/" (rs ++ rest)%list) "" = false.
Proof.
  intros Hrs Frs. destruct rs as [|x rs']; [contradiction|].
  apply Forall_cons_iff in Frs as [Hx _].
  destruct (concat_head x (rs' ++ rest) Hx) as (c & t & Hc & _).
  cbn [app]. now rewrite Hc.
Qed.

Lemma join_root_host_rel (rs ps : list string) (host : string) :
  rs <> [] -> ps <> [] ->
  Forall (fun s => proper_segment s = true) rs ->
  Forall (fun s => proper_segment s = true) ps ->
  host_chars host = true ->
  PosixPath.join [String.concat "/" rs; host; String "/" (String.concat "/" ps)]
  = String.concat "/" rs +:+ "/"
    +:+ (if String.eqb host "" then "" else host +:+ "/")
    +:+ String.concat "/" ps.
Proof.
  intros Hrs Hps Frs Fps Hh. unfold PosixPath.join.
  assert (Hroot : PosixPath.nonempty (String.concat "/" rs) = true).
  { pose proof (concat_app_nonempty rs [] Hrs Frs) as H.
    rewrite app_nil_r in H. unfold PosixPath.nonempty. now rewrite H. }
  assert (Hempty : String.concat "/" ("" :: ps)
                   = String "/" (String.concat "/" ps)).
  { destruct ps as [|p ps']; [contradiction|]. reflexivity. }
  cbn [List.filter]. rewrite Hroot.
  change (PosixPath.nonempty (String "/" (String.concat "/" ps))) with true.
  destruct (String.eqb_spec host "") as [->|Hne].
  - change (PosixPath.nonempty "") with false. cbv iota.
    assert (Hj : String.concat "/"
                   [String.concat "/" rs; String "/" (String.concat "/" ps)]
                 = String.concat "/" (rs ++ [] ++ "" :: ps)%list).
    { cbn [app]. rewrite concat_app by (assumption || discriminate).
      now rewrite Hempty. }
    rewrite Hj, (normalize_joined rs [] ps) by (assumption || constructor).
    rewrite concat_app_nonempty by assumption.
    cbn [app]. rewrite concat_app by assumption.
    reflexivity.
  - assert (Hhost : proper_segment host = true) by now apply host_proper.
    assert (Hn : PosixPath.nonempty host = true)
      by (unfold PosixPath.nonempty; apply negb_true_iff;
          now apply String.eqb_neq).
    rewrite Hn.
    assert (Hj : String.concat "/"
                   [String.concat "/" rs; host;
                    String "/" (String.concat "/" ps)]
                 = String.concat "/" (rs ++ [host] ++ "" :: ps)%list).
    { rewrite (concat_app rs) by (assumption || discriminate).
      cbn [app]. rewrite !concat_cons, Hempty. reflexivity. }
    rewrite Hj, (normalize_joined rs [host] ps)
      by (assumption || (repeat constructor; assumption)).
    rewrite concat_app_nonempty by assumption.
    rewrite (concat_app rs) by (assumption || discriminate).
    cbn [app]. destruct ps as [|p ps']; [contradiction|].
    rewrite concat_cons. rewrite !append_cons, !append_nil.
    rewrite append_assoc. reflexivity.
Qed.

(** C9. For every asset URL that has a host and a path, the handler answers
    with [path.join] of the assets root, the host and the path decoded by
    the path resolver. On the POSIX runtime, with the root and the
    relative path made of proper segments and a host of at most 63
    lower-case letters, digits and [-] that is no ACE label (it does not
    begin with [xn--]; Node checks what such a label encodes): an empty
    host gives [assetsRoot/relativePath], and a host such as [css] gives
    [assetsRoot/css/relativePath]. *)
Theorem asset_path_composition :
  (forall (R : Runtime) (st : instance) (request_url : string)
          (parsedUrl : Url) (host p : string),
     url_parse request_url = Ok parsedUrl ->
     hostname parsedUrl = Some host ->
     pathname parsedUrl = Some p ->
     asset_handler st request_url
     = Ok (path_join [_assetsPath st; host;
                      replace_spaces (if win32 then substr p 1 else p)]))
  /\ (forall (ejs : action) (st : instance) (rs ps : list string)
             (host : string),
        rs <> [] -> ps <> [] ->
        Forall (fun s => proper_segment s = true) rs ->
        Forall (fun s => proper_segment s = true) ps ->
        host_chars host = true ->
        (String.length host <= 63)%nat ->
        String.prefix "xn--" host = false ->
        _assetsPath st = String.concat "/" rs ->
        asset_handler (R := posix_runtime ejs) st
          ("asset://" +:+ host +:+ "/" +:+ String.concat "/" ps)
        = Ok (_assetsPath st +:+ "/"
              +:+ (if String.eqb host "" then "" else host +:+ "/")
              +:+ String.concat "/" ps)).
Proof.
  split.
  - intros R st request_url parsedUrl host p. apply asset_handler_composes.
  - intros ejs st rs ps host Hrs Hps Frs Fps Hh Hlen _ Hroot.
    assert (Hrel : plain (String.concat "/" ps) = true)
      by now apply plain_concat.
    assert (Hmax : (String.length host <= NodeUrl.hostnameMaxLen)%nat)
      by (unfold NodeUrl.hostnameMaxLen; lia).
    destruct (parse_asset host (String.concat "/" ps) Hh Hmax Hrel)
      as (u & Hu & Hhost & Hpath).
    change ("/" +:+ String.concat "/" ps)
      with (String "/" (String.concat "/" ps)) at 1.
    rewrite (asset_handler_composes (R := posix_runtime ejs) st _ u host
               (String "/" (String.concat "/" ps)) Hu Hhost Hpath).
    simpl win32. cbv iota.
    rewrite (replace_spaces_plain (String "/" (String.concat "/" ps)))
      by (simpl; exact Hrel).
    rewrite Hroot. simpl path_join.
    now rewrite join_root_host_rel.
Qed.

Lemma asset_path_composition_witness :
  let R := posix_runtime title_action in
  let st := initial_instance no_options in
  asset_handler st "asset://css/main.css" = Ok "assets/css/main.css"
  /\ asset_handler st "asset:///img/logo.png" = Ok "assets/img/logo.png"
  /\ asset_handler st "asset:///my%20app/main.css"
     = Ok "assets/my app/main.css".
Proof.
  intros R st.
  destruct asset_path_composition as [Hgen Hposix].
  split; [|split].
  - apply (Hposix title_action st ["assets"] ["main.css"] "css");
      try discriminate; try (simpl; lia); repeat constructor.
  - apply (Hposix title_action st ["assets"] ["img"; "logo.png"] "");
      try discriminate; try (simpl; lia); repeat constructor.
  - exact (Hgen R st "asset:///my%20app/main.css"
             {| hostname := Some ""; pathname := Some "/my%20app/main.css";
                query := ∅ |}
             "" "/my%20app/main.css" eq_refl eq_refl eq_refl).
Defined.

(** * Further properties of the module *)

(** ** The registry and the selection *)

Section Selection.

Context {R : Runtime}.

(** Registering again under the selected name does not change the
    selection: [_currentRenderer] keeps the descriptor [use] read, the
    registry holds the new one, and only another [use] selects it. *)
Theorem reregistration_keeps_selection
    (n : string) (d0 : descriptor) (d1 : renderer_data)
    (st st1 st2 : instance) :
  _renderers st !! n = Some d0 ->
  use n st = Ok st1 ->
  add (Some n) (Some d1) st1 = Ok st2 ->
  let new := {| extension := d_extension d1;
                rendererAction := d_rendererAction d1;
                name := n |} in
  _currentRenderer st2 = CurDescriptor d0
  /\ _renderers st2 !! n = Some new
  /\ (forall st3, use n st2 = Ok st3 -> _currentRenderer st3 = CurDescriptor new).
Proof.
  intros Hd0 Huse Hadd new. unfold use, read_renderer in Huse.
  rewrite Hd0 in Huse.
  injection Huse as <-. unfold add in Hadd.
  destruct (String.eqb n ""); [discriminate|]. injection Hadd as <-.
  cbn [set_renderers on_ready set_current _currentRenderer _renderers].
  split; [reflexivity|].
  split; [apply store_lookup_insert_eq|].
  intros st3 H3. unfold use, read_renderer in H3.
  cbn [set_renderers on_ready set_current _currentRenderer _renderers] in H3.
  rewrite store_lookup_insert_eq in H3. injection H3 as <-. reflexivity.
Qed.

(** The file extension of a selected renderer: the one it was registered
    with when that is a non-empty string, and a dot followed by the
    renderer's name when it was registered with none or with the empty
    string. *)
Theorem extension_defaults_to_name
    (n : string) (d : renderer_data) (st0 st1 st2 : instance)
    (request_url fileName : string) :
  add (Some n) (Some d) st0 = Ok st1 ->
  use n st1 = Ok st2 ->
  parseFilePath request_url = Ok fileName ->
  ((d_extension d = None \/ d_extension d = Some "") ->
   candidate_path st2 request_url
   = Ok (path_join [_viewPath st0; fileName +:+ "." +:+ n]))
  /\ (forall e, d_extension d = Some e -> e <> "" ->
      candidate_path st2 request_url
      = Ok (path_join [_viewPath st0; fileName +:+ e])).
Proof.
  intros Hadd Huse Hfile. unfold add in Hadd.
  destruct (String.eqb n ""); [discriminate|]. injection Hadd as <-.
  unfold use, read_renderer in Huse.
  cbn [set_renderers _renderers] in Huse. rewrite store_lookup_insert_eq in Huse.
  injection Huse as <-. unfold candidate_path. rewrite Hfile. simpl.
  split.
  - intros [-> | ->]; reflexivity.
  - intros e -> He. apply String.eqb_neq in He. now rewrite He.
Qed.

End Selection.

Lemma reregistration_keeps_selection_witness :
  let R := posix_runtime title_action in
  let d1 := {| d_extension := Some ".html"; d_rendererAction := None |} in
  exists st1 st2,
    use "ejs" (initial_instance no_options) = Ok st1
    /\ add (Some "ejs") (Some d1) st1 = Ok st2
    /\ _currentRenderer st2
       = CurDescriptor {| extension := Some ".ejs";
                          rendererAction := Some title_action;
                          name := "ejs" |}.
Proof.
  intros R d1. eexists. eexists.
  split; [reflexivity|]. split; [reflexivity|].
  exact (proj1 (reregistration_keeps_selection "ejs" _ d1
                  (initial_instance no_options) _ _ eq_refl eq_refl eq_refl)).
Defined.

Lemma extension_defaults_to_name_witness :
  let R := posix_runtime title_action in
  let d := {| d_extension := None; d_rendererAction := Some title_action |} in
  exists st1 st2,
    add (Some "pug") (Some d) (initial_instance no_options) = Ok st1
    /\ use "pug" st1 = Ok st2
    /\ candidate_path st2 "view:///home" = Ok "views/home.pug".
Proof.
  intros R d. eexists. eexists.
  split; [reflexivity|]. split; [reflexivity|].
  exact (proj1 (extension_defaults_to_name (R := R) "pug" d
                  (initial_instance no_options) _ _ "view:///home" "/home"
                  eq_refl eq_refl eq_refl) (or_introl eq_refl)).
Defined.

(** ** What a request can lead to *)

Section Outcomes.

Context {R : Runtime}.

Lemma renderer_extension_throws (renderer : current) (e : js_error) :
  renderer_extension renderer = Throw e -> exists msg, e = TypeError msg.
Proof.
  destruct renderer as [| |d| | | | |]; simpl; try discriminate;
    try (intros [= <-]; eauto).
  destruct (extension d) as [x|]; [destruct (String.eqb x "")|]; discriminate.
Qed.

Lemma renderer_action_throws (renderer : current) (e : js_error) :
  renderer_action renderer = Throw e -> exists msg, e = TypeError msg.
Proof.
  destruct renderer as [| |d| | | | |]; simpl; try discriminate;
    try (intros [= <-]; eauto).
  destruct (rendererAction d); [discriminate | intros [= <-]; eauto].
Qed.

(** Whatever the host is answered is [text/html], and it is either the
    empty body of the ignore short circuit, with no renderer called, or
    what the selected renderer's action handed to its callback for the
    candidate path and the view data looked up for the request. *)
Theorem reply_is_html_of_the_renderer
    (st : instance) (h : heap) (request_url : string) (r : response) :
  view_handler st h request_url = Replied r ->
  mimeType r = "text/html"
  /\ exists p parsedUrl,
       url_parse request_url = Ok parsedUrl
       /\ candidate_path st request_url = Ok p
       /\ ((foundIgnore st p = true /\ data r = ""
            /\ snd (renderTemplate st h request_url) = [])
           \/ (foundIgnore st p = false
               /\ exists act,
                    renderer_action (_currentRenderer st) = Ok act
                    /\ act p (lookup_viewData st h parsedUrl) h
                       = Calls (data r)
                    /\ snd (renderTemplate st h request_url)
                       = [(p, lookup_viewData st h parsedUrl)])).
Proof.
  unfold view_handler, candidate_path, renderTemplate.
  destruct (url_parse request_url) as [parsedUrl|]; [|discriminate].
  destruct (parseFilePath request_url) as [fileName|]; [|discriminate].
  destruct (renderer_extension (_currentRenderer st)) as [e|]; [|discriminate].
  destruct (foundIgnore st _) eqn:Hf.
  - simpl. intros [= <-]. split; [reflexivity|].
    eexists. exists parsedUrl. split; [reflexivity|]. split; [reflexivity|].
    left. rewrite Hf. auto.
  - destruct (renderer_action (_currentRenderer st)) as [act|]; [|discriminate].
    destruct (act _ _ h) as [html|ex|] eqn:Hact; simpl; try discriminate.
    intros [= <-]. split; [reflexivity|].
    eexists. exists parsedUrl. split; [reflexivity|]. split; [reflexivity|].
    right. rewrite Hf. split; [reflexivity|].
    exists act. simpl. auto.
Qed.

(** A request calls a renderer action at most once, always with the
    candidate path, and never when that path ends with an ignore suffix. *)
Theorem at_most_one_call
    (st : instance) (h : heap) (request_url : string) :
  (length (snd (renderTemplate st h request_url)) <= 1)%nat
  /\ forall c, c ∈ snd (renderTemplate st h request_url) ->
       candidate_path st request_url = Ok c.1
       /\ foundIgnore st c.1 = false.
Proof.
  unfold candidate_path, renderTemplate.
  destruct (url_parse request_url) as [parsedUrl|];
    [|simpl; split; [lia | inversion 1]].
  destruct (parseFilePath request_url) as [fileName|];
    [|simpl; split; [lia | inversion 1]].
  destruct (renderer_extension (_currentRenderer st)) as [e|];
    [|simpl; split; [lia | inversion 1]].
  destruct (foundIgnore st _) eqn:Hf; [simpl; split; [lia | inversion 1]|].
  destruct (renderer_action (_currentRenderer st)) as [act|];
    [|simpl; split; [lia | inversion 1]].
  destruct (act _ _ h); simpl; (split; [lia|]); intros c Hc;
    apply list_elem_of_singleton in Hc; subst c; simpl; auto.
Qed.

(** A rejection has one of three causes: the action was called and threw
    the very error; or nothing was called and the error is a [TypeError]
    raised while the request was set up (no path in the URL, no renderer,
    no callable action); or nothing was called and the error is what
    [url.parse] threw on the URL. In every case the host's callback is not
    called. *)
Theorem rejection_causes
    (st : instance) (h : heap) (request_url : string) (ex : js_error) :
  fst (renderTemplate st h request_url) = Rejected ex ->
  view_handler st h request_url = LoggedOnly ex
  /\ ((exists p act parsedUrl,
         url_parse request_url = Ok parsedUrl
         /\ snd (renderTemplate st h request_url)
            = [(p, lookup_viewData st h parsedUrl)]
         /\ renderer_action (_currentRenderer st) = Ok act
         /\ act p (lookup_viewData st h parsedUrl) h = Throws ex)
      \/ (snd (renderTemplate st h request_url) = []
          /\ ((exists msg, ex = TypeError msg)
              \/ url_parse request_url = Throw ex))).
Proof.
  intros H. split; [unfold view_handler; now rewrite H|].
  revert H. unfold renderTemplate.
  destruct (url_parse request_url) as [parsedUrl|e0] eqn:Hu.
  2:{ simpl. intros [= <-]. right. auto. }
  destruct (parseFilePath request_url) as [fileName|e1] eqn:Hfile.
  2:{ simpl. intros [= <-]. right. split; [reflexivity|]. left.
      destruct (parseFilePath_throws request_url e1 Hfile)
        as [Hthrow | (parsedUrl' & msg & _ & _ & ->)]; [|eauto].
      rewrite Hu in Hthrow. discriminate Hthrow. }
  destruct (renderer_extension (_currentRenderer st)) as [e|e2] eqn:Hext.
  2:{ simpl. intros [= <-]. right. split; [reflexivity|]. left.
      now apply (renderer_extension_throws (_currentRenderer st)). }
  destruct (foundIgnore st _); simpl; [discriminate|].
  destruct (renderer_action (_currentRenderer st)) as [act|e3] eqn:Hact.
  2:{ simpl. intros [= <-]. right. split; [reflexivity|]. left.
      now apply (renderer_action_throws (_currentRenderer st)). }
  destruct (act _ _ h) eqn:Hcall; simpl; try discriminate.
  intros [= <-]. left. eexists. exists act, parsedUrl. auto.
Qed.

(** A URL without a path is refused everywhere: the path resolver throws
    a [TypeError], a view request rejects with it before any renderer is
    looked at, and the asset handler throws it. *)
Theorem url_without_path_is_refused
    (st : instance) (h : heap) (request_url : string) (parsedUrl : Url) :
  url_parse request_url = Ok parsedUrl ->
  pathname parsedUrl = None ->
  exists msg,
    parseFilePath request_url = Throw (TypeError msg)
    /\ renderTemplate st h request_url = (Rejected (TypeError msg), [])
    /\ asset_handler st request_url = Throw (TypeError msg).
Proof.
  intros Hu Hp. unfold renderTemplate, asset_handler, parseFilePath.
  rewrite Hu, Hp. destruct win32; eauto.
Qed.

End Outcomes.

Lemma reply_is_html_of_the_renderer_witness :
  let R := posix_runtime (fun _ _ _ => Calls "<p>hi</p>") in
  view_handler ejs_instance ∅ "view:///index" 
  = Replied {| mimeType := "text/html"; data := "<p>hi</p>" |}
  /\ mimeType {| mimeType := "text/html"; data := "<p>hi</p>" |} = "text/html".
Proof.
  intros R. split; [reflexivity|].
  exact (proj1 (reply_is_html_of_the_renderer (R := R) ejs_instance ∅
                  "view:///index" _ eq_refl)).
Defined.

Lemma rejection_causes_witness :
  let R := posix_runtime title_action in
  view_handler ejs_instance ∅ "view:///index"
  = LoggedOnly (TypeError "Cannot read properties of undefined (reading 'title')")
  /\ view_handler ejs_instance ∅ "view://%ZZ@host/index"
     = LoggedOnly (URIError "URI malformed").
Proof.
  intros R. split.
  - exact (proj1 (rejection_causes (R := R) ejs_instance ∅ "view:///index" _
                    eq_refl)).
  - exact (proj1 (rejection_causes (R := R) ejs_instance ∅
                    "view://%ZZ@host/index" _ eq_refl)).
Defined.

Lemma url_without_path_is_refused_witness :
  let R := posix_runtime title_action in
  exists msg,
    renderTemplate ejs_instance ∅ "view://host" = (Rejected (TypeError msg), []).
Proof.
  intros R.
  destruct (url_without_path_is_refused (R := R) ejs_instance ∅ "view://host"
              {| hostname := Some "host"; pathname := None; query := ∅ |}
              eq_refl eq_refl) as (msg & _ & H & _).
  exists msg. exact H.
Defined.

Lemma at_most_one_call_witness :
  let R := posix_runtime title_action in
  candidate_path ejs_instance "view:///index" = Ok "views/index.ejs"
  /\ foundIgnore ejs_instance "views/index.ejs" = false.
Proof.
  intros R.
  assert (Hin : ("views/index.ejs", VUndef)
                ∈ snd (renderTemplate (R := R) ejs_instance ∅ "view:///index"))
    by (vm_compute; left).
  exact (proj2 (at_most_one_call (R := R) ejs_instance ∅ "view:///index")
           ("views/index.ejs", VUndef) Hin).
Defined.

(** ** Construction and histories *)

Section Lifetime.

Context {R : Runtime}.

(** A new instance, whatever its options: the registry holds the EJS
    renderer and nothing else (the HAML and Pug slots register nothing),
    nothing is selected, no view data is stored, no listener is attached. *)
Theorem constructor_seeds_ejs_only (o : options) :
  exists st,
    constructor o = Ok st
    /\ (forall n, is_Some (_renderers st !! n) <-> n = "ejs")
    /\ _renderers st !! "ejs"
       = Some {| extension := Some ".ejs";
                 rendererAction := Some ejs_action;
                 name := "ejs" |}
    /\ _currentRenderer st = CurEmpty
    /\ _views st = ∅
    /\ fire_ready st = [].
Proof.
  exists (initial_instance o). split; [reflexivity|].
  split; [|repeat split].
  intros n. cbn [initial_instance _renderers]. split.
  - intros [d Hd]. destruct (decide (n = "ejs")) as [->|Hn]; [reflexivity|].
    rewrite store_lookup_insert_ne, store_lookup_empty in Hd by congruence.
    discriminate Hd.
  - intros ->. rewrite store_lookup_insert_eq. eauto.
Qed.

Lemma step_config (c : call) (s : instance * heap) :
  _viewProtcolName (step c s).1 = _viewProtcolName s.1
  /\ _useAssets (step c s).1 = _useAssets s.1
  /\ _assetsPath (step c s).1 = _assetsPath s.1
  /\ _assetsProtocolName (step c s).1 = _assetsProtocolName s.1
  /\ _viewPath (step c s).1 = _viewPath s.1
  /\ _ingnoreExtensions (step c s).1 = _ingnoreExtensions s.1.
Proof.
  destruct s as [st h]. destruct c as [n d| n| w v d q]; simpl.
  - destruct (add n d st) as [st'|] eqn:E; [|repeat split].
    unfold add in E. destruct d as [d|]; [|discriminate].
    destruct n as [n|]; [|discriminate].
    destruct (String.eqb n ""); [discriminate|].
    injection E as <-. repeat split.
  - repeat split.
  - repeat split.
Qed.

Lemma steps_config (cs : list call) (s : instance * heap) :
  _viewProtcolName (steps cs s).1 = _viewProtcolName s.1
  /\ _useAssets (steps cs s).1 = _useAssets s.1
  /\ _assetsPath (steps cs s).1 = _assetsPath s.1
  /\ _assetsProtocolName (steps cs s).1 = _assetsProtocolName s.1
  /\ _viewPath (steps cs s).1 = _viewPath s.1
  /\ _ingnoreExtensions (steps cs s).1 = _ingnoreExtensions s.1.
Proof.
  revert s. induction cs as [|c cs IH]; intros s; [repeat split|].
  simpl. destruct (IH (step c s)) as (H1 & H2 & H3 & H4 & H5 & H6).
  destruct (step_config c s) as (G1 & G2 & G3 & G4 & G5 & G6).
  rewrite H1, H2, H3, H4, H5, H6. repeat split; assumption.
Qed.

(** No method changes the configuration: along every history of calls
    that starts at a new instance, the view root, the two scheme names, the
    asset switch, the asset root and the ignore list are what the
    constructor made of the options. *)
Theorem configuration_is_fixed
    (o : options) (cs : list call) (h0 h : heap) (st0 st : instance) :
  constructor o = Ok st0 ->
  steps cs (st0, h0) = (st, h) ->
  _viewPath st = default "views" (opt_viewPath o)
  /\ _viewProtcolName st = default "view" (opt_viewProtcolName o)
  /\ _useAssets st = default false (opt_useAssets o)
  /\ _assetsPath st = default "assets" (opt_assetsPath o)
  /\ _assetsProtocolName st = default "asset" (opt_assetsProtocolName o)
  /\ _ingnoreExtensions st = default [] (opt_ignoreExtensions o).
Proof.
  intros Hnew Hst. rewrite constructor_ok in Hnew. injection Hnew as <-.
  destruct (steps_config cs (initial_instance o, h0))
    as (H1 & H2 & H3 & H4 & H5 & H6).
  rewrite Hst in H1, H2, H3, H4, H5, H6. simpl in *.
  repeat split; assumption.
Qed.

Lemma step_listeners (c : call) (s : instance * heap) :
  ready_listeners (step c s).1
  = (ready_listeners s.1 + if is_use c then 1 else 0)%nat.
Proof.
  destruct s as [st h]. destruct c as [n d| n| w v d q]; simpl.
  - destruct (add n d st) as [st'|] eqn:E; [|simpl; lia].
    unfold add in E. destruct d as [d|]; [|discriminate].
    destruct n as [n|]; [|discriminate].
    destruct (String.eqb n ""); [discriminate|].
    injection E as <-. simpl. lia.
  - simpl. lia.
  - simpl. lia.
Qed.

Lemma steps_listeners (cs : list call) (s : instance * heap) :
  ready_listeners (steps cs s).1 = (ready_listeners s.1 + count_uses cs)%nat.
Proof.
  revert s. induction cs as [|c cs IH]; intros s.
  - simpl. unfold count_uses. simpl. lia.
  - simpl. rewrite IH, step_listeners. unfold count_uses. simpl.
    destruct (is_use c); simpl; lia.
Qed.

(** The protocols are registered by the listeners of [use] and by nothing
    else: after any history of calls on a new instance, the ['ready'] event
    asks the host for one registration of the view scheme per [use] call,
    followed each time by one of the asset scheme exactly when [useAssets]
    was set, under the configured names. With no [use], nothing is asked. *)
Theorem ready_registers_once_per_use
    (o : options) (cs : list call) (h0 h : heap) (st0 st : instance) :
  constructor o = Ok st0 ->
  steps cs (st0, h0) = (st, h) ->
  fire_ready st
  = List.concat
      (repeat
         (BufferProtocol (default "view" (opt_viewProtcolName o))
          :: (if default false (opt_useAssets o)
              then [FileProtocol (default "asset" (opt_assetsProtocolName o))]
              else []))
         (count_uses cs)).
Proof.
  intros Hnew Hst. rewrite constructor_ok in Hnew. injection Hnew as <-.
  unfold fire_ready, ready_listener.
  pose proof (steps_listeners cs (initial_instance o, h0)) as Hn.
  destruct (steps_config cs (initial_instance o, h0))
    as (H1 & H2 & _ & H4 & _).
  rewrite Hst in Hn, H1, H2, H4. simpl in Hn, H1, H2, H4.
  now rewrite Hn, H1, H2, H4.
Qed.

End Lifetime.

Lemma configuration_is_fixed_witness :
  let R := posix_runtime title_action in
  let cs := [CallUse "ejs"; CallLoad 0 "home" VNull None] in
  _ingnoreExtensions (steps cs (initial_instance (with_ignore [".map"]), ∅)).1
  = [".map"].
Proof.
  intros R cs.
  exact (proj2 (proj2 (proj2 (proj2 (proj2
           (configuration_is_fixed (R := R) (with_ignore [".map"]) cs ∅ _ _ _
              eq_refl (surjective_pairing _))))))).
Defined.

Lemma ready_registers_once_per_use_witness :
  let R := posix_runtime title_action in
  let o := {| opt_viewPath := None; opt_viewProtcolName := None;
              opt_useAssets := Some true; opt_assetsPath := None;
              opt_assetsProtocolName := None; opt_ignoreExtensions := None |} in
  let cs := [CallUse "ejs"; CallLoad 0 "home" VNull None; CallUse "ejs"] in
  fire_ready (steps cs (initial_instance o, ∅)).1
  = [BufferProtocol "view"; FileProtocol "asset";
     BufferProtocol "view"; FileProtocol "asset"].
Proof.
  intros R o cs.
  exact (ready_registers_once_per_use (R := R) o cs ∅ _ _ _ eq_refl
           (surjective_pairing _)).
Defined.

(** ** The two stores over time *)

Section Stores.

Context {R : Runtime}.

Lemma step_grows (c : call) (s : instance * heap) :
  (forall v, is_Some (_views s.1 !! v) -> is_Some (_views (step c s).1 !! v))
  /\ (forall n, is_Some (_renderers s.1 !! n) ->
                is_Some (_renderers (step c s).1 !! n))
  /\ (forall l, is_Some (s.2 !! l) -> is_Some ((step c s).2 !! l)).
Proof.
  destruct s as [st h]. destruct c as [n d| n| w v d q]; simpl.
  - destruct (add n d st) as [st'|] eqn:E; [|auto].
    unfold add in E. destruct d as [d|]; [|discriminate].
    destruct n as [n|]; [|discriminate].
    destruct (String.eqb n ""); [discriminate|].
    injection E as <-. simpl. split; [auto|]. split; [|auto].
    intros n' Hn'. now apply store_lookup_insert_is_Some.
  - auto.
  - split; [|split; [auto|]].
    + intros v' Hv'. now apply store_lookup_insert_is_Some.
    + intros l Hl. apply lookup_insert_is_Some'. now right.
Qed.

(** Nothing is ever removed: along every history of calls, a view id that
    has an entry keeps one, a registered renderer name stays registered,
    and an object of the heap stays allocated. *)
Theorem stores_only_grow (cs : list call) (s : instance * heap) :
  (forall v, is_Some (_views s.1 !! v) -> is_Some (_views (steps cs s).1 !! v))
  /\ (forall n, is_Some (_renderers s.1 !! n) ->
                is_Some (_renderers (steps cs s).1 !! n))
  /\ (forall l, is_Some (s.2 !! l) -> is_Some ((steps cs s).2 !! l)).
Proof.
  revert s. induction cs as [|c cs IH]; intros s; [auto|].
  simpl. destruct (IH (step c s)) as (H1 & H2 & H3).
  destruct (step_grows c s) as (G1 & G2 & G3).
  split; [|split]; auto.
Qed.

(** Loading a view id again overwrites its entry: two loads of one id
    leave the store as the second alone would. *)
Theorem last_load_wins
    (w1 w2 : nat) (v : string) (d1 d2 : jsval) (q1 q2 : option loc)
    (st : instance) (h : heap) :
  _views (steps [CallLoad w1 v d1 q1; CallLoad w2 v d2 q2] (st, h)).1
  = _views (steps [CallLoad w2 v d2 q2] (st, h)).1
  /\ _views (steps [CallLoad w1 v d1 q1; CallLoad w2 v d2 q2] (st, h)).1 !! v
     = Some {| viewData := d2 |}.
Proof.
  simpl. split; [apply store_insert_insert_eq | apply store_lookup_insert_eq].
Qed.

(** [load] without a [query] option works on an object of its own: the
    new object holds the [_view] key and nothing else, the URL is composed
    from it, and every object the heap already had is left as it was. *)
Theorem load_default_query_is_fresh
    (browserWindow : nat) (view : string) (payload : jsval)
    (st st' : instance) (h h' : heap) (nav : nat * string) :
  load browserWindow view payload None st h = (st', h', nav) ->
  h !! fresh (dom h) = None
  /\ h' !! fresh (dom h) = Some [("_view", VStr view)]
  /\ (forall l o, h !! l = Some o -> h' !! l = Some o)
  /\ nav = (browserWindow,
            url_format {| o_pathname := view; o_protocol := "view:";
                          o_query := [("_view", VStr view)];
                          o_slashes := true |}).
Proof.
  intros Hload.
  assert (Hfresh : h !! fresh (dom h) = None).
  { apply not_elem_of_dom. apply is_fresh. }
  unfold load in Hload. cbv zeta in Hload. injection Hload as <- <- <-.
  rewrite !lookup_insert_eq, Hfresh. simpl.
  split; [reflexivity|]. split; [reflexivity|]. split; [|reflexivity].
  intros l o Hl. rewrite lookup_insert_ne; [exact Hl|].
  intros <-. rewrite Hfresh in Hl. discriminate.
Qed.

End Stores.

Lemma stores_only_grow_witness :
  let R := posix_runtime title_action in
  let cs := [CallLoad 0 "home" VNull None; CallAdd (Some "ejs") None;
             CallUse "pug"] in
  is_Some (_renderers (steps cs (initial_instance no_options, ∅)).1 !! "ejs").
Proof.
  intros R cs.
  apply (proj1 (proj2 (stores_only_grow (R := R) cs
                         (initial_instance no_options, ∅)))).
  simpl. eexists. reflexivity.
Defined.

Lemma load_default_query_is_fresh_witness :
  let R := posix_runtime title_action in
  let h : heap := {[ 0%nat := [("tab", VStr "a")] ]} in
  (load 5 "home" VNull None ejs_instance h).1.2 !! 0%nat
  = Some [("tab", VStr "a")].
Proof.
  intros R h.
  set (r := load 5 "home" VNull None ejs_instance h).
  refine (proj1 (proj2 (proj2 (load_default_query_is_fresh (R := R) 5 "home"
                                 VNull ejs_instance r.1.1 h r.1.2 r.2 _)))
            0%nat _ _).
  - reflexivity.
  - reflexivity.
Defined.

(** ** The decoding of the path resolver *)

Lemma not_pct20_char (a : ascii) (rest : string) :
  a <> "2"%char ->
  replace_spaces (String "%" (String a rest))
  = String "%" (replace_spaces (String a rest))
  /\ decoded (String "%" (String a rest)) = decoded (String a rest).
Proof.
  intros Ha.
  destruct a as [[] [] [] [] [] [] [] []];
    first [exfalso; apply Ha; reflexivity | split; reflexivity].
Qed.

Lemma not_pct20_second (a : ascii) (rest : string) :
  a <> "0"%char ->
  replace_spaces (String "%" (String "2" (String a rest)))
  = String "%" (replace_spaces (String "2" (String a rest)))
  /\ decoded (String "%" (String "2" (String a rest)))
     = decoded (String "2" (String a rest)).
Proof.
  intros Ha.
  destruct a as [[] [] [] [] [] [] [] []];
    first [exfalso; apply Ha; reflexivity | split; reflexivity].
Qed.

(** The three ways the replacement treats the head of a path. *)
Lemma replace_cases (c : ascii) (rest : string) :
  (is_space c = true
   /\ replace_spaces (String c rest) = String " " (replace_spaces rest)
   /\ decoded (String c rest) = Ascii.eqb c " " && decoded rest)
  \/ (exists rest', c = "%"%char /\ rest = String "2" (String "0" rest')
      /\ replace_spaces (String c rest) = String " " (replace_spaces rest')
      /\ decoded (String c rest) = false)
  \/ (is_space c = false /\ ~ pct20 c rest
      /\ replace_spaces (String c rest) = String c (replace_spaces rest)
      /\ decoded (String c rest) = decoded rest).
Proof.
  destruct (ascii_dec c "%") as [->|Hc].
  - destruct rest as [|a rest].
    + right. right. repeat split. intros [_ [r Hr]]. discriminate Hr.
    + destruct (ascii_dec a "2") as [->|Ha].
      * destruct rest as [|b rest].
        -- right. right. repeat split. intros [_ [r Hr]]. discriminate Hr.
        -- destruct (ascii_dec b "0") as [->|Hb].
           ++ right. left. exists rest. repeat split.
           ++ right. right. destruct (not_pct20_second b rest Hb) as [H1 H2].
              split; [reflexivity|]. split; [|split; assumption].
              intros [_ [r Hr]]. injection Hr as Hr _. contradiction.
      * right. right. destruct (not_pct20_char a rest Ha) as [H1 H2].
        split; [reflexivity|]. split; [|split; assumption].
        intros [_ [r Hr]]. injection Hr as Hr _. contradiction.
  - destruct c as [[] [] [] [] [] [] [] []];
      first [ exfalso; apply Hc; reflexivity
            | left; split; [reflexivity | split; reflexivity]
            | right; right; split; [reflexivity|];
              split; [intros [H _]; discriminate H | split; reflexivity] ].
Qed.

Lemma replace_head (s t : string) (d : ascii) :
  replace_spaces s = String d t -> is_space d = false ->
  exists rest, s = String d rest /\ t = replace_spaces rest.
Proof.
  destruct s as [|c rest]; [discriminate|]. intros H Hd.
  destruct (replace_cases c rest)
    as [(_ & Hr & _) | [(r & _ & _ & Hr & _) | (_ & _ & Hr & _)]];
    rewrite Hr in H; injection H as <- <-.
  - discriminate Hd.
  - discriminate Hd.
  - now exists rest.
Qed.

Lemma replace_length (n : nat) (s : string) :
  (String.length s <= n)%nat ->
  decoded (replace_spaces s) = true
  /\ (String.length (replace_spaces s) <= String.length s)%nat.
Proof.
  revert s. induction n as [|n IH]; intros s Hn.
  - destruct s; [split; [reflexivity | simpl; lia] | simpl in Hn; lia].
  - destruct s as [|c rest]; [split; [reflexivity | simpl; lia]|].
    simpl in Hn.
    destruct (replace_cases c rest)
      as [(_ & Hr & _) | [(r & _ & -> & Hr & _) | (Hsp & Hnot & Hr & _)]];
      rewrite Hr.
    + destruct (IH rest ltac:(lia)) as [Hd Hl]. simpl. rewrite Hd. simpl.
      split; [reflexivity | lia].
    + simpl in Hn. destruct (IH r ltac:(lia)) as [Hd Hl]. simpl. rewrite Hd.
      simpl. split; [reflexivity | lia].
    + destruct (IH rest ltac:(lia)) as [Hd Hl]. split; [|simpl; lia].
      destruct (replace_cases c (replace_spaces rest))
        as [(Hsp' & _) | [(r & -> & Hout & _) | (_ & _ & _ & ->)]].
      * rewrite Hsp in Hsp'. discriminate Hsp'.
      * exfalso. apply Hnot. split; [reflexivity|].
        destruct (replace_head rest _ "2" Hout eq_refl) as (r1 & -> & Hr1).
        symmetry in Hr1.
        destruct (replace_head r1 _ "0" Hr1 eq_refl) as (r2 & -> & _).
        now exists r2.
      * exact Hd.
Qed.

Lemma decoded_fixed (s : string) :
  decoded s = true -> replace_spaces s = s.
Proof.
  induction s as [|c rest IH]; [reflexivity|]. intros Hd.
  destruct (replace_cases c rest)
    as [(_ & -> & Hdec) | [(r & _ & _ & _ & Hdec) | (_ & _ & -> & Hdec)]];
    rewrite Hdec in Hd.
  - apply andb_true_iff in Hd as [Hc Hrest].
    apply Ascii.eqb_eq in Hc. subst c. now rewrite IH.
  - discriminate Hd.
  - now rewrite IH.
Qed.

Lemma replace_decoded (s : string) : decoded (replace_spaces s) = true.
Proof. exact (proj1 (replace_length (String.length s) s (le_n _))). Qed.

(** The path resolver decodes once and for all: the decoded path has no
    white space but spaces and no [%20] left, it is never longer than the
    path, and decoding it again changes nothing. *)
Theorem decoding_is_idempotent (s : string) :
  decoded (replace_spaces s) = true
  /\ replace_spaces (replace_spaces s) = replace_spaces s
  /\ (String.length (replace_spaces s) <= String.length s)%nat.
Proof.
  destruct (replace_length (String.length s) s (le_n _)) as [Hd Hl].
  split; [exact Hd|]. split; [now apply decoded_fixed | exact Hl].
Qed.

(** The paths the resolver leaves alone are exactly the decoded ones:
    every other percent escape, such as [%2F], passes through untouched. *)
Theorem decoding_fixes_decoded_paths (s : string) :
  replace_spaces s = s <-> decoded s = true.
Proof.
  split.
  - intros H. rewrite <- H. apply replace_decoded.
  - apply decoded_fixed.
Qed.

(** ** From navigation to rendering, on the concrete runtime *)

Lemma id_char_facts (c : ascii) :
  id_char c = true ->
  NodeUrl.unreserved c = true /\ segment_char c = true
  /\ Ascii.eqb "#" c = false /\ Ascii.eqb "?" c = false
  /\ Ascii.eqb c "&" = false.
Proof.
  destruct c as [[] [] [] [] [] [] [] []]; intros H; vm_compute in H;
    try discriminate H; vm_compute; repeat split.
Qed.

Lemma id_chars_in (s : string) (c : ascii) :
  id_chars s = true -> In c (list_ascii_of_string s) -> id_char c = true.
Proof.
  induction s as [|c' s IH]; simpl; [contradiction|].
  intros H [<-|Hin]; apply andb_true_iff in H as [H1 H2]; auto.
Qed.

Lemma id_chars_segment (s : string) :
  id_chars s = true -> segment_chars s = true.
Proof.
  induction s as [|c s IH]; [reflexivity|]. simpl. intros H.
  apply andb_true_iff in H as [Hc Hs].
  destruct (id_char_facts c Hc) as (_ & -> & _). simpl. auto.
Qed.

Lemma qs_escape_id (s : string) : id_chars s = true -> NodeUrl.qs_escape s = s.
Proof.
  induction s as [|c s IH]; [reflexivity|]. simpl. intros H.
  apply andb_true_iff in H as [Hc Hs].
  destruct (id_char_facts c Hc) as (-> & _). now rewrite IH.
Qed.

Lemma id_char_query (c : ascii) :
  id_char c = true ->
  Ascii.eqb c "%" = false /\ Ascii.eqb c "+" = false
  /\ Ascii.eqb "=" c = false /\ query_char c = true /\ path_char c = true.
Proof.
  destruct c as [[] [] [] [] [] [] [] []]; intros H; vm_compute in H;
    try discriminate H; vm_compute; repeat split.
Qed.

Lemma id_query_chars (s : string) : id_chars s = true -> query_chars s = true.
Proof.
  induction s as [|c s IH]; [reflexivity|]. simpl. intros H.
  apply andb_true_iff in H as [Hc Hs]. unfold query_chars.
  rewrite string_forall_cons.
  destruct (id_char_query c Hc) as (_ & _ & _ & -> & _). now apply IH.
Qed.

Lemma id_path_chars (s : string) : id_chars s = true -> path_chars s = true.
Proof.
  induction s as [|c s IH]; [reflexivity|]. simpl. intros H.
  apply andb_true_iff in H as [Hc Hs]. unfold path_chars.
  rewrite string_forall_cons.
  destruct (id_char_query c Hc) as (_ & _ & _ & _ & ->). now apply IH.
Qed.

(** A key or a value without [%] and [+] is read as it is written. *)
Lemma qs_decode_id (in_key : bool) (s : string) :
  id_chars s = true -> NodeUrl.qs_decode in_key s = s.
Proof.
  intros H. unfold NodeUrl.qs_decode.
  assert (Hseen : NodeUrl.escape_seen in_key 0 s = false).
  { induction s as [|c s IH]; [reflexivity|]. simpl in H.
    apply andb_true_iff in H as [Hc Hs].
    destruct (id_char_query c Hc) as (Hpct & Hplus & _).
    cbn [NodeUrl.escape_seen]. rewrite Hpct, Hplus. cbn [andb].
    now apply IH. }
  rewrite Hseen. clear Hseen.
  induction s as [|c s IH]; [reflexivity|]. simpl in H.
  apply andb_true_iff in H as [Hc Hs].
  destruct (id_char_query c Hc) as (_ & Hplus & _).
  cbn [NodeUrl.plus_spaces]. rewrite Hplus. now rewrite IH.
Qed.

(** The query string [load] writes for a plain view id is read back as
    the single key [_view]. *)
Lemma qs_parse_view (v : string) :
  id_chars v = true ->
  NodeUrl.qs_parse ("_view=" +:+ v) = {[ "_view" := QStr v ]}.
Proof.
  intros Hv. unfold NodeUrl.qs_parse.
  rewrite split_on_none.
  2:{ intros c Hc. apply in_append in Hc as [Hc|Hc].
      - simpl in Hc. repeat (destruct Hc as [<-|Hc]; [reflexivity|]).
        contradiction.
      - apply (id_char_facts c (id_chars_in v c Hv Hc)). }
  change (take NodeUrl.maxKeys ["_view=" +:+ v]) with ["_view=" +:+ v].
  cbn [fold_left].
  change (String.eqb ("_view=" +:+ v) "") with false. cbv iota.
  unfold NodeUrl.qs_add.
  change (NodeUrl.break_at (Ascii.eqb "=") ("_view=" +:+ v))
    with ("_view", String "=" v).
  cbv beta iota. cbn [string_drop].
  rewrite (qs_decode_id false v Hv).
  change (NodeUrl.qs_decode true "_view") with "_view".
  now rewrite lookup_empty.
Qed.

(** A search string of tidy characters without [#] gives its query. *)
Lemma search_query (q : string) :
  query_chars q = true ->
  string_drop 1
    (NodeUrl.break_at (Ascii.eqb "#")
       (NodeUrl.autoEscapeStr (NodeUrl.rtrim (String "?" q)))).1
  = q.
Proof.
  intros Hq.
  assert (Ht : tidy (String "?" q) = true)
    by exact (query_chars_tidy q Hq).
  rewrite (rtrim_tidy _ Ht), (autoEscapeStr_tidy _ Ht).
  rewrite break_at_none; [reflexivity|].
  intros c [<-|Hc]; [reflexivity|].
  apply (query_char_facts c (string_forall_in _ q c Hq Hc)).
Qed.

Lemma stringify_view (v : string) :
  NodeUrl.qs_stringify [("_view", VStr v)] = "_view=" +:+ NodeUrl.qs_escape v.
Proof. reflexivity. Qed.

(** What [url.parse] reads in the URL [load] composes for a plain view
    id and no [query] option. *)
Lemma parse_navigation (v : string) :
  id_chars v = true -> v <> "" ->
  view_url v [("_view", VStr v)] = "view://" +:+ String "/" v +:+ "?_view=" +:+ v
  /\ NodeUrl.parse (view_url v [("_view", VStr v)])
     = Ok {| hostname := Some ""; pathname := Some (String "/" v);
             query := {[ "_view" := QStr v ]} |}.
Proof.
  intros Hv Hne.
  assert (Hurl : view_url v [("_view", VStr v)]
                 = "view://" +:+ String "/" v +:+ "?_view=" +:+ v).
  { unfold view_url, NodeUrl.format.
    cbn [o_protocol o_slashes o_pathname o_query].
    change (negb (String.eqb "view:" "") && negb (NodeUrl.last_is_colon "view:"))
      with false. cbv iota zeta.
    rewrite stringify_view, (qs_escape_id v Hv).
    change (String.eqb ("_view=" +:+ v) "") with false. cbv iota.
    destruct v as [|c v']; [contradiction|].
    simpl in Hv. apply andb_true_iff in Hv as [Hc Hv'].
    destruct (id_char_facts c Hc) as (_ & Hseg & _).
    rewrite (prefix_slash_false c v' Hseg).
    change (String.eqb (String c v') "") with false. cbn [negb andb].
    rewrite (escape_path_plain ("/" +:+ String c v')).
    - reflexivity.
    - change (plain (String c v') = true). simpl.
      destruct (segment_char_no_slash c Hseg) as [_ ->]. simpl.
      apply segment_chars_plain. now apply id_chars_segment. }
  split; [exact Hurl|]. rewrite Hurl.
  change ("?_view=" +:+ v) with (String "?" ("_view=" +:+ v)).
  rewrite (parse_view v _ (id_path_chars v Hv)) by (right; eauto).
  rewrite search_query.
  - now rewrite (qs_parse_view v Hv).
  - unfold query_chars. rewrite string_forall_app.
    apply andb_true_iff. split; [reflexivity | now apply id_query_chars].
Qed.

Section Navigate.

Variables (platform_win32 : bool) (join : list string -> string)
          (ejs : action).

Let R : Runtime := node_runtime platform_win32 join ejs.

(** Navigation reaches the renderer. On the concrete runtime, for a view
    id of letters, digits and [- _ .] and a truthy payload: the request for
    the very URL [load] navigates to (without a [query] option) is resolved
    to the view's file, which the [path.join] of the platform places under
    the view root, looks the payload up through the [_view] key, and calls
    the selected renderer's action with both; the host is answered with
    what the action renders. *)
Theorem navigation_reaches_the_renderer
    (w : nat) (v e : string) (payload : jsval) (d : descriptor) (act : action)
    (st st' : instance) (h h' : heap) (nav : nat * string) :
  id_chars v = true ->
  v <> "" ->
  truthy payload = true ->
  _currentRenderer st = CurDescriptor d ->
  renderer_extension (R := R) (CurDescriptor d) = Ok e ->
  rendererAction d = Some act ->
  load (R := R) w v payload None st h = (st', h', nav) ->
  let p := join
             [_viewPath st; (if platform_win32 then v else "/" +:+ v) +:+ e] in
  foundIgnore st p = false ->
  candidate_path (R := R) st' nav.2 = Ok p
  /\ snd (renderTemplate (R := R) st' h' nav.2) = [(p, payload)]
  /\ (forall html, act p payload h' = Calls html ->
        view_handler (R := R) st' h' nav.2
        = Replied {| mimeType := "text/html"; data := html |}).
Proof.
  intros Hv Hne Ht Hcur He Hact Hload p Hf.
  assert (Hfresh : h !! fresh (dom h) = None)
    by (apply not_elem_of_dom, is_fresh).
  unfold load in Hload. cbv zeta in Hload. injection Hload as <- <- <-.
  cbn [snd]. rewrite lookup_insert_eq, Hfresh.
  cbn [default from_option obj_set]. unfold id.
  change (@url_format R) with NodeUrl.format.
  fold (view_url v [("_view", VStr v)]).
  destruct (parse_navigation v Hv Hne) as [_ Hparse].
  assert (Hplain : plain v = true)
    by now apply segment_chars_plain, id_chars_segment.
  assert (Hu : @url_parse R (view_url v [("_view", VStr v)])
               = Ok {| hostname := Some ""; pathname := Some (String "/" v);
                       query := {[ "_view" := QStr v ]} |})
    by exact Hparse.
  assert (Hfile : parseFilePath (R := R) (view_url v [("_view", VStr v)])
                  = Ok (if platform_win32 then v else "/" +:+ v)).
  { unfold parseFilePath. rewrite Hu. simpl pathname.
    simpl win32. destruct platform_win32.
    - rewrite substr_1. now rewrite replace_spaces_plain.
    - rewrite (replace_spaces_plain (String "/" v)) by (simpl; exact Hplain).
      reflexivity. }
  assert (Hpath : candidate_path (R := R)
                    (set_views <[v := {| viewData := payload |}]> st)
                    (view_url v [("_view", VStr v)]) = Ok p).
  { unfold candidate_path. rewrite Hfile. simpl _currentRenderer.
    rewrite Hcur, He. reflexivity. }
  set (h' := <[fresh (dom h) := [("_view", VStr v)]]> h) in *.
  assert (Hdata : lookup_viewData
                    (set_views <[v := {| viewData := payload |}]> st) h'
                    {| hostname := Some ""; pathname := Some (String "/" v);
                       query := {[ "_view" := QStr v ]} |}
                  = payload).
  { rewrite (lookup_viewData_bound _ _ _ v payload).
    - now rewrite Ht.
    - simpl query. now rewrite lookup_singleton_eq.
    - apply store_lookup_insert_eq. }
  clearbody p. split; [exact Hpath|].
  assert (Hrt : renderTemplate (R := R)
                  (set_views <[v := {| viewData := payload |}]> st) h'
                  (view_url v [("_view", VStr v)])
                = match act p payload h' with
                  | Calls renderedHTML =>
                      (Resolved {| mimeType := "text/html";
                                   data := renderedHTML |}, [(p, payload)])
                  | Throws ex => (Rejected ex, [(p, payload)])
                  | Never => (Pending, [(p, payload)])
                  end).
  { rewrite (renderTemplate_dispatch (R := R) _ _ _ p _ Hu Hpath Hf).
    simpl _currentRenderer. rewrite Hcur. simpl renderer_action.
    rewrite Hact. cbv zeta. now rewrite Hdata. }
  unfold view_handler. rewrite Hrt.
  destruct (act p payload h') as [html|ex|]; simpl.
  - split; [reflexivity|]. intros html' [= ->]. reflexivity.
  - split; [reflexivity|]. intros html [=].
  - split; [reflexivity|]. intros html [=].
Qed.

End Navigate.

Lemma navigation_reaches_the_renderer_witness :
  let R := posix_runtime title_action in
  let h : heap := {[ 7%nat := [("title", VStr "Hi")] ]} in
  let r := load 0 "home" (VRef 7%nat) None ejs_instance h in
  r.2.2 = "view:///home?_view=home"
  /\ view_handler r.1.1 r.1.2 r.2.2
     = Replied {| mimeType := "text/html"; data := "<h1>Hi</h1>" |}.
Proof.
  intros R h r. split; [reflexivity|].
  refine (proj2 (proj2 (navigation_reaches_the_renderer false PosixPath.join
                          title_action
                          0 "home" ".ejs" (VRef 7%nat)
                          {| extension := Some ".ejs";
                             rendererAction := Some title_action;
                             name := "ejs" |}
                          title_action ejs_instance r.1.1 h r.1.2 r.2
                          _ _ _ _ _ _ _ _)) "<h1>Hi</h1>" _);
    try reflexivity.
  discriminate.
Defined.

(** ** Paths that climb out of the assets root *)

Lemma normalize_segments_push (b : bool) (xs rest acc : list string) :
  Forall (fun s => proper_segment s = true) xs ->
  PosixPath.normalize_segments b (xs ++ rest)%list acc
  = PosixPath.normalize_segments b rest (rev xs ++ acc)%list.
Proof.
  intros H. revert acc. induction H as [|x xs Hx _ IH]; intros acc.
  - reflexivity.
  - destruct (proper_segment_tests x Hx) as (_ & H1 & H2 & H3).
    cbn [app PosixPath.normalize_segments]. rewrite H1, H2, H3. cbn [orb].
    rewrite IH. cbn [rev]. now rewrite <- app_assoc.
Qed.

(** Each [..] takes the last segment off the path read so far. *)
Lemma normalize_segments_pop (b : bool) (tops rest acc : list string) :
  Forall (fun s => proper_segment s = true) tops ->
  PosixPath.normalize_segments b (repeat ".." (length tops) ++ rest)%list
    (tops ++ acc)%list
  = PosixPath.normalize_segments b rest acc.
Proof.
  induction 1 as [|t tops Ht _ IH]; [reflexivity|].
  destruct (proper_segment_tests t Ht) as (_ & _ & _ & H3).
  cbn [length repeat app PosixPath.normalize_segments String.eqb Ascii.eqb
       Bool.eqb orb].
  rewrite H3. exact IH.
Qed.

Lemma normalize_climb (x l : string) (mid out' : list string) (y : string) :
  proper_segment x = true ->
  proper_segment l = true ->
  proper_segment y = true ->
  Forall (fun s => segment_chars s = true) mid ->
  PosixPath.normalize_segments true (x :: mid ++ [l])%list [] = y :: out' ->
  PosixPath.normalize (String.concat "/" (x :: mid ++ [l])%list)
  = String.concat "/" (y :: out').
Proof.
  intros Hx Hl Hy Hmid Hout. unfold PosixPath.normalize.
  destruct (concat_head x (mid ++ [l]) Hx) as (c & t & Hj & Hc).
  destruct (concat_head y out' Hy) as (c' & t' & Hr & Hc').
  assert (Htrail : String.eqb
                     (substr (String.concat "/" (x :: mid ++ [l])%list) (-1))
                     "/" = false).
  { change (x :: mid ++ [l])%list with ((x :: mid) ++ [l])%list.
    rewrite concat_app by discriminate.
    rewrite substr_last by discriminate.
    change (String "/" (String.concat "/" [l])) with ("/" +:+ l).
    rewrite substr_last.
    - now apply no_trailing_slash.
    - destruct (proper_segment_tests l Hl) as (_ & H & _).
      now apply String.eqb_neq. }
  rewrite Htrail.
  assert (Hsegs : NodeUrl.split_on "/" (String.concat "/" (x :: mid ++ [l])%list)
                  = (x :: mid ++ [l])%list).
  { apply split_concat; [discriminate|].
    constructor; [apply (proper_segment_tests x Hx)|].
    apply Forall_app. split; [exact Hmid|].
    constructor; [apply (proper_segment_tests l Hl) | constructor]. }
  rewrite Hsegs, Hj.
  rewrite (prefix_slash_false c t Hc). cbn [negb].
  rewrite Hout, Hr. simpl. reflexivity.
Qed.

Lemma plain_concat_chars (l : list string) :
  Forall (fun s => segment_chars s = true) l ->
  plain (String.concat "/" l) = true.
Proof.
  induction 1 as [|s l Hs Hl IH]; [reflexivity|].
  pose proof (segment_chars_plain s Hs) as Hp.
  destruct l as [|y l]; [exact Hp|].
  rewrite concat_cons. apply plain_app; [exact Hp|]. exact IH.
Qed.

Lemma proper_chars (l : list string) :
  Forall (fun s => proper_segment s = true) l ->
  Forall (fun s => segment_chars s = true) l.
Proof.
  intros H. eapply Forall_impl; [exact H|].
  intros s Hs. apply (proper_segment_tests s Hs).
Qed.

Lemma dotdot_chars (k : nat) :
  Forall (fun s => segment_chars s = true) (repeat ".." k).
Proof. induction k; constructor; [reflexivity | assumption]. Qed.

(** The segments [path.normalize] keeps of a root followed by an empty
    segment, [k] times [..] and a relative path. *)
Lemma normalize_segments_climb (rs ps : list string) (k : nat) :
  (k <= length rs)%nat ->
  Forall (fun s => proper_segment s = true) rs ->
  Forall (fun s => proper_segment s = true) ps ->
  PosixPath.normalize_segments true
    (rs ++ "" :: repeat ".." k ++ ps)%list []
  = (take (length rs - k) rs ++ ps)%list.
Proof.
  intros Hk Frs Fps.
  rewrite normalize_segments_push by exact Frs.
  rewrite app_nil_r. cbn [PosixPath.normalize_segments String.eqb orb].
  rewrite <- (take_drop k (rev rs)).
  assert (Hlen : length (take k (rev rs)) = k).
  { rewrite length_take, length_rev. lia. }
  rewrite <- Hlen at 1.
  rewrite normalize_segments_pop.
  2:{ apply Forall_take. now apply Forall_rev. }
  rewrite normalize_segments_proper.
  2:{ eapply Forall_impl; [exact Fps|]. intros s Hs. now right. }
  rewrite filter_proper by exact Fps.
  rewrite skipn_rev, rev_involutive. reflexivity.
Qed.

(** [path.join] of a root and of a path that climbs [k] segments. *)
Lemma join_climb (rs ps : list string) (k : nat) :
  rs <> [] -> ps <> [] ->
  Forall (fun s => proper_segment s = true) rs ->
  Forall (fun s => proper_segment s = true) ps ->
  (k <= length rs)%nat ->
  PosixPath.join
    [String.concat "/" rs;
     String "/" (String.concat "/" (repeat ".." k ++ ps)%list)]
  = String.concat "/" (take (length rs - k) rs ++ ps)%list.
Proof.
  intros Hrs Hps Frs Fps Hk.
  set (rel := String.concat "/" (repeat ".." k ++ ps)%list).
  unfold PosixPath.join.
  assert (Hne : PosixPath.nonempty (String.concat "/" rs) = true).
  { pose proof (concat_app_nonempty rs [] Hrs Frs) as H.
    rewrite app_nil_r in H. unfold PosixPath.nonempty. now rewrite H. }
  cbn [List.filter]. rewrite Hne.
  change (PosixPath.nonempty (String "/" rel)) with true. cbv iota.
  assert (Hj : String.concat "/" [String.concat "/" rs; String "/" rel]
               = String.concat "/" (rs ++ "" :: repeat ".." k ++ ps)%list).
  { rewrite (concat_app rs) by (assumption || discriminate).
    assert (Hl : exists y l, (repeat ".." k ++ ps)%list = y :: l).
    { destruct k; [destruct ps; [contradiction | eauto] | simpl; eauto]. }
    destruct Hl as (y & l & Hl). subst rel. rewrite Hl. reflexivity. }
  rewrite Hj, concat_app_nonempty by assumption.
  destruct rs as [|x rs']; [contradiction|].
  destruct (exists_last Hps) as (ps' & l & ->).
  pose proof (normalize_segments_climb (x :: rs') (ps' ++ [l]) k Hk Frs Fps)
    as Hout.
  apply Forall_cons_iff in Frs as [Hx Frs'].
  apply Forall_app in Fps as [Fps' Fl].
  apply Forall_cons_iff in Fl as [Hl _].
  assert (Hform : ((x :: rs') ++ "" :: repeat ".." k ++ ps' ++ [l])%list
                  = (x :: (rs' ++ "" :: repeat ".." k ++ ps') ++ [l])%list).
  { cbn [app]. f_equal. rewrite <- app_assoc. cbn [app].
    now rewrite <- app_assoc. }
  rewrite Hform in *.
  assert (Hhead : exists y out',
             (take (length (x :: rs') - k) (x :: rs') ++ ps' ++ [l])%list
             = y :: out'
             /\ proper_segment y = true).
  { destruct (take (length (x :: rs') - k) (x :: rs')) as [|y t] eqn:E.
    - destruct ps' as [|y t]; simpl; eauto.
      apply Forall_cons_iff in Fps' as [Hy _]. eauto.
    - exists y, (t ++ ps' ++ [l])%list. split; [reflexivity|].
      assert (Hin : y ∈ x :: rs').
      { apply (subseteq_take (length (x :: rs') - k)). rewrite E. left. }
      apply elem_of_cons in Hin as [->|Hin]; [exact Hx|].
      rewrite Forall_forall in Frs'. now apply Frs'. }
  destruct Hhead as (y & out' & Hy & Hyp). rewrite Hy in *.
  apply (normalize_climb x l _ out' y Hx Hl Hyp); [|exact Hout].
  apply Forall_app. split; [now apply proper_chars|].
  constructor; [reflexivity|].
  apply Forall_app. split; [apply dotdot_chars | now apply proper_chars].
Qed.

(** The asset handler does not confine a request to the assets root. On
    the POSIX runtime, with a root of [n] proper segments, a request whose
    path starts with [k <= n] segments [..] is answered with a path that
    has lost the last [k] segments of the root; with [k = n] it names the
    relative path outside the root altogether. *)
Theorem asset_path_escapes_root
    (ejs : action) (st : instance) (rs ps : list string) (k : nat) :
  rs <> [] -> ps <> [] ->
  Forall (fun s => proper_segment s = true) rs ->
  Forall (fun s => proper_segment s = true) ps ->
  (k <= length rs)%nat ->
  _assetsPath st = String.concat "/" rs ->
  asset_handler (R := posix_runtime ejs) st
    ("asset:///" +:+ String.concat "/" (repeat ".." k ++ ps)%list)
  = Ok (String.concat "/" (take (length rs - k) rs ++ ps)%list).
Proof.
  intros Hrs Hps Frs Fps Hk Hroot.
  set (rel := String.concat "/" (repeat ".." k ++ ps)%list).
  assert (Hrel : plain rel = true).
  { apply plain_concat_chars, Forall_app.
    split; [apply dotdot_chars | now apply proper_chars]. }
  destruct (parse_asset "" rel eq_refl (Nat.le_0_l _) Hrel)
    as (u & Hu & Hhost & Hpath).
  change ("asset://" +:+ "" +:+ String "/" rel)
    with ("asset:///" +:+ rel) in Hu.
  rewrite (asset_handler_composes (R := posix_runtime ejs) st _ u ""
             (String "/" rel) Hu Hhost Hpath).
  simpl win32. cbv iota.
  rewrite (replace_spaces_plain (String "/" rel)) by (simpl; exact Hrel).
  rewrite Hroot. simpl path_join. f_equal.
  change (PosixPath.join [String.concat "/" rs; ""; String "/" rel])
    with (PosixPath.join [String.concat "/" rs; String "/" rel]).
  now apply join_climb.
Qed.

Lemma asset_path_escapes_root_witness :
  let R := posix_runtime title_action in
  asset_handler (initial_instance no_options) "asset:///../etc/passwd"
  = Ok "etc/passwd".
Proof.
  intros R.
  apply (asset_path_escapes_root title_action (initial_instance no_options)
           ["assets"] ["etc"; "passwd"] 1);
    try discriminate; try reflexivity; try (repeat constructor).
Defined.

(** ** Views outside the view root *)

Lemma segment_chars_append (a b : string) :
  segment_chars a = true -> segment_chars b = true ->
  segment_chars (a +:+ b) = true.
Proof.
  intros Ha Hb. induction a as [|c a IH]; [exact Hb|].
  rewrite append_cons. simpl in *.
  apply andb_true_iff in Ha as [-> Ha]. simpl. auto.
Qed.

Lemma append_is_empty (a b : string) : a +:+ b = "" -> a = "".
Proof. destruct a; [reflexivity|]. rewrite append_cons. discriminate. Qed.

(** A proper segment stays one when an extension is put after it. *)
Lemma proper_append (l e : string) :
  proper_segment l = true -> segment_chars e = true ->
  proper_segment (l +:+ e) = true.
Proof.
  intros Hl He. destruct (proper_segment_tests l Hl) as (Hc & H1 & H2 & H3).
  apply String.eqb_neq in H1, H2, H3.
  unfold proper_segment.
  rewrite (segment_chars_append l e Hc He). cbn [andb].
  assert (N1 : l +:+ e <> "").
  { intros H. now apply append_is_empty in H. }
  assert (N2 : l +:+ e <> ".").
  { destruct l as [|c l']; [contradiction|]. rewrite append_cons.
    intros [= -> H]. apply append_is_empty in H. subst l'. contradiction. }
  assert (N3 : l +:+ e <> "..").
  { destruct l as [|c l']; [contradiction|]. rewrite append_cons.
    intros [= -> H]. destruct l' as [|c2 l'']; [contradiction|].
    rewrite append_cons in H. injection H as -> H.
    apply append_is_empty in H. subst l''. contradiction. }
  apply String.eqb_neq in N1, N2, N3. now rewrite N1, N2, N3.
Qed.

Lemma concat_snoc_append (xs : list string) (l e : string) :
  String.concat "/" (xs ++ [l])%list +:+ e
  = String.concat "/" (xs ++ [l +:+ e])%list.
Proof.
  induction xs as [|x xs IH]; [reflexivity|].
  destruct xs as [|y xs].
  - cbn [app String.concat]. now rewrite append_assoc, append_cons.
  - change ((x :: y :: xs) ++ [l])%list with (x :: (y :: xs) ++ [l])%list.
    change ((x :: y :: xs) ++ [l +:+ e])%list
      with (x :: (y :: xs) ++ [l +:+ e])%list.
    cbn [app] in *. rewrite !concat_cons.
    rewrite append_assoc, append_cons. now rewrite IH.
Qed.

(** The dispatcher does not confine a request to the view root either. On
    the POSIX runtime, with a view root of [n] proper segments and a
    renderer whose extension is made of segment characters, a request
    whose path starts with [k <= n] segments [..] is resolved to a file
    above the last [k] segments of the root. *)
Theorem view_path_escapes_root
    (ejs : action) (st : instance) (rs ps : list string) (l e : string)
    (k : nat) (d : descriptor) :
  rs <> [] ->
  Forall (fun s => proper_segment s = true) rs ->
  Forall (fun s => proper_segment s = true) ps ->
  proper_segment l = true ->
  (k <= length rs)%nat ->
  _viewPath st = String.concat "/" rs ->
  _currentRenderer st = CurDescriptor d ->
  renderer_extension (R := posix_runtime ejs) (CurDescriptor d) = Ok e ->
  segment_chars e = true ->
  candidate_path (R := posix_runtime ejs) st
    ("view:///" +:+ String.concat "/" (repeat ".." k ++ ps ++ [l])%list)
  = Ok (String.concat "/" (take (length rs - k) rs ++ ps ++ [l +:+ e])%list).
Proof.
  intros Hrs Frs Fps Hl Hk Hroot Hcur He Hechars.
  set (rel := String.concat "/" (repeat ".." k ++ ps ++ [l])%list).
  assert (Hrel : plain rel = true).
  { apply plain_concat_chars, Forall_app. split; [apply dotdot_chars|].
    apply Forall_app. split; [now apply proper_chars|].
    constructor; [apply (proper_segment_tests l Hl) | constructor]. }
  assert (Hurl : "view:///" +:+ rel = "view://" +:+ String "/" rel +:+ "")
    by now rewrite append_empty.
  destruct (parse_slash_path rel "" Hrel (or_introl eq_refl))
    as (u & Hu & _ & Hpath).
  rewrite <- Hurl in Hu.
  unfold candidate_path, parseFilePath. simpl url_parse. rewrite Hu, Hpath.
  simpl win32. cbv iota.
  rewrite (replace_spaces_plain (String "/" rel)) by (simpl; exact Hrel).
  rewrite Hcur, He, Hroot. simpl path_join. f_equal.
  rewrite append_cons. subst rel.
  rewrite !app_assoc, concat_snoc_append, <- !app_assoc.
  apply join_climb; try assumption.
  - now destruct ps.
  - apply Forall_app. split; [exact Fps|].
    constructor; [now apply proper_append | constructor].
Qed.

Lemma view_path_escapes_root_witness :
  let R := posix_runtime title_action in
  candidate_path ejs_instance "view:///../secret/page" = Ok "secret/page.ejs".
Proof.
  intros R.
  apply (view_path_escapes_root title_action ejs_instance ["views"] ["secret"]
           "page" ".ejs" 1
           {| extension := Some ".ejs";
              rendererAction := Some title_action;
              name := "ejs" |});
    try discriminate; try reflexivity; try (repeat constructor).
Defined.

(** ** The empty ignore suffix *)

Section EmptySuffix.

Context {R : Runtime}.

(** The empty string is a suffix of every path: with it in the ignore
    list, every request whose path is composed resolves with the empty
    response and no renderer is ever called. With an empty ignore list no
    request is short-circuited. *)
Theorem empty_ignore_suffix_ignores_everything
    (st : instance) (h : heap) (request_url p : string) :
  candidate_path st request_url = Ok p ->
  ("" ∈ _ingnoreExtensions st ->
   renderTemplate st h request_url = (Resolved empty_response, []))
  /\ (_ingnoreExtensions st = [] -> foundIgnore st p = false).
Proof.
  intros Hp. split.
  - intros Hin. apply (renderTemplate_ignored st h request_url p Hp).
    apply foundIgnore_true. exists ""%string, p. split; [exact Hin|].
    now rewrite append_empty.
  - intros Hnil. unfold foundIgnore. now rewrite Hnil.
Qed.

End EmptySuffix.

Lemma empty_ignore_suffix_ignores_everything_witness :
  let R := posix_runtime title_action in
  let st := (steps [CallUse "ejs"]
               (initial_instance (with_ignore [".map"; ""]), ∅)).1 in
  renderTemplate st ∅ "view:///index" = (Resolved empty_response, []).
Proof.
  intros R st.
  apply (proj1 (empty_ignore_suffix_ignores_everything (R := R) st ∅
                  "view:///index" "views/index.ejs" eq_refl)).
  right. left.
Defined.

(** ** Two quirks of the correlation *)

Lemma prefix_append (a b : string) : String.prefix a (a +:+ b) = true.
Proof.
  induction a as [|c a IH]; [now destruct b|].
  rewrite append_cons. cbn [String.prefix].
  destruct (ascii_dec c c) as [_|Hc]; [exact IH | contradiction].
Qed.

Lemma in_fire_ready (st : instance) (reg : registration) :
  In reg (fire_ready st) -> In reg (ready_listener st).
Proof.
  unfold fire_ready. generalize (ready_listeners st) as n.
  induction n as [|n IH]; cbn [repeat List.concat]; [contradiction|].
  intros H. apply in_app_or in H as [H|H]; auto.
Qed.

Section Quirks.

Variables (platform_win32 : bool) (join : list string -> string)
          (ejs : action).

Let R : Runtime := node_runtime platform_win32 join ejs.

(** [load] does not use the configured view scheme: whatever name the
    instance was constructed with, every buffer protocol it asks the host
    to register is under that name, while the URL [load] navigates to
    always starts with [view://]. *)
Theorem load_ignores_configured_scheme
    (o : options) (cs : list call) (h0 h h' : heap) (st0 st st' : instance)
    (w : nat) (v : string) (payload : jsval) (q : option loc)
    (nav : nat * string) :
  constructor (R := R) o = Ok st0 ->
  steps (R := R) cs (st0, h0) = (st, h) ->
  load (R := R) w v payload q st h = (st', h', nav) ->
  String.prefix "view://" nav.2 = true
  /\ (forall n, In (BufferProtocol n) (fire_ready st') ->
                n = default "view" (opt_viewProtcolName o)).
Proof.
  intros Hnew Hst Hload.
  rewrite constructor_ok in Hnew. injection Hnew as <-.
  destruct (steps_config (R := R) cs (initial_instance (R := R) o, h0))
    as (H2 & _).
  rewrite Hst in H2. simpl in H2.
  unfold load in Hload. cbv zeta in Hload. injection Hload as <- <- <-.
  split.
  - cbn [snd]. change (@url_format R) with NodeUrl.format.
    unfold NodeUrl.format. cbn [o_protocol o_slashes o_pathname o_query].
    change (negb (String.eqb "view:" "") && negb (NodeUrl.last_is_colon "view:"))
      with false. cbv iota.
    match goal with
    | |- String.prefix _ ("view:" +:+ "//" +:+ ?x) = true =>
        change ("view:" +:+ "//" +:+ x) with ("view://" +:+ x)
    end.
    apply prefix_append.
  - intros n Hn. apply in_fire_ready in Hn. unfold ready_listener in Hn.
    simpl in Hn. rewrite H2 in Hn. destruct Hn as [[= <-]|Hn]; [reflexivity|].
    destruct (_useAssets st); simpl in Hn.
    + destruct Hn as [Hn|[]]. discriminate Hn.
    + contradiction.
Qed.

End Quirks.

Lemma load_ignores_configured_scheme_witness :
  let R := posix_runtime title_action in
  let o := {| opt_viewPath := None; opt_viewProtcolName := Some "tpl";
              opt_useAssets := None; opt_assetsPath := None;
              opt_assetsProtocolName := None; opt_ignoreExtensions := None |} in
  let s := steps [CallUse "ejs"] (initial_instance o, ∅) in
  let r := load 0 "home" VNull None s.1 s.2 in
  fire_ready r.1.1 = [BufferProtocol "tpl"]
  /\ String.prefix "view://" r.2.2 = true.
Proof.
  intros R o s r. split; [reflexivity|].
  exact (proj1 (load_ignores_configured_scheme false PosixPath.join
                  title_action o
                  [CallUse "ejs"] ∅ s.2 r.1.2 (initial_instance o) s.1 r.1.1
                  0 "home" VNull None r.2 eq_refl (surjective_pairing s)
                  eq_refl)).
Defined.

Section Undefined.

Context {R : Runtime}.

(** A request without a [_view] key is correlated to the view id
    ["undefined"]: once a truthy payload is loaded under that id, every
    request that carries no [_view] key and reaches the renderer is served
    that payload, whatever view it asks for. *)
Theorem request_without_key_reads_undefined_id
    (st0 st : instance) (h0 h : heap) (w : nat) (payload : jsval)
    (q : option loc) (cs : list call) (request_url p : string)
    (parsedUrl : Url) (d : descriptor) (act : action) :
  truthy payload = true ->
  steps (CallLoad w "undefined" payload q :: cs) (st0, h0) = (st, h) ->
  Forall (fun c => loads "undefined" c = false) cs ->
  url_parse request_url = Ok parsedUrl ->
  query parsedUrl !! "_view" = None ->
  _currentRenderer st = CurDescriptor d ->
  rendererAction d = Some act ->
  candidate_path st request_url = Ok p ->
  foundIgnore st p = false ->
  snd (renderTemplate st h request_url) = [(p, payload)].
Proof.
  intros Ht Hst Hcs Hu Hq Hcur Hact Hp Hf.
  assert (Hv : lookup_viewData st h parsedUrl = payload).
  { rewrite (lookup_viewData_bound st h parsedUrl "undefined" payload).
    - now rewrite Ht.
    - now rewrite Hq.
    - now apply (steps_views_loaded w "undefined" payload q cs st0 st h0 h). }
  rewrite (renderTemplate_dispatch st h request_url p parsedUrl Hu Hp Hf).
  rewrite Hcur. simpl. rewrite Hact, Hv.
  destruct (act p payload h); reflexivity.
Qed.

End Undefined.

Lemma request_without_key_reads_undefined_id_witness :
  let R := posix_runtime title_action in
  let s := steps [CallLoad 0 "undefined" (VNum 7) None] (ejs_instance, ∅) in
  snd (renderTemplate s.1 s.2 "view:///about")
  = [("views/about.ejs", VNum 7)].
Proof.
  intros R s.
  refine (request_without_key_reads_undefined_id (R := R) ejs_instance s.1 ∅
            s.2 0 (VNum 7) None [] "view:///about" "views/about.ejs"
            {| hostname := Some ""; pathname := Some "/about"; query := ∅ |}
            {| extension := Some ".ejs";
               rendererAction := Some ejs_action;
               name := "ejs" |}
            ejs_action _ _ _ _ _ _ _ _ _); try reflexivity.
  constructor.
Defined.

(** ** Query strings of plain data *)

Lemma split_on_sep_cons (sep : ascii) (x rest : string) :
  (forall c, In c (list_ascii_of_string x) -> Ascii.eqb c sep = false) ->
  NodeUrl.split_on sep (x +:+ String sep rest)
  = x :: NodeUrl.split_on sep rest.
Proof.
  induction x as [|c x IH]; intros H.
  - rewrite append_nil. simpl. now rewrite Ascii.eqb_refl.
  - rewrite append_cons. simpl.
    rewrite (H c) by (simpl; now left).
    rewrite IH by (intros c' Hc'; apply H; simpl; now right).
    reflexivity.
Qed.

Lemma concat_amp_cons (x y : string) (l : list string) :
  String.concat "&" (x :: y :: l)
  = x +:+ String "&" (String.concat "&" (y :: l)).
Proof. reflexivity. Qed.

Lemma split_concat_amp (pieces : list string) :
  pieces <> [] ->
  Forall (fun p => forall c, In c (list_ascii_of_string p) ->
                             Ascii.eqb c "&" = false) pieces ->
  NodeUrl.split_on "&" (String.concat "&" pieces) = pieces.
Proof.
  intros Hne H. induction H as [|x l Hx Hl IH]; [contradiction|].
  destruct l as [|y l].
  - simpl. now apply split_on_none.
  - rewrite concat_amp_cons, split_on_sep_cons by exact Hx.
    now rewrite IH.
Qed.

(** The characters of a piece [key=value] of plain data. *)
Lemma piece_chars (kv : string * string) (c : ascii) :
  plain_pair kv = true ->
  In c (list_ascii_of_string (query_piece kv)) ->
  id_char c = true \/ c = "="%char.
Proof.
  unfold plain_pair, query_piece. intros H Hc.
  apply andb_true_iff in H as [Hk Hv].
  apply in_append in Hc as [Hc|Hc]; [left; now apply (id_chars_in kv.1)|].
  apply in_append in Hc as [Hc|Hc].
  - simpl in Hc. destruct Hc as [<-|[]]. now right.
  - left. now apply (id_chars_in kv.2).
Qed.

Lemma in_concat_amp (pieces : list string) (c : ascii) :
  In c (list_ascii_of_string (String.concat "&" pieces)) ->
  c = "&"%char \/ exists p, In p pieces /\ In c (list_ascii_of_string p).
Proof.
  induction pieces as [|x l IH]; [contradiction|].
  destruct l as [|y l].
  - intros H. right. exists x. split; [now left | exact H].
  - rewrite concat_amp_cons. intros H.
    apply in_append in H as [H|H].
    + right. exists x. split; [now left | exact H].
    + simpl in H. destruct H as [<-|H]; [now left|].
      destruct (IH H) as [->|(p & Hp & Hc)]; [now left|].
      right. exists p. split; [now right | exact Hc].
Qed.

Lemma fields_data (kvs : list (string * string)) :
  Forall (fun kv => plain_pair kv = true) kvs ->
  List.concat (map NodeUrl.qs_fields (data_object kvs)) = map query_piece kvs.
Proof.
  induction 1 as [|[k v] kvs Hkv _ IH]; [reflexivity|].
  unfold plain_pair in Hkv. apply andb_true_iff in Hkv as [Hk Hv].
  simpl in Hk, Hv.
  change (data_object ((k, v) :: kvs)) with ((k, VStr v) :: data_object kvs).
  cbn [map List.concat NodeUrl.qs_fields NodeUrl.qs_primitive fst snd app].
  rewrite IH, (qs_escape_id k Hk), (qs_escape_id v Hv).
  unfold query_piece. cbn [fst snd]. now rewrite append_assoc.
Qed.

Lemma stringify_data (kvs : list (string * string)) :
  Forall (fun kv => plain_pair kv = true) kvs ->
  NodeUrl.qs_stringify (data_object kvs)
  = String.concat "&" (map query_piece kvs).
Proof.
  intros H. unfold NodeUrl.qs_stringify. now rewrite fields_data.
Qed.

Lemma qs_add_piece (kv : string * string) (q : gmap string qvalue) :
  plain_pair kv = true ->
  q !! kv.1 = None ->
  (String.eqb (query_piece kv) "" = false)
  /\ NodeUrl.qs_add (query_piece kv) q = <[kv.1 := QStr kv.2]> q.
Proof.
  intros H Hq. destruct kv as [k v]. unfold plain_pair in H.
  apply andb_true_iff in H as [Hk Hv]. simpl in *.
  unfold query_piece. simpl. split.
  - destruct k; reflexivity.
  - unfold NodeUrl.qs_add.
    change ("=" +:+ v) with (String "=" v).
    rewrite break_at_free.
    2:{ intros c Hc. apply (id_char_query c (id_chars_in k c Hk Hc)). }
    rewrite break_at_stop by reflexivity. cbn [fst snd string_drop].
    rewrite append_empty, (qs_decode_id true k Hk), (qs_decode_id false v Hv).
    now rewrite Hq.
Qed.

Lemma qs_fold (kvs : list (string * string)) (q : gmap string qvalue) :
  Forall (fun kv => plain_pair kv = true) kvs ->
  NoDup (map fst kvs) ->
  (forall k, In k (map fst kvs) -> q !! k = None) ->
  fold_left (fun q piece => if String.eqb piece "" then q
                            else NodeUrl.qs_add piece q)
            (map query_piece kvs) q
  = query_object kvs ∪ q.
Proof.
  intros H. revert q. induction H as [|kv kvs Hkv _ IH]; intros q Hnd Hq.
  - unfold query_object. simpl. now rewrite (left_id_L ∅ (∪)).
  - apply NoDup_cons in Hnd as [Hnotin Hnd]. cbn [map fold_left].
    destruct (qs_add_piece kv q Hkv (Hq kv.1 (or_introl eq_refl))) as [-> ->].
    rewrite IH; [|exact Hnd|].
    + unfold query_object. cbn [map list_to_map]. simpl.
      rewrite <- insert_union_r, insert_union_l; [reflexivity|].
      apply not_elem_of_list_to_map_1. rewrite <- list_fmap_compose.
      intros Hin. apply list_elem_of_fmap in Hin as (y & Hy & Hyin).
      simpl in Hy. apply Hnotin. rewrite Hy.
      change (map fst kvs) with (fst <$> kvs).
      now apply list_elem_of_fmap_2.
    + intros k Hk. rewrite lookup_insert_ne; [apply Hq; now right|].
      intros <-. apply Hnotin. now apply list_elem_of_In.
Qed.

(** What [querystring.parse] reads in the query string of plain data
    with distinct keys: the keys it counts, which are the first thousand. *)
Lemma qs_parse_data (kvs : list (string * string)) :
  Forall (fun kv => plain_pair kv = true) kvs ->
  NoDup (map fst kvs) ->
  NodeUrl.qs_parse (String.concat "&" (map query_piece kvs))
  = query_object (take NodeUrl.maxKeys kvs).
Proof.
  intros H Hnd. destruct kvs as [|kv kvs]; [reflexivity|].
  unfold NodeUrl.qs_parse. rewrite split_concat_amp.
  - change (map query_piece (kv :: kvs)) with (query_piece <$> kv :: kvs).
    rewrite <- fmap_take.
    rewrite (qs_fold (take NodeUrl.maxKeys (kv :: kvs)) ∅).
    + now rewrite (right_id_L ∅ (∪)).
    + now apply Forall_take.
    + change (map fst (take NodeUrl.maxKeys (kv :: kvs)))
        with (fst <$> take NodeUrl.maxKeys (kv :: kvs)).
      rewrite fmap_take.
      change (map fst (kv :: kvs)) with (fst <$> kv :: kvs) in Hnd.
      rewrite <- (take_drop NodeUrl.maxKeys (fst <$> kv :: kvs)) in Hnd.
      now apply NoDup_app in Hnd as [Hnd _].
    + intros k _. apply lookup_empty.
  - discriminate.
  - apply Forall_fmap. eapply Forall_impl; [exact H|].
    intros p Hp c Hc. simpl.
    destruct (piece_chars p c Hp Hc) as [Hid| ->]; [|reflexivity].
    apply (id_char_facts c Hid).
Qed.

(** What [url.parse] reads in the URL formatted from a plain view id and
    plain data. *)
Lemma parse_data_url (v : string) (kvs : list (string * string)) :
  id_chars v = true -> v <> "" ->
  Forall (fun kv => plain_pair kv = true) kvs ->
  NoDup (map fst kvs) ->
  NodeUrl.parse (view_url v (data_object kvs))
  = Ok {| hostname := Some ""; pathname := Some (String "/" v);
          query := query_object (take NodeUrl.maxKeys kvs) |}.
Proof.
  intros Hv Hne Hkvs Hnd.
  assert (Hplain : plain (String "/" v) = true).
  { simpl. now apply segment_chars_plain, id_chars_segment. }
  assert (Hpath : NodeUrl.escape_path
                    (if negb (String.eqb v "") && negb (String.prefix "/" v)
                     then "/" +:+ v else v) = String "/" v).
  { destruct v as [|c v']; [contradiction|].
    simpl in Hv. apply andb_true_iff in Hv as [Hc Hv'].
    destruct (id_char_facts c Hc) as (_ & Hseg & _).
    rewrite (prefix_slash_false c v' Hseg).
    change (String.eqb (String c v') "") with false. cbn [negb andb].
    now rewrite (escape_path_plain ("/" +:+ String c v')). }
  unfold view_url, NodeUrl.format.
  cbn [o_protocol o_slashes o_pathname o_query].
  change (negb (String.eqb "view:" "") && negb (NodeUrl.last_is_colon "view:"))
    with false. cbv iota zeta.
  rewrite Hpath, (stringify_data kvs Hkvs).
  destruct kvs as [|kv kvs].
  - change (String.concat "&" (map query_piece [])) with "".
    cbn [String.eqb]. cbv iota.
    change ("view:" +:+ "//" +:+ String "/" v +:+ "")
      with ("view://" +:+ String "/" v +:+ "").
    now rewrite (parse_view v "" (id_path_chars v Hv)) by now left.
  - set (qs := String.concat "&" (map query_piece (kv :: kvs))).
    assert (Hqne : String.eqb qs "" = false).
    { subst qs. destruct kv as [k x]. destruct kvs; destruct k; reflexivity. }
    rewrite Hqne.
    change ("view:" +:+ "//" +:+ String "/" v +:+ "?" +:+ qs)
      with ("view://" +:+ String "/" v +:+ String "?" qs).
    rewrite (parse_view v _ (id_path_chars v Hv)) by (right; eauto).
    rewrite search_query.
    + subst qs. now rewrite (qs_parse_data (kv :: kvs) Hkvs Hnd).
    + unfold query_chars.
      apply forallb_forall. intros c Hc. subst qs.
      apply in_concat_amp in Hc as [->|(p & Hp & Hc)]; [reflexivity|].
      apply in_map_iff in Hp as (kv' & <- & Hin).
      rewrite Forall_forall in Hkvs.
      destruct (piece_chars kv' c (Hkvs kv' ltac:(now apply list_elem_of_In))
                  Hc) as [Hid| ->]; [|reflexivity].
      apply (id_char_query c Hid).
Qed.

(** ** The prototype chain of the registry *)

Section Prototype.

Context {R : Runtime}.

Lemma read_builtin (st : instance) (m : string) :
  In m object_prototype_functions ->
  _renderers st !! m = None ->
  read_renderer st m = CurBuiltin m.
Proof.
  intros Hin Hnone. unfold read_renderer. rewrite Hnone.
  unfold object_prototype_functions in Hin. simpl in Hin.
  repeat (destruct Hin as [<-|Hin];
          [now destruct (prototype (_renderers st))|]).
  contradiction.
Qed.

(** A name that [Object.prototype] binds to a function is selected like a
    registered one. [use] reads the function, which has a name and neither
    an extension nor an action: the candidate path of a request ends with
    a dot and the name of the function, a request whose path ends with an
    ignore suffix resolves empty, and every other request whose path is
    composed rejects with a [TypeError]. *)
Theorem inherited_name_selects_a_function
    (m : string) (st : instance) (h : heap) (request_url fileName : string) :
  In m object_prototype_functions ->
  _renderers st !! m = None ->
  parseFilePath request_url = Ok fileName ->
  exists st',
    use m st = Ok st'
    /\ _currentRenderer st' = CurBuiltin m
    /\ let p := path_join [_viewPath st;
                           fileName +:+ "." +:+ builtin_name m] in
       candidate_path st' request_url = Ok p
       /\ renderTemplate st' h request_url
          = if foundIgnore st p then (Resolved empty_response, [])
            else (Rejected
                    (TypeError "renderer.rendererAction is not a function"),
                  []).
Proof.
  intros Hin Hnone Hfile. eexists. split; [reflexivity|].
  cbn [on_ready set_current _currentRenderer].
  split; [now apply read_builtin|].
  destruct (parseFilePath_parsed request_url fileName Hfile)
    as [parsedUrl Hu].
  unfold candidate_path, renderTemplate.
  cbn [on_ready set_current _currentRenderer _viewPath].
  rewrite (read_builtin st m Hin Hnone), Hu, Hfile.
  cbn [renderer_extension renderer_action]. split; [reflexivity|].
  unfold foundIgnore. cbn [on_ready set_current _ingnoreExtensions].
  now destruct (_ && _).
Qed.

(** A registration under the name [__proto__] replaces the prototype of
    the registry: the own properties of the registry are as before, the
    name reads the new descriptor, and the names [name], [extension] and
    [rendererAction], when nothing is registered under them, now read the
    properties of that descriptor. *)
Theorem registration_under_proto_replaces_prototype
    (d : renderer_data) (st : instance) :
  _renderers st !! "name" = None ->
  _renderers st !! "extension" = None ->
  _renderers st !! "rendererAction" = None ->
  let data := {| extension := d_extension d;
                 rendererAction := d_rendererAction d;
                 name := "__proto__" |} in
  exists st',
    add (Some "__proto__") (Some d) st = Ok st'
    /\ own (_renderers st') = own (_renderers st)
    /\ prototype (_renderers st') = Some data
    /\ read_renderer st' "__proto__" = CurDescriptor data
    /\ read_renderer st' "name" = CurString "__proto__"
    /\ read_renderer st' "extension"
       = match d_extension d with
         | Some e => CurString e
         | None => CurNull
         end
    /\ read_renderer st' "rendererAction"
       = match d_rendererAction d with
         | Some a => CurAction a
         | None => CurUndefined
         end.
Proof.
  intros Hname Hext Hact data. eexists. split; [reflexivity|].
  split; [reflexivity|]. split; [reflexivity|].
  unfold read_renderer. cbn [set_renderers _renderers].
  rewrite store_lookup_insert_eq.
  rewrite !store_lookup_insert_ne by discriminate.
  rewrite Hname, Hext, Hact. repeat split.
Qed.

(** What [url.parse] throws on a URL is what every use of that URL ends
    with: the path resolver and the asset handler throw it, and a view
    request rejects with it before any renderer is looked at, which the
    protocol handler logs without calling the host's callback. *)
Theorem unparsable_url_is_refused
    (st : instance) (h : heap) (request_url : string) (ex : js_error) :
  url_parse request_url = Throw ex ->
  parseFilePath request_url = Throw ex
  /\ renderTemplate st h request_url = (Rejected ex, [])
  /\ view_handler st h request_url = LoggedOnly ex
  /\ asset_handler st request_url = Throw ex.
Proof.
  intros Hu. unfold view_handler, renderTemplate, asset_handler, parseFilePath.
  rewrite Hu. auto.
Qed.

End Prototype.

Lemma inherited_name_selects_a_function_witness :
  let R := posix_runtime title_action in
  exists st',
    use "toString" (initial_instance (with_ignore [".map.toString"])) = Ok st'
    /\ candidate_path st' "view:///index" = Ok "views/index.toString"
    /\ renderTemplate st' ∅ "view:///app.js.map"
       = (Resolved empty_response, []).
Proof.
  intros R.
  destruct (inherited_name_selects_a_function (R := R) "toString"
              (initial_instance (with_ignore [".map.toString"])) ∅
              "view:///index" "/index")
    as (st' & Huse & _ & Hpath & _).
  - vm_compute. auto 12.
  - reflexivity.
  - reflexivity.
  - exists st'. split; [exact Huse|]. split; [exact Hpath|].
    injection Huse as <-. reflexivity.
Defined.

Lemma registration_under_proto_replaces_prototype_witness :
  let R := posix_runtime title_action in
  let d := {| d_extension := Some ".tpl"; d_rendererAction := None |} in
  exists st',
    add (Some "__proto__") (Some d) (initial_instance no_options) = Ok st'
    /\ read_renderer st' "name" = CurString "__proto__"
    /\ read_renderer st' "extension" = CurString ".tpl".
Proof.
  intros R d.
  destruct (registration_under_proto_replaces_prototype d
              (initial_instance no_options) eq_refl eq_refl eq_refl)
    as (st' & Hadd & _ & _ & _ & Hname & Hext & _).
  exists st'. auto.
Defined.

Lemma unparsable_url_is_refused_witness :
  let R := posix_runtime title_action in
  renderTemplate ejs_instance ∅ "view://%ZZ@host/index"
  = (Rejected (URIError "URI malformed"), [])
  /\ asset_handler ejs_instance "asset://%E0%80%80@css/main.css"
     = Throw (URIError "URI malformed")
  /\ asset_handler ejs_instance "asset://me%40home@css/main.css"
     = Ok "assets/css/main.css".
Proof.
  intros R. split; [|split].
  - exact (proj1 (proj2 (unparsable_url_is_refused (R := R) ejs_instance ∅
                           "view://%ZZ@host/index" _ eq_refl))).
  - exact (proj2 (proj2 (proj2 (unparsable_url_is_refused (R := R)
                                  ejs_instance ∅
                                  "asset://%E0%80%80@css/main.css" _
                                  eq_refl)))).
  - reflexivity.
Defined.

(** ** The first revision *)

Module FirstRevisionFacts.

Import FirstRevision.

Section Facts1.

Context {R : Runtime}.

Lemma constructor1_ok (o : options) :
  constructor1 (Some o) = Ok1 (initial_instance1 o).
Proof. reflexivity. Qed.

(** In the first revision [add] keeps the caller's object and writes the
    name into it, so an object registered under two names is one object
    bearing the second name: selected under the first name, and having no
    extension of its own, it renders files with the second name's
    extension. *)
Theorem shared_renderer_object_takes_last_name
    (a b : string) (l : loc) (o : renderer_obj) (st : instance1) :
  a <> "" -> b <> "" ->
  objects1 st !! l = Some o ->
  let st2 := (add1 (Some b) (Some l) (add1 (Some a) (Some l) st).1).1 in
  renderers1 st2 !! a = Some (Some l)
  /\ renderers1 st2 !! b = Some (Some l)
  /\ objects1 st2 !! l = Some (set_name b o)
  /\ (ro_extension o = None ->
      renderer_extension1 (use1 a st2) = Ok1 ("." +:+ b)).
Proof.
  intros Ha Hb Ho st2. subst st2. unfold add1.
  apply String.eqb_neq in Ha as Ea. apply String.eqb_neq in Hb as Eb.
  rewrite Ea. cbn [fst]. rewrite Eb. cbn [fst]. simpl.
  assert (Hobj : alter (set_name b) l (alter (set_name a) l (objects1 st)) !! l
                 = Some (set_name b o)).
  { rewrite !lookup_alter_eq, Ho. reflexivity. }
  assert (Hreg : <[b := Some l]> (<[a := Some l]> (renderers1 st)) !! a
                 = Some (Some l)).
  { destruct (decide (a = b)) as [->|Hab].
    - apply store_lookup_insert_eq.
    - rewrite store_lookup_insert_ne by congruence. apply store_lookup_insert_eq. }
  split; [exact Hreg|]. split; [apply store_lookup_insert_eq|].
  split; [exact Hobj|].
  intros Hext. unfold renderer_extension1, use1, read_renderer1.
  cbn [with_registry renderers1 objects1 currentRenderer1
       object_prototype_name1].
  rewrite Hreg, Hobj. cbn [set_name ro_extension ro_name default from_option].
  now rewrite Hext.
Qed.

(** With [data] undefined, [add] throws only after it has registered the
    name: the name is then bound to [undefined], and selecting it makes
    every request reject. The name [__proto__] is apart: binding it to
    [undefined] is ignored. *)
Theorem add_without_data_registers_undefined
    (n : string) (st : instance1) (h : heap) (request_url : string) :
  n <> "" ->
  n <> "__proto__" ->
  let r := add1 (Some n) None st in
  (exists msg, r.2 = Some (JsError (TypeError msg)))
  /\ renderers1 r.1 !! n = Some None
  /\ objects1 r.1 = objects1 st
  /\ exists e, renderTemplate1 (use1 n r.1) h request_url = (Rejected1 e, []).
Proof.
  intros Hn Hproto r. subst r. unfold add1.
  apply String.eqb_neq in Hn as ->. apply String.eqb_neq in Hproto as ->.
  cbn [fst snd].
  split; [eauto|]. split; [apply store_lookup_insert_eq|]. split; [reflexivity|].
  unfold renderTemplate1, renderer_extension1, use1, read_renderer1.
  cbn [with_registry renderers1 currentRenderer1].
  rewrite store_lookup_insert_eq.
  destruct (url_parse request_url); [|eauto].
  destruct (parseFilePath1 request_url); eauto.
Qed.

(** The name [__proto__] registered without data: the assignment of
    [undefined] to it is ignored, so [add] does not throw and binds
    nothing, and the name is written into the prototype of the registry.
    While that is [Object.prototype], every object without a name of its
    own inherits the name: the [{}] selected before any [use] now gives
    the extension [.__proto__]. *)
Theorem proto_without_data_names_object_prototype (st : instance1) :
  prototype (renderers1 st) = None ->
  let r := add1 (Some "__proto__") None st in
  r.2 = None
  /\ renderers1 r.1 = renderers1 st
  /\ objects1 r.1 = objects1 st
  /\ object_prototype_name1 r.1 = Some "__proto__"
  /\ (currentRenderer1 st = Cur1Empty ->
      renderer_extension1 r.1 = Ok1 ".__proto__").
Proof.
  intros Hnone r. subst r. unfold add1.
  change (String.eqb "__proto__" "") with false.
  change (String.eqb "__proto__" "__proto__") with true. cbv iota.
  rewrite Hnone. cbn [fst snd]. repeat split.
  intros Hcur. unfold renderer_extension1, name_object_prototype.
  cbn [currentRenderer1 object_prototype_name1]. now rewrite Hcur.
Qed.

(** On [win32] the first revision serves nothing: the path resolver reads
    an undeclared variable, so every view request whose URL [url.parse]
    accepts rejects with a [ReferenceError] before a renderer is called. On
    every platform a request whose URL [url.parse] refuses rejects with
    what it throws. Elsewhere the view data of every call is the parsed
    query of the request. *)
Theorem first_revision_requests
    (st : instance1) (h : heap) (request_url : string) :
  (win32 = true ->
   forall parsedUrl, url_parse request_url = Ok parsedUrl ->
     renderTemplate1 st h request_url
     = (Rejected1 (ReferenceError "pathname is not defined"), []))
  /\ (forall ex, url_parse request_url = Throw ex ->
        renderTemplate1 st h request_url = (Rejected1 (JsError ex), []))
  /\ (forall c, c ∈ snd (renderTemplate1 st h request_url) ->
        win32 = false
        /\ exists parsedUrl,
             url_parse request_url = Ok parsedUrl
             /\ c.2 = VQuery (query parsedUrl)).
Proof.
  unfold renderTemplate1, parseFilePath1. split; [|split].
  - intros Hw parsedUrl ->. now rewrite Hw.
  - intros ex ->. reflexivity.
  - intros c. destruct (url_parse request_url) as [parsedUrl|]; [|inversion 1].
    destruct win32; [inversion 1|].
    destruct (pathname parsedUrl); [|inversion 1].
    destruct (renderer_extension1 st); [|inversion 1].
    destruct (renderer_action1 st) as [act|]; [|inversion 1].
    destruct (act _ _ h); simpl; intros Hc;
      apply list_elem_of_singleton in Hc; subst c; eauto.
Qed.

End Facts1.

Section Travel.

Variable ejs : action.

Let R : Runtime := node_runtime false PosixPath.join ejs.

(** In the first revision the data travels in the URL. Off [win32], for a
    plain view id and a data object of plain string values under distinct
    plain keys: [load] formats the data as the query of the URL, and the
    request for that URL calls the renderer with the view's file and with
    the parsed query, which holds each value as a string under its key,
    for the first thousand keys: [querystring.parse] counts no more. *)
Theorem data_travels_in_the_query
    (w : nat) (v e : string) (kvs : list (string * string)) (l : loc)
    (h : heap) (st : instance1) (act : action) :
  id_chars v = true ->
  v <> "" ->
  Forall (fun kv => plain_pair kv = true) kvs ->
  NoDup (map fst kvs) ->
  h !! l = Some (data_object kvs) ->
  renderer_extension1 (R := R) st = Ok1 e ->
  renderer_action1 st = Ok1 act ->
  load1 (R := R) w v (Some l) h = (w, view_url v (data_object kvs))
  /\ snd (renderTemplate1 (R := R) st h (load1 (R := R) w v (Some l) h).2)
     = [(PosixPath.join [viewPath1 st; "/" +:+ v +:+ e],
         VQuery (query_object (take 1000 kvs)))].
Proof.
  intros Hv Hne Hkvs Hnd Hl He Hact.
  assert (Hload : load1 (R := R) w v (Some l) h
                  = (w, view_url v (data_object kvs))).
  { unfold load1. simpl. rewrite Hl. reflexivity. }
  split; [exact Hload|]. rewrite Hload. cbn [snd].
  unfold renderTemplate1, parseFilePath1. simpl url_parse. simpl win32.
  rewrite (parse_data_url v kvs Hv Hne Hkvs Hnd).
  cbn [pathname query]. cbv beta iota zeta.
  rewrite (replace_spaces_plain (String "/" v))
    by (simpl; now apply segment_chars_plain, id_chars_segment).
  rewrite He, Hact. simpl.
  destruct (act _ _ h); reflexivity.
Qed.

End Travel.

Lemma data_travels_in_the_query_witness :
  let R := posix_runtime title_action in
  let h : heap := {[ 3%nat := [("title", VStr "Hi"); ("tab", VStr "a")] ]} in
  let st := use1 "ejs" (initial_instance1 no_options) in
  (load1 0 "home" (Some 3%nat) h).2 = "view:///home?title=Hi&tab=a"
  /\ snd (renderTemplate1 st h "view:///home?title=Hi&tab=a")
     = [("views/home.ejs",
         VQuery {[ "title" := QStr "Hi"; "tab" := QStr "a" ]})].
Proof.
  intros R h st. split; [reflexivity|].
  refine (proj2 (data_travels_in_the_query title_action 0 "home" ".ejs"
                   [("title", "Hi"); ("tab", "a")] 3%nat h st title_action
                   _ _ _ _ _ _ _)); try reflexivity.
  - discriminate.
  - repeat constructor.
  - apply NoDup_cons_2.
    + intros Hin. apply list_elem_of_singleton in Hin. discriminate Hin.
    + apply NoDup_singleton.
Defined.

Lemma shared_renderer_object_takes_last_name_witness :
  let R := posix_runtime title_action in
  let st := initial_instance1 no_options in
  let st2 := (add1 (Some "pug") (Some 0%nat)
                (add1 (Some "haml") (Some 0%nat) st).1).1 in
  renderers1 st2 !! "haml" = Some (Some 0%nat)
  /\ (objects1 st2 !! 0%nat) ≫= ro_name = Some "pug".
Proof.
  intros R st st2.
  destruct (shared_renderer_object_takes_last_name "haml" "pug" 0%nat
              {| ro_extension := Some ".ejs";
                 ro_rendererAction := Some title_action;
                 ro_name := Some "ejs" |}
              st ltac:(discriminate) ltac:(discriminate) eq_refl)
    as (H1 & _ & H3 & _).
  split; [exact H1|]. subst st2. rewrite H3. reflexivity.
Defined.

Lemma add_without_data_registers_undefined_witness :
  let R := posix_runtime title_action in
  renderers1 (add1 (Some "pug") None (initial_instance1 no_options)).1 !! "pug"
  = Some None.
Proof.
  intros R.
  exact (proj1 (proj2 (add_without_data_registers_undefined (R := R) "pug"
                         (initial_instance1 no_options) ∅
                         "view:///index" ltac:(discriminate)
                         ltac:(discriminate)))).
Defined.

Lemma proto_without_data_names_object_prototype_witness :
  let R := posix_runtime title_action in
  let r := add1 (Some "__proto__") None (initial_instance1 no_options) in
  r.2 = None
  /\ renderer_extension1 r.1 = Ok1 ".__proto__"
  /\ prototype (renderers1 r.1) = None.
Proof.
  intros R r.
  destruct (proto_without_data_names_object_prototype (R := R)
              (initial_instance1 no_options) eq_refl)
    as (H1 & H2 & _ & _ & H5).
  split; [exact H1|]. split; [exact (H5 eq_refl)|].
  subst r. now rewrite H2.
Defined.

Lemma first_revision_requests_witness :
  let R := node_runtime true PosixPath.join title_action in
  renderTemplate1 (use1 "ejs" (initial_instance1 no_options)) ∅ "view:///index"
  = (Rejected1 (ReferenceError "pathname is not defined"), []).
Proof.
  intros R.
  exact (proj1 (first_revision_requests (R := R) _ ∅ "view:///index") eq_refl
           {| hostname := Some ""; pathname := Some "/index"; query := ∅ |}
           eq_refl).
Defined.

End FirstRevisionFacts.
